(** * stock-tracker: the position / cost-basis engine

    A shallow embedding of [src/utils/calculations.ts]
    ([calculatePositions], [calculateTotalProfitLoss],
    [analyzeTradeHistory]) and of the types of [src/types/index.ts]
    they work on, with the properties of the engine stated and proved
    over it.

    Modelling conventions.
    - A JavaScript [number] is read twice.  In the first parts it is an
      exact rational ([Qc], canonical fractions, so that equal numbers
      are equal terms): what is proved there of sums, differences and
      quotients is proved of the exact values, and holds of the doubles
      of the code where no rounding is at stake (comparisons, the order
      and the number of results, single operations).  In the last part
      the engine is written over the arithmetic it is run in, with
      IEEE-754 binary64 as an instance: what depends on rounding is
      settled there, and the engine of the first parts is proved to be
      that engine run in exact arithmetic.
    - An optional field ([commission?: number]) and a nullable one
      ([number | null]) are [option]s.
    - A JavaScript [Map] keeps its keys in insertion order: it is an
      association list, [Map.get] finds the entry of a key and [Map.set]
      overwrites the entry in place or appends a new one.
    - [Array.prototype.sort] is stable; it is a stable insertion sort
      driven by the comparator's sign.
    - [new Date(s).getTime()] belongs to the runtime: the model takes it
      as a parameter [getTime : string -> Z]; a date that does not parse,
      whose time is NaN, is outside the model.
    - The functions are modelled twice: on values, where arrays and maps
      are lists, and on a heap of objects, where they are references and
      the loops assign in place.  The second model says what a call
      does to the objects it is given; it is proved to compute what the
      first computes. *)

From Stdlib Require Import List String Ascii Bool ZArith QArith Qcanon.
From Stdlib Require Import Lia Lqa Permutation Sorted PrimFloat Qround.
Import ListNotations.

Local Open Scope string_scope.
Local Open Scope list_scope.
Local Open Scope Qc_scope.

(** ** Numbers *)

Module Num.

(** [x < y] and [x <= y] of JavaScript, as booleans. *)
Definition ltb (x y : Qc) : bool :=
  match x ?= y with Lt => true | _ => false end.

Definition leb (x y : Qc) : bool :=
  match x ?= y with Gt => false | _ => true end.

(** [Math.min(x, y)]. *)
Definition min (x y : Qc) : Qc := if leb x y then x else y.

(** A decimal literal. *)
Definition lit (q : Q) : Qc := Q2Qc q.

(** [c || 0] on an optional number: [undefined] and [0] both give 0. *)
Definition orZero (c : option Qc) : Qc :=
  match c with Some x => x | None => 0 end.

End Num.

(** ** JavaScript containers *)

Module JsMap.

Section WithValue.
Context {V : Type}.

Definition t := list (string * V).

Definition empty : t := [].

Fixpoint get (k : string) (m : t) : option V :=
  match m with
  | [] => None
  | (k', v) :: r => if String.eqb k k' then Some v else get k r
  end.

Fixpoint set (k : string) (v : V) (m : t) : t :=
  match m with
  | [] => [(k, v)]
  | (k', v') :: r =>
      if String.eqb k k' then (k, v) :: r else (k', v') :: set k v r
  end.

End WithValue.

Arguments t : clear implicits.

End JsMap.

Module JsArray.

Section WithElement.
Context {A : Type}.
Variable cmp : A -> A -> Z.

(** [x] goes in front of the first element it does not compare
    greater than, so that elements that compare equal keep the order
    they had in the input. *)
Fixpoint insert (x : A) (l : list A) : list A :=
  match l with
  | [] => [x]
  | y :: r => if (cmp x y <=? 0)%Z then x :: l else y :: insert x r
  end.

(** [[...a].sort(cmp)]. *)
Fixpoint sort (l : list A) : list A :=
  match l with
  | [] => []
  | x :: r => insert x (sort r)
  end.

End WithElement.

End JsArray.

(** ** Types ([src/types/index.ts]) *)

Inductive TradeType : Type := buy | sell.

Module Trade.
Record t : Type := mk {
  id : string;
  stockCode : string;
  stockName : string;
  type : TradeType;
  price : Qc;
  quantity : Qc;
  date : string;
  commission : option Qc;
  tags : option (list string)
}.
End Trade.

Module Position.
Record t : Type := mk {
  stockCode : string;
  stockName : string;
  totalQuantity : Qc;
  totalCost : Qc;
  averageCost : Qc;
  currentPrice : option Qc;
  marketValue : option Qc;
  profitLoss : option Qc;
  profitLossPercent : option Qc
}.
End Position.

(** The value type of [positionMap] in [calculatePositions]. *)
Module Holding.
Record t : Type := mk {
  stockCode : string;
  stockName : string;
  totalQuantity : Qc;
  totalCost : Qc
}.
End Holding.

(** The result of [calculateTotalProfitLoss]. *)
Module Totals.
Record t : Type := mk {
  totalCost : Qc;
  totalMarketValue : option Qc;
  totalProfitLoss : option Qc;
  totalProfitLossPercent : option Qc
}.
End Totals.

(** The value type of [stockInventory] in [analyzeTradeHistory]. *)
Module Inventory.
Record t : Type := mk {
  quantity : Qc;
  totalCost : Qc
}.
End Inventory.

Module AnalysisPoint.
Record t : Type := mk {
  date : string;
  cost : Qc;
  profit : Qc;
  cumulativeCost : Qc
}.
End AnalysisPoint.

(** [s || d] on strings: the empty string is falsy. *)
Definition strOr (s d : string) : string :=
  match s with EmptyString => d | _ => s end.

(** [s.split('T')[0]]: the part of [s] in front of its first ['T']. *)
Fixpoint beforeT (s : string) : string :=
  match s with
  | EmptyString => EmptyString
  | String c r => if Ascii.eqb c "T"%char then EmptyString else String c (beforeT r)
  end.

(** ** [src/utils/calculations.ts] *)

Section Calculations.

(** [new Date(s).getTime()]. *)
Variable getTime : string -> Z.

(** The comparator of both sorts:
    [(a, b) => new Date(a.date).getTime() - new Date(b.date).getTime()]. *)
Definition byDate (a b : Trade.t) : Z :=
  (getTime (Trade.date a) - getTime (Trade.date b))%Z.

Definition sortedTrades (trades : list Trade.t) : list Trade.t :=
  JsArray.sort byDate trades.

(** *** calculatePositions *)

(** [positionMap.get(key) || { stockCode, stockName, 0, 0 }]. *)
Definition existingHolding (m : JsMap.t Holding.t) (trade : Trade.t) : Holding.t :=
  match JsMap.get (Trade.stockCode trade) m with
  | Some e => e
  | None => Holding.mk (Trade.stockCode trade) (Trade.stockName trade) 0 0
  end.

(** The buy / sell branch of the first loop, in exact arithmetic;
    [Engine.applyTrade] is the same branch over the arithmetic of the
    code. *)
Definition applyTrade (existing : Holding.t) (trade : Trade.t) : Holding.t :=
  match Trade.type trade with
  | buy =>
      Holding.mk (Holding.stockCode existing) (Holding.stockName existing)
        (Holding.totalQuantity existing + Trade.quantity trade)
        (Holding.totalCost existing
         + (Trade.price trade * Trade.quantity trade
            + Num.orZero (Trade.commission trade)))
  | sell =>
      if Num.ltb 0 (Holding.totalQuantity existing) then
        let costPerShare := Holding.totalCost existing / Holding.totalQuantity existing in
        let soldQuantity := Num.min (Trade.quantity trade) (Holding.totalQuantity existing) in
        Holding.mk (Holding.stockCode existing) (Holding.stockName existing)
          (Holding.totalQuantity existing - soldQuantity)
          (Holding.totalCost existing - costPerShare * soldQuantity)
      else existing
  end.

(** [existing.stockName = trade.stockName || existing.stockName]. *)
Definition renameHolding (existing : Holding.t) (trade : Trade.t) : Holding.t :=
  Holding.mk (Holding.stockCode existing)
    (strOr (Trade.stockName trade) (Holding.stockName existing))
    (Holding.totalQuantity existing) (Holding.totalCost existing).

(** One iteration of [for (const trade of sortedTrades)]. *)
Definition positionStep (m : JsMap.t Holding.t) (trade : Trade.t) : JsMap.t Holding.t :=
  let key := Trade.stockCode trade in
  let existing := existingHolding m trade in
  JsMap.set key (renameHolding (applyTrade existing trade) trade) m.

Definition positionMap (trades : list Trade.t) : JsMap.t Holding.t :=
  fold_left positionStep (sortedTrades trades) JsMap.empty.

(** One iteration of [for (const [stockCode, data] of positionMap)]:
    [None] is the [continue] of a closed holding.  The quotients are
    exact here; [Engine.toPosition] has them in the arithmetic of the
    code. *)
Definition toPosition (currentPrices : JsMap.t Qc) (entry : string * Holding.t)
  : option Position.t :=
  let (stockCode, data) := entry in
  if Num.leb (Holding.totalQuantity data) 0 then None
  else
    let currentPrice := JsMap.get stockCode currentPrices in
    let averageCost :=
      if Num.ltb 0 (Holding.totalQuantity data)
      then Holding.totalCost data / Holding.totalQuantity data
      else 0 in
    match currentPrice with
    | Some cp =>
        let marketValue := cp * Holding.totalQuantity data in
        let profitLoss := marketValue - Holding.totalCost data in
        let profitLossPercent :=
          if Num.ltb 0 (Holding.totalCost data)
          then profitLoss / Holding.totalCost data * Num.lit 100
          else 0 in
        Some (Position.mk stockCode (Holding.stockName data)
                (Holding.totalQuantity data) (Holding.totalCost data)
                averageCost currentPrice
                (Some marketValue) (Some profitLoss) (Some profitLossPercent))
    | None =>
        Some (Position.mk stockCode (Holding.stockName data)
                (Holding.totalQuantity data) (Holding.totalCost data)
                averageCost currentPrice None None None)
    end.

Fixpoint collectPositions (currentPrices : JsMap.t Qc) (m : JsMap.t Holding.t)
  : list Position.t :=
  match m with
  | [] => []
  | entry :: r =>
      match toPosition currentPrices entry with
      | Some p => p :: collectPositions currentPrices r
      | None => collectPositions currentPrices r
      end
  end.

Definition calculatePositions (trades : list Trade.t) (currentPrices : JsMap.t Qc)
  : list Position.t :=
  collectPositions currentPrices (positionMap trades).

(** *** analyzeTradeHistory *)

(** The variables the loop of [analyzeTradeHistory] updates. *)
Record AnalysisState : Type := mkState {
  points : list AnalysisPoint.t;
  currentCumulativeCost : Qc;
  stockInventory : JsMap.t Inventory.t
}.

Definition initialState : AnalysisState := mkState [] 0 JsMap.empty.

(** [stockInventory.get(trade.stockCode) || { quantity: 0, totalCost: 0 }]. *)
Definition inventoryOf (m : JsMap.t Inventory.t) (trade : Trade.t) : Inventory.t :=
  match JsMap.get (Trade.stockCode trade) m with
  | Some i => i
  | None => Inventory.mk 0 0
  end.

(** The buy / sell branch of the loop: the inventory after the trade,
    [tradeProfit], and [currentCumulativeCost] after the trade, in
    exact arithmetic; [Engine.tradeEffect] is the same branch over the
    arithmetic of the code. *)
Definition tradeEffect (inventory : Inventory.t) (cumulativeCost : Qc)
    (trade : Trade.t) : Inventory.t * Qc * Qc :=
  let tradeAmount := Trade.price trade * Trade.quantity trade in
  match Trade.type trade with
  | buy =>
      let costBasis := tradeAmount + Num.orZero (Trade.commission trade) in
      (Inventory.mk (Inventory.quantity inventory + Trade.quantity trade)
                    (Inventory.totalCost inventory + costBasis),
       0,
       cumulativeCost + costBasis)
  | sell =>
      if Num.ltb 0 (Inventory.quantity inventory) then
        let avgCost := Inventory.totalCost inventory / Inventory.quantity inventory in
        let soldQuantity := Num.min (Trade.quantity trade) (Inventory.quantity inventory) in
        let costOfSold := avgCost * soldQuantity in
        (Inventory.mk (Inventory.quantity inventory - soldQuantity)
                      (Inventory.totalCost inventory - costOfSold),
         tradeAmount - Num.orZero (Trade.commission trade) - costOfSold,
         cumulativeCost - costOfSold)
      else (inventory, 0, cumulativeCost)
  end.

(** The point pushed for a trade. *)
Definition pointOf (trade : Trade.t) (tradeProfit cumulativeCost : Qc) : AnalysisPoint.t :=
  let tradeDate := beforeT (Trade.date trade) in
  let tradeAmount := Trade.price trade * Trade.quantity trade in
  AnalysisPoint.mk tradeDate tradeAmount tradeProfit cumulativeCost.

(** One iteration of [for (const trade of sortedTrades)]. *)
Definition analysisStep (st : AnalysisState) (trade : Trade.t) : AnalysisState :=
  let inventory := inventoryOf (stockInventory st) trade in
  let '(inventory', tradeProfit, cumulative') :=
    tradeEffect inventory (currentCumulativeCost st) trade in
  mkState
    (points st ++ [pointOf trade tradeProfit cumulative'])
    cumulative'
    (JsMap.set (Trade.stockCode trade) inventory' (stockInventory st)).

Definition analysisRun (trades : list Trade.t) : AnalysisState :=
  fold_left analysisStep (sortedTrades trades) initialState.

Definition analyzeTradeHistory (trades : list Trade.t) : list AnalysisPoint.t :=
  points (analysisRun trades).

End Calculations.

(** *** calculateTotalProfitLoss *)

(** The accumulators of the loop: [totalCost], [totalMarketValue],
    [hasAnyPrice]. *)
Definition totalsStep (acc : Qc * Qc * bool) (pos : Position.t) : Qc * Qc * bool :=
  let '(totalCost, totalMarketValue, hasAnyPrice) := acc in
  match Position.marketValue pos with
  | Some mv => (totalCost + Position.totalCost pos, totalMarketValue + mv, true)
  | None => (totalCost + Position.totalCost pos, totalMarketValue, hasAnyPrice)
  end.

Definition calculateTotalProfitLoss (positions : list Position.t) : Totals.t :=
  let '(totalCost, totalMarketValue, hasAnyPrice) :=
    fold_left totalsStep positions (0, 0, false) in
  if (List.length positions =? 0)%nat then
    Totals.mk 0 (Some 0) (Some 0) (Some 0)
  else
    let totalProfitLoss :=
      if hasAnyPrice then Some (totalMarketValue - totalCost) else None in
    let totalProfitLossPercent :=
      if hasAnyPrice && Num.ltb 0 totalCost
      then Some ((totalMarketValue - totalCost) / totalCost * Num.lit 100)
      else None in
    Totals.mk totalCost
      (if hasAnyPrice then Some totalMarketValue else None)
      totalProfitLoss
      totalProfitLossPercent.

(** ** The same functions on the heap

    Arrays, maps and object literals are JavaScript objects: they live on
    a heap, a variable holds a reference, and an assignment to a field
    or [push], [sort] and [Map.set] change the object in place.  This
    second model keeps the references, to say which objects a call
    touches and which it creates. *)

Module Heap.

Definition loc : Type := nat.

Inductive cell : Type :=
| TradeObj (t : Trade.t)
| HoldingObj (h : Holding.t)
| InventoryObj (i : Inventory.t)
| PositionObj (p : Position.t)
| PointObj (p : AnalysisPoint.t)
| TotalsObj (t : Totals.t)
| ArrayObj (elems : list loc)
| RefMapObj (m : JsMap.t loc)
| NumMapObj (m : JsMap.t Qc).

(** The heap: the cell of reference [l] is the [l]-th cell; a new object
    goes to the end. *)
Definition t : Type := list cell.

Definition read (h : t) (l : loc) : option cell := nth_error h l.

Fixpoint update (h : t) (l : loc) (c : cell) : t :=
  match h, l with
  | [], _ => []
  | _ :: r, O => c :: r
  | x :: r, S l' => x :: update r l' c
  end.

End Heap.

(** A computation on the heap; [None] is a runtime type error (a
    reference that does not hold what the code expects). *)
Definition Run (A : Type) : Type := Heap.t -> option (A * Heap.t).

Definition ret {A : Type} (a : A) : Run A := fun h => Some (a, h).

Definition bind {A B : Type} (c : Run A) (k : A -> Run B) : Run B :=
  fun h => match c h with Some (a, h') => k a h' | None => None end.

Notation "x <- c ;; k" := (bind c (fun x => k))
  (at level 61, c at next level, right associativity).
Notation "c ;; k" := (bind c (fun _ => k))
  (at level 61, right associativity).

(** An object literal, [[]] or [new Map()]. *)
Definition alloc (c : Heap.cell) : Run Heap.loc :=
  fun h => Some (List.length h, h ++ [c]).

(** An assignment into the object behind [l]. *)
Definition store (l : Heap.loc) (c : Heap.cell) : Run unit :=
  fun h => match Heap.read h l with
           | Some _ => Some (tt, Heap.update h l c)
           | None => None
           end.

Definition load {A : Type} (proj : Heap.cell -> option A) (l : Heap.loc) : Run A :=
  fun h => match Heap.read h l with
           | Some c => match proj c with Some a => Some (a, h) | None => None end
           | None => None
           end.

Definition asTrade (c : Heap.cell) : option Trade.t :=
  match c with Heap.TradeObj t => Some t | _ => None end.
Definition asHolding (c : Heap.cell) : option Holding.t :=
  match c with Heap.HoldingObj h => Some h | _ => None end.
Definition asInventory (c : Heap.cell) : option Inventory.t :=
  match c with Heap.InventoryObj i => Some i | _ => None end.
Definition asPosition (c : Heap.cell) : option Position.t :=
  match c with Heap.PositionObj p => Some p | _ => None end.
Definition asArray (c : Heap.cell) : option (list Heap.loc) :=
  match c with Heap.ArrayObj e => Some e | _ => None end.
Definition asRefMap (c : Heap.cell) : option (JsMap.t Heap.loc) :=
  match c with Heap.RefMapObj m => Some m | _ => None end.
Definition asNumMap (c : Heap.cell) : option (JsMap.t Qc) :=
  match c with Heap.NumMapObj m => Some m | _ => None end.

(** [for (const x of l) { acc = body(acc, x) }]. *)
Fixpoint forEach {A B : Type} (l : list A) (acc : B) (body : B -> A -> Run B) : Run B :=
  match l with
  | [] => ret acc
  | x :: r => acc' <- body acc x ;; forEach r acc' body
  end.

(** The objects behind the references of an array, with the
    references. *)
Fixpoint loadAll {A : Type} (proj : Heap.cell -> option A) (ls : list Heap.loc)
  : Run (list (Heap.loc * A)) :=
  match ls with
  | [] => ret []
  | l :: r => a <- load proj l ;; rest <- loadAll proj r ;; ret ((l, a) :: rest)
  end.

(** [arr.push(o)]. *)
Definition push (arr o : Heap.loc) : Run unit :=
  elems <- load asArray arr ;;
  store arr (Heap.ArrayObj (elems ++ [o])).

Section OnTheHeap.

Variable getTime : string -> Z.

(** [arr.sort((a, b) => new Date(a.date).getTime() - new Date(b.date).getTime())]:
    the array behind [arr] is reordered in place. *)
Definition sortByDateM (arr : Heap.loc) : Run unit :=
  elems <- load asArray arr ;;
  keyed <- loadAll asTrade elems ;;
  store arr
    (Heap.ArrayObj
       (map fst (JsArray.sort (fun a b => byDate getTime (snd a) (snd b)) keyed))).

(** [const sortedTrades = [...trades].sort(...)]. *)
Definition sortedTradesM (trades : Heap.loc) : Run Heap.loc :=
  elems <- load asArray trades ;;
  sortedTrades <- alloc (Heap.ArrayObj elems) ;;
  sortByDateM sortedTrades ;;
  ret sortedTrades.

(** One iteration of the first loop of [calculatePositions]; [existing]
    is a reference, either the one the map holds or a new object, and
    the assignments go into the object behind it. *)
Definition positionStepM (positionMap : Heap.loc) (_ : unit) (tradeRef : Heap.loc)
  : Run unit :=
  trade <- load asTrade tradeRef ;;
  m <- load asRefMap positionMap ;;
  existing <-
    match JsMap.get (Trade.stockCode trade) m with
    | Some e => ret e
    | None =>
        alloc (Heap.HoldingObj
                 (Holding.mk (Trade.stockCode trade) (Trade.stockName trade) 0 0))
    end ;;
  h <- load asHolding existing ;;
  store existing (Heap.HoldingObj (applyTrade h trade)) ;;
  h' <- load asHolding existing ;;
  store existing (Heap.HoldingObj (renameHolding h' trade)) ;;
  m' <- load asRefMap positionMap ;;
  store positionMap (Heap.RefMapObj (JsMap.set (Trade.stockCode trade) existing m')).

(** One iteration of the second loop. *)
Definition collectStepM (currentPrices positions : Heap.loc) (_ : unit)
    (entry : string * Heap.loc) : Run unit :=
  data <- load asHolding (snd entry) ;;
  prices <- load asNumMap currentPrices ;;
  match toPosition prices (fst entry, data) with
  | None => ret tt
  | Some p => o <- alloc (Heap.PositionObj p) ;; push positions o
  end.

Definition calculatePositionsM (trades currentPrices : Heap.loc) : Run Heap.loc :=
  positionMap <- alloc (Heap.RefMapObj JsMap.empty) ;;
  sortedTrades <- sortedTradesM trades ;;
  sorted <- load asArray sortedTrades ;;
  forEach sorted tt (positionStepM positionMap) ;;
  positions <- alloc (Heap.ArrayObj []) ;;
  m <- load asRefMap positionMap ;;
  forEach m tt (collectStepM currentPrices positions) ;;
  ret positions.

(** The loop of [calculateTotalProfitLoss] reads the positions; the
    result is a new object literal. *)
Definition calculateTotalProfitLossM (positions : Heap.loc) : Run Heap.loc :=
  elems <- load asArray positions ;;
  ps <- loadAll asPosition elems ;;
  alloc (Heap.TotalsObj (calculateTotalProfitLoss (map snd ps))).

(** One iteration of the loop of [analyzeTradeHistory]; the loop
    carries [currentCumulativeCost]. *)
Definition analysisStepM (points stockInventory : Heap.loc)
    (currentCumulativeCost : Qc) (tradeRef : Heap.loc) : Run Qc :=
  trade <- load asTrade tradeRef ;;
  m <- load asRefMap stockInventory ;;
  inventory <-
    match JsMap.get (Trade.stockCode trade) m with
    | Some i => ret i
    | None => alloc (Heap.InventoryObj (Inventory.mk 0 0))
    end ;;
  i <- load asInventory inventory ;;
  let '(i', tradeProfit, cumulative') := tradeEffect i currentCumulativeCost trade in
  store inventory (Heap.InventoryObj i') ;;
  m' <- load asRefMap stockInventory ;;
  store stockInventory
    (Heap.RefMapObj (JsMap.set (Trade.stockCode trade) inventory m')) ;;
  o <- alloc (Heap.PointObj (pointOf trade tradeProfit cumulative')) ;;
  push points o ;;
  ret cumulative'.

Definition analyzeTradeHistoryM (trades : Heap.loc) : Run Heap.loc :=
  sortedTrades <- sortedTradesM trades ;;
  points <- alloc (Heap.ArrayObj []) ;;
  stockInventory <- alloc (Heap.RefMapObj JsMap.empty) ;;
  sorted <- load asArray sortedTrades ;;
  forEach sorted 0 (analysisStepM points stockInventory) ;;
  ret points.

End OnTheHeap.

(** * Properties *)

(** ** Numbers *)

Lemma this_zero : this 0 = 0%Q.
Proof. reflexivity. Qed.

Lemma this_add (x y : Qc) : (this (x + y) == this x + this y)%Q.
Proof. apply Qred_correct. Qed.

Lemma this_opp (x : Qc) : (this (- x) == - this x)%Q.
Proof. apply Qred_correct. Qed.

Lemma this_sub (x y : Qc) : (this (x - y) == this x - this y)%Q.
Proof. unfold Qcminus. rewrite this_add, this_opp. reflexivity. Qed.

Lemma this_mul (x y : Qc) : (this (x * y) == this x * this y)%Q.
Proof. apply Qred_correct. Qed.

Lemma this_eq (x y : Qc) : x = y -> (this x == this y)%Q.
Proof. intros ->. reflexivity. Qed.

Lemma this_neq (x y : Qc) : x <> y -> ~ (this x == this y)%Q.
Proof. intros H E. apply H, Qc_is_canon, E. Qed.

(** Linear arithmetic on [Qc], through [Q]. *)
Ltac qc_lra :=
  repeat match goal with
         | H : @eq Qc _ _ |- _ => apply this_eq in H
         | H : ~ @eq Qc _ _ |- _ => apply this_neq in H
         | H : @eq Qc _ _ -> False |- _ => apply this_neq in H
         end;
  try apply Qc_is_canon;
  unfold Qclt, Qcle in *;
  repeat match goal with
         | H : context [this (_ + _)] |- _ => rewrite this_add in H
         | H : context [this (_ - _)] |- _ => rewrite this_sub in H
         | H : context [this (- _)] |- _ => rewrite this_opp in H
         | H : context [this (_ * _)] |- _ => rewrite this_mul in H
         | H : context [this 0] |- _ => rewrite this_zero in H
         | |- context [this (_ + _)] => rewrite this_add
         | |- context [this (_ - _)] => rewrite this_sub
         | |- context [this (- _)] => rewrite this_opp
         | |- context [this (_ * _)] => rewrite this_mul
         | |- context [this 0] => rewrite this_zero
         end;
  lra.

Lemma ltb_lt (x y : Qc) : Num.ltb x y = true <-> x < y.
Proof.
  unfold Num.ltb. rewrite Qclt_alt.
  destruct (x ?= y); split; congruence.
Qed.

Lemma ltb_ge (x y : Qc) : Num.ltb x y = false <-> y <= x.
Proof.
  rewrite <- Bool.not_true_iff_false, ltb_lt. split.
  - apply Qcnot_lt_le.
  - apply Qcle_not_lt.
Qed.

Lemma leb_le (x y : Qc) : Num.leb x y = true <-> x <= y.
Proof.
  unfold Num.leb. rewrite Qcle_alt.
  destruct (x ?= y); split; congruence.
Qed.

Lemma leb_gt (x y : Qc) : Num.leb x y = false <-> y < x.
Proof.
  rewrite <- Bool.not_true_iff_false, leb_le. split.
  - apply Qcnot_le_lt.
  - apply Qclt_not_le.
Qed.

(** Case analysis on every comparison of the goal. *)
Ltac num_cases :=
  repeat match goal with
         | |- context [Num.ltb ?a ?b] =>
             let E := fresh "E" in
             destruct (Num.ltb a b) eqn:E;
             [apply ltb_lt in E | apply ltb_ge in E]
         | |- context [Num.leb ?a ?b] =>
             let E := fresh "E" in
             destruct (Num.leb a b) eqn:E;
             [apply leb_le in E | apply leb_gt in E]
         end.

Lemma min_le_r (x y : Qc) : Num.min x y <= y.
Proof.
  unfold Num.min. destruct (Num.leb x y) eqn:E.
  - now apply leb_le.
  - apply Qcle_refl.
Qed.



(** Equality of two closed numbers, by evaluation. *)
Ltac qc_eval := apply Qc_is_canon; vm_compute; reflexivity.

(** ** Maps *)

Module JsMapFacts.

Section WithValue.
Context {V : Type}.
Implicit Types (m : JsMap.t V) (k : string) (v : V).

Lemma get_set_same k v m : JsMap.get k (JsMap.set k v m) = Some v.
Proof.
  induction m as [|[k' v'] m IH]; simpl.
  - now rewrite String.eqb_refl.
  - destruct (String.eqb k k') eqn:E; simpl; rewrite ?E, ?String.eqb_refl; auto.
Qed.


Lemma set_set k v v' m : JsMap.set k v (JsMap.set k v' m) = JsMap.set k v m.
Proof.
  induction m as [|[k0 v0] m IH]; simpl.
  - now rewrite String.eqb_refl.
  - destruct (String.eqb k k0) eqn:E; simpl; rewrite ?E, ?String.eqb_refl; congruence.
Qed.

Lemma Forall_set (P : string * V -> Prop) k v m :
  Forall P m -> P (k, v) -> Forall P (JsMap.set k v m).
Proof.
  intros Hm Hv. induction Hm as [|[k0 v0] m H0 Hm IH]; simpl.
  - constructor; auto.
  - destruct (String.eqb k k0); constructor; auto.
Qed.

Lemma get_Forall (P : string * V -> Prop) k v m :
  Forall P m -> JsMap.get k m = Some v -> exists k', P (k', v).
Proof.
  induction 1 as [|[k0 v0] m H0 Hm IH]; simpl; [discriminate|].
  destruct (String.eqb k k0).
  - intros [= <-]. now exists k0.
  - exact IH.
Qed.

End WithValue.

(** The same map with every value seen through [g]. *)
Definition mapValues {V W : Type} (g : V -> W) (m : JsMap.t V) : JsMap.t W :=
  map (fun e => (fst e, g (snd e))) m.

Lemma get_mapValues {V W : Type} (g : V -> W) (k : string) (m : JsMap.t V) :
  JsMap.get k (mapValues g m) = option_map g (JsMap.get k m).
Proof.
  induction m as [|[k0 v0] m IH]; simpl; [reflexivity|].
  destruct (String.eqb k k0); auto.
Qed.

Lemma set_mapValues {V W : Type} (g : V -> W) (k : string) (v : V) (m : JsMap.t V) :
  mapValues g (JsMap.set k v m) = JsMap.set k (g v) (mapValues g m).
Proof.
  induction m as [|[k0 v0] m IH]; simpl; [reflexivity|].
  destruct (String.eqb k k0); simpl; congruence.
Qed.

End JsMapFacts.

(** ** Arrays *)

Module JsArrayFacts.

Section WithElement.
Context {A : Type}.
Variable cmp : A -> A -> Z.

Lemma insert_perm (x : A) (l : list A) :
  Permutation (JsArray.insert cmp x l) (x :: l).
Proof.
  induction l as [|y l IH]; simpl; [reflexivity|].
  destruct (cmp x y <=? 0)%Z; [reflexivity|].
  rewrite IH. apply perm_swap.
Qed.

Lemma sort_perm (l : list A) : Permutation (JsArray.sort cmp l) l.
Proof.
  induction l as [|x l IH]; simpl; [reflexivity|].
  rewrite insert_perm. now apply perm_skip.
Qed.

(** Inserting in front of two neighbours that compare alike with
    everything keeps them neighbours, whichever comes first. *)
Lemma insert_neighbours (x a b : A) (s1 s2 : list A) :
  cmp x a = cmp x b ->
  exists u1 u2,
    JsArray.insert cmp x (s1 ++ a :: b :: s2) = u1 ++ a :: b :: u2
    /\ JsArray.insert cmp x (s1 ++ b :: a :: s2) = u1 ++ b :: a :: u2.
Proof.
  intros Hab. induction s1 as [|y s1 IH]; simpl.
  - rewrite Hab. destruct (cmp x b <=? 0)%Z eqn:E.
    + exists [x], s2. auto.
    + exists [], (JsArray.insert cmp x s2). auto.
  - destruct (cmp x y <=? 0)%Z.
    + exists (x :: y :: s1), s2. auto.
    + destruct IH as [u1 [u2 [H1 H2]]]. rewrite H1, H2.
      exists (y :: u1), u2. auto.
Qed.

(** Two elements that the comparator cannot tell apart. *)
Definition alike (a b : A) : Prop :=
  cmp a b = 0%Z /\ cmp b a = 0%Z
  /\ (forall y, cmp a y = cmp b y) /\ (forall x, cmp x a = cmp x b).

Lemma insert_pair (a b : A) (s : list A) :
  alike a b ->
  exists u1 u2,
    JsArray.insert cmp a (JsArray.insert cmp b s) = u1 ++ a :: b :: u2
    /\ JsArray.insert cmp b (JsArray.insert cmp a s) = u1 ++ b :: a :: u2.
Proof.
  intros [Hab [Hba [Hy _]]]. induction s as [|y s IH]; simpl.
  - rewrite Hab, Hba. simpl. exists [], []. auto.
  - rewrite Hy. destruct (cmp b y <=? 0)%Z eqn:E; simpl.
    + rewrite Hab, Hba. simpl. exists [], (y :: s). auto.
    + rewrite Hy, E. destruct IH as [u1 [u2 [H1 H2]]]. rewrite H1, H2.
      exists (y :: u1), u2. auto.
Qed.

(** Swapping two neighbours of the input that compare alike swaps
    them in the sorted array and moves nothing else. *)
Lemma sort_swap (a b : A) (l1 l2 : list A) :
  alike a b ->
  exists u1 u2,
    JsArray.sort cmp (l1 ++ a :: b :: l2) = u1 ++ a :: b :: u2
    /\ JsArray.sort cmp (l1 ++ b :: a :: l2) = u1 ++ b :: a :: u2.
Proof.
  intros Hal. induction l1 as [|x l1 IH]; simpl.
  - now apply insert_pair.
  - destruct IH as [u1 [u2 [H1 H2]]]. rewrite H1, H2.
    apply insert_neighbours. destruct Hal as [_ [_ [_ Hx]]]. apply Hx.
Qed.

End WithElement.

End JsArrayFacts.

(** Sums of numbers. *)
Definition sumQ (l : list Qc) : Qc := fold_right Qcplus 0 l.

Lemma sumQ_cons (x : Qc) (l : list Qc) : sumQ (x :: l) = x + sumQ l.
Proof. reflexivity. Qed.


Lemma sumQ_perm (l1 l2 : list Qc) : Permutation l1 l2 -> sumQ l1 = sumQ l2.
Proof.
  induction 1; simpl; try congruence. ring.
Qed.

(** ** calculateTotalProfitLoss *)

Definition sumCost (positions : list Position.t) : Qc :=
  fold_right (fun p s => Position.totalCost p + s) 0 positions.

Lemma totals_fold_no_price (positions : list Position.t) :
  (forall p, In p positions -> Position.marketValue p = None) ->
  forall c m h,
    fold_left totalsStep positions (c, m, h) = (c + sumCost positions, m, h).
Proof.
  induction positions as [|p ps IH]; intros Hnone c m h; simpl.
  - f_equal. f_equal. ring.
  - rewrite (Hnone p (or_introl eq_refl)).
    rewrite IH by (intros q Hq; apply Hnone; now right).
    f_equal. f_equal. ring.
Qed.

Lemma calculatePositions_nil (getTime : string -> Z) (currentPrices : JsMap.t Qc) :
  calculatePositions getTime [] currentPrices = [].
Proof. reflexivity. Qed.

(** C1, as stated, fails on the empty position list: the totals of the
    positions of an empty trade sequence are all the number 0, none of
    them is unknown. *)
Lemma C1_empty_totals_are_zero :
  let r := calculateTotalProfitLoss (calculatePositions (fun _ => 0%Z) [] []) in
  r = Totals.mk 0 (Some 0) (Some 0) (Some 0)
  /\ ~ (Totals.totalMarketValue r = None
        /\ Totals.totalProfitLoss r = None
        /\ Totals.totalProfitLossPercent r = None).
Proof.
  split; [reflexivity|]. intros [H _]. discriminate H.
Qed.

(** C1 (amended): for every non-empty position list in which no position
    has a known market value, [totalMarketValue], [totalProfitLoss] and
    [totalProfitLossPercent] are all unknown; for the empty position
    list, which is what an empty trade sequence produces, the early
    return makes all four totals the number 0. *)
Theorem C1_totals_without_prices (positions : list Position.t) :
  (forall p, In p positions -> Position.marketValue p = None) ->
  let r := calculateTotalProfitLoss positions in
  (positions <> [] ->
     Totals.totalMarketValue r = None
     /\ Totals.totalProfitLoss r = None
     /\ Totals.totalProfitLossPercent r = None)
  /\ (positions = [] -> r = Totals.mk 0 (Some 0) (Some 0) (Some 0))
  /\ (forall getTime currentPrices,
        calculateTotalProfitLoss (calculatePositions getTime [] currentPrices)
        = Totals.mk 0 (Some 0) (Some 0) (Some 0)).
Proof.
  intros Hnone r. split; [|split].
  - intros Hne. subst r. unfold calculateTotalProfitLoss.
    rewrite (totals_fold_no_price positions Hnone).
    destruct positions as [|p ps]; [congruence|]. simpl. auto.
  - intros ->. reflexivity.
  - intros getTime currentPrices. reflexivity.
Qed.

Definition samplePosition (cost : Q) (mv : option Q) : Position.t :=
  Position.mk "600519" "Moutai" (Num.lit 10) (Num.lit cost) (Num.lit (cost / 10))
    (option_map (fun v => Num.lit (v / 10)) mv) (option_map Num.lit mv) None None.

Lemma C1_totals_without_prices_witness :
  let r := calculateTotalProfitLoss [samplePosition 500 None] in
  Totals.totalMarketValue r = None
  /\ Totals.totalProfitLoss r = None
  /\ Totals.totalProfitLossPercent r = None.
Proof.
  refine (proj1 (C1_totals_without_prices [samplePosition 500 None] _) _).
  - intros p [<-|[]]. reflexivity.
  - discriminate.
Defined.

(** C2, as stated, fails: with costs 800 (market value 1000) and 500
    (no price) the profit is 1000 - 1300 = -300, not 200, because
    [totalCost] also counts the position without a price. *)
Lemma C2_total_profit_is_not_200 :
  let r := calculateTotalProfitLoss
             [samplePosition 800 (Some 1000%Q); samplePosition 500 None] in
  Totals.totalCost r = Num.lit 1300
  /\ Totals.totalMarketValue r = Some (Num.lit 1000)
  /\ Totals.totalProfitLoss r <> Some (Num.lit 200).
Proof.
  unfold calculateTotalProfitLoss; simpl. split; [|split].
  - qc_eval.
  - apply f_equal. qc_eval.
  - intros H. injection H as H. discriminate H.
Qed.

(** C2 (amended): for one position with market value 1000 and cost 800
    and one position without a price and with cost 500, the totals are
    [totalCost = 1300], [totalMarketValue = 1000] (the known market
    values only) and [totalProfitLoss = totalMarketValue - totalCost =
    -300]; in either order of the two positions. *)
Theorem C2_totals_of_known_and_unknown (p1 p2 : Position.t) :
  Position.totalCost p1 = Num.lit 800 ->
  Position.marketValue p1 = Some (Num.lit 1000) ->
  Position.totalCost p2 = Num.lit 500 ->
  Position.marketValue p2 = None ->
  forall positions, positions = [p1; p2] \/ positions = [p2; p1] ->
  let r := calculateTotalProfitLoss positions in
  Totals.totalCost r = Num.lit 1300
  /\ Totals.totalMarketValue r = Some (Num.lit 1000)
  /\ Totals.totalProfitLoss r = Some (Num.lit (-300)).
Proof.
  destruct p1, p2; simpl. intros -> -> -> ->.
  intros positions [-> | ->]; unfold calculateTotalProfitLoss; simpl;
    (split; [|split]); try apply f_equal; qc_eval.
Qed.

Lemma C2_totals_of_known_and_unknown_witness :
  let r := calculateTotalProfitLoss
             [samplePosition 800 (Some 1000%Q); samplePosition 500 None] in
  Totals.totalCost r = Num.lit 1300
  /\ Totals.totalMarketValue r = Some (Num.lit 1000)
  /\ Totals.totalProfitLoss r = Some (Num.lit (-300)).
Proof.
  apply (C2_totals_of_known_and_unknown
           (samplePosition 800 (Some 1000%Q)) (samplePosition 500 None));
    try reflexivity.
  now left.
Defined.

(** ** calculatePositions *)

Section Properties.

Variable getTime : string -> Z.

Lemma sort_two (a b : Trade.t) :
  (getTime (Trade.date a) <= getTime (Trade.date b))%Z ->
  sortedTrades getTime [a; b] = [a; b].
Proof.
  intros H. unfold sortedTrades. simpl. unfold byDate.
  destruct (Z.leb_spec (getTime (Trade.date a) - getTime (Trade.date b)) 0);
    [reflexivity | lia].
Qed.

(** The model of [sort] sorts: the times of the result ascend. *)
Lemma insert_sorted (x : Trade.t) (s : list Trade.t) :
  Sorted (fun a b => (getTime (Trade.date a) <= getTime (Trade.date b))%Z) s ->
  Sorted (fun a b => (getTime (Trade.date a) <= getTime (Trade.date b))%Z)
    (JsArray.insert (byDate getTime) x s).
Proof.
  induction 1 as [|y s Hs IH Hhd]; simpl.
  - repeat constructor.
  - unfold byDate at 1.
    destruct (Z.leb_spec (getTime (Trade.date x) - getTime (Trade.date y)) 0).
    + constructor; [now constructor|]. constructor. lia.
    + constructor; [exact IH|].
      destruct s as [|z s]; simpl.
      * constructor. lia.
      * destruct (byDate getTime x z <=? 0)%Z; constructor; [lia|].
        now inversion Hhd.
Qed.

Lemma sortedTrades_sorted (trades : list Trade.t) :
  Sorted (fun a b => (getTime (Trade.date a) <= getTime (Trade.date b))%Z)
    (sortedTrades getTime trades).
Proof.
  unfold sortedTrades. induction trades as [|x l IH]; simpl.
  - constructor.
  - now apply insert_sorted.
Qed.

(** The model of [sort] is stable: the trades of one time keep the
    order of the input. *)
Lemma sortedTrades_stable (trades : list Trade.t) (time : Z) :
  filter (fun t => (getTime (Trade.date t) =? time)%Z) (sortedTrades getTime trades)
  = filter (fun t => (getTime (Trade.date t) =? time)%Z) trades.
Proof.
  unfold sortedTrades. induction trades as [|x l IH]; simpl; [reflexivity|].
  rewrite <- IH. generalize (JsArray.sort (byDate getTime) l) as s. clear IH.
  induction s as [|y s IHs]; simpl; [reflexivity|].
  unfold byDate at 1.
  destruct (Z.leb_spec (getTime (Trade.date x) - getTime (Trade.date y)) 0);
    simpl; [reflexivity|].
  rewrite IHs.
  destruct (Z.eqb_spec (getTime (Trade.date x)) time);
    destruct (Z.eqb_spec (getTime (Trade.date y)) time); try reflexivity.
  lia.
Qed.

Lemma sortedTrades_perm (trades : list Trade.t) :
  Permutation (sortedTrades getTime trades) trades.
Proof. apply JsArrayFacts.sort_perm. Qed.

(** In exact arithmetic: a buy of 100 at 10 with commission 5, then a
    sell of 50 at 12 with commission 2, both of code "X": exactly one
    position, with [totalQuantity = 50], [totalCost = 502.5],
    [averageCost = 10.05].  The sell's commission does not enter the
    cost that remains.  In binary64 the two figures are rounded (last
    part). *)
Theorem exact_buy_100_sell_50
    (id1 id2 name1 name2 d1 d2 : string) (tags1 tags2 : option (list string))
    (currentPrices : JsMap.t Qc) :
  (getTime d1 <= getTime d2)%Z ->
  exists p,
    calculatePositions getTime
      [ Trade.mk id1 "X" name1 buy (Num.lit 10) (Num.lit 100) d1 (Some (Num.lit 5)) tags1;
        Trade.mk id2 "X" name2 sell (Num.lit 12) (Num.lit 50) d2 (Some (Num.lit 2)) tags2 ]
      currentPrices = [p]
    /\ Position.stockCode p = "X"
    /\ Position.totalQuantity p = Num.lit 50
    /\ Position.totalCost p = Num.lit 502.5
    /\ Position.averageCost p = Num.lit 10.05.
Proof.
  intros Hd. unfold calculatePositions, positionMap.
  rewrite sort_two by exact Hd.
  cbn [fold_left]. unfold positionStep, existingHolding. simpl.
  destruct (JsMap.get "X" currentPrices) as [cp|];
    eexists; (split; [reflexivity|]); simpl; repeat split; qc_eval.
Qed.

Lemma toPosition_some (currentPrices : JsMap.t Qc) (entry : string * Holding.t)
    (p : Position.t) :
  toPosition currentPrices entry = Some p ->
  0 < Holding.totalQuantity (snd entry)
  /\ Position.stockCode p = fst entry
  /\ Position.totalQuantity p = Holding.totalQuantity (snd entry)
  /\ Position.totalCost p = Holding.totalCost (snd entry)
  /\ Position.averageCost p
     = Holding.totalCost (snd entry) / Holding.totalQuantity (snd entry).
Proof.
  destruct entry as [code data]. unfold toPosition. simpl.
  destruct (Num.leb (Holding.totalQuantity data) 0) eqn:Hq; [discriminate|].
  apply leb_gt in Hq.
  rewrite (proj2 (ltb_lt _ _) Hq).
  destruct (JsMap.get code currentPrices); intros [= <-]; simpl; auto.
Qed.

Lemma in_collectPositions (currentPrices : JsMap.t Qc) (m : JsMap.t Holding.t)
    (p : Position.t) :
  In p (collectPositions currentPrices m) ->
  exists entry, In entry m /\ toPosition currentPrices entry = Some p.
Proof.
  induction m as [|e m IH]; simpl; [contradiction|].
  destruct (toPosition currentPrices e) as [q|] eqn:He.
  - intros [<-|Hin].
    + exists e. auto.
    + destruct (IH Hin) as [e' [? ?]]. exists e'. auto.
  - intros Hin. destruct (IH Hin) as [e' [? ?]]. exists e'. auto.
Qed.

(** What a sell does to the holding it is applied to. *)
Lemma applyTrade_sell (existing : Holding.t) (trade : Trade.t) :
  Trade.type trade = sell ->
  let after := applyTrade existing trade in
  let held := Holding.totalQuantity existing in
  let soldQuantity := Num.min (Trade.quantity trade) held in
  (0 < held ->
     soldQuantity <= held
     /\ Holding.totalQuantity after = held - soldQuantity
     /\ 0 <= Holding.totalQuantity after)
  /\ (held <= 0 -> after = existing).
Proof.
  intros Hty. unfold applyTrade. rewrite Hty. simpl. split.
  - intros Hpos. rewrite (proj2 (ltb_lt _ _) Hpos). simpl.
    pose proof (min_le_r (Trade.quantity trade) (Holding.totalQuantity existing)) as Hm.
    repeat split; [exact Hm|]. qc_lra.
  - intros Hle. now rewrite (proj2 (ltb_ge _ _) Hle).
Qed.

(** C4: every position of [calculatePositions] has
    [totalQuantity > 0] (a closed holding is skipped), and a sell never
    takes a holding's quantity below zero: the sold quantity is
    [min(trade.quantity, held)], at most what is held, and a sell on a
    holding that holds nothing leaves its quantity and cost as they
    are. *)
Theorem C4_quantity_positive (trades : list Trade.t) (currentPrices : JsMap.t Qc) :
  (forall p, In p (calculatePositions getTime trades currentPrices) ->
             0 < Position.totalQuantity p)
  /\ (forall (m : JsMap.t Holding.t) (trade : Trade.t),
        Trade.type trade = sell ->
        let before := existingHolding m trade in
        let held := Holding.totalQuantity before in
        exists after,
          JsMap.get (Trade.stockCode trade) (positionStep m trade) = Some after
          /\ (0 < held ->
                Holding.totalQuantity after
                = held - Num.min (Trade.quantity trade) held
                /\ Num.min (Trade.quantity trade) held <= held
                /\ 0 <= Holding.totalQuantity after)
          /\ (held <= 0 ->
                Holding.totalQuantity after = held
                /\ Holding.totalCost after = Holding.totalCost before)).
Proof.
  split.
  - intros p Hin. unfold calculatePositions in Hin.
    apply in_collectPositions in Hin. destruct Hin as [entry [_ Hp]].
    apply toPosition_some in Hp. destruct Hp as [Hq [_ [-> _]]]. exact Hq.
  - intros m trade Hty before held.
    eexists. split; [apply JsMapFacts.get_set_same|].
    destruct (applyTrade_sell before trade Hty) as [Hpos Hzero].
    split.
    + intros H. destruct (Hpos H) as [H1 [H2 H3]]. simpl. auto.
    + intros H. simpl. fold before. rewrite (Hzero H). auto.
Qed.

(** A buy of code [c], applied to a map that holds [c] alone. *)
Lemma positionStep_buy_single (c : string) (h : Holding.t) (t : Trade.t) :
  Trade.type t = buy ->
  Trade.stockCode t = c ->
  exists h',
    positionStep [(c, h)] t = [(c, h')]
    /\ Holding.totalQuantity h' = Holding.totalQuantity h + Trade.quantity t
    /\ Holding.totalCost h'
       = Holding.totalCost h
         + (Trade.price t * Trade.quantity t + Num.orZero (Trade.commission t)).
Proof.
  intros Hty Hc. unfold positionStep, existingHolding, applyTrade.
  rewrite Hty, Hc. simpl. rewrite String.eqb_refl. simpl.
  eexists. split; [reflexivity|]. simpl. auto.
Qed.

Lemma buys_fold (c : string) (l : list Trade.t) :
  Forall (fun t => Trade.type t = buy /\ Trade.stockCode t = c) l ->
  forall h,
  exists h',
    fold_left positionStep l [(c, h)] = [(c, h')]
    /\ Holding.totalQuantity h'
       = Holding.totalQuantity h + sumQ (map Trade.quantity l)
    /\ Holding.totalCost h'
       = Holding.totalCost h
         + (sumQ (map (fun t => Trade.price t * Trade.quantity t) l)
            + sumQ (map (fun t => Num.orZero (Trade.commission t)) l)).
Proof.
  induction 1 as [|t l [Hty Hc] _ IH]; intros h; simpl.
  - exists h. repeat split; ring.
  - destruct (positionStep_buy_single c h t Hty Hc) as [h1 [-> [Hq1 Hc1]]].
    destruct (IH h1) as [h' [-> [Hq Hcost]]].
    exists h'. split; [reflexivity|]. rewrite Hq, Hcost, Hq1, Hc1. split; ring.
Qed.

Lemma sumQ_positive (l : list Qc) :
  l <> [] -> Forall (fun x => 0 < x) l -> 0 < sumQ l.
Proof.
  intros Hne H. induction H as [|x l Hx Hl IH]; [congruence|]. simpl.
  destruct l as [|y l].
  - simpl. qc_lra.
  - assert (0 < sumQ (y :: l)) by (apply IH; discriminate). qc_lra.
Qed.

(** In exact arithmetic: for a non-empty sequence of buys of one
    instrument with positive quantities, [calculatePositions] returns
    one position, and its [averageCost] is the sum of [price*quantity]
    plus the sum of the commissions (a missing commission counts 0),
    divided by the sum of the quantities.  In binary64 the running
    totals of the loop round, and the quotient can differ from the
    formula's in the last place (last part). *)
Theorem exact_buy_only_average (trades : list Trade.t) (c : string)
    (currentPrices : JsMap.t Qc) :
  trades <> [] ->
  (forall t, In t trades ->
     Trade.type t = buy /\ Trade.stockCode t = c
     /\ 0 < Trade.price t /\ 0 < Trade.quantity t) ->
  exists p,
    calculatePositions getTime trades currentPrices = [p]
    /\ Position.stockCode p = c
    /\ Position.totalQuantity p = sumQ (map Trade.quantity trades)
    /\ Position.averageCost p
       = (sumQ (map (fun t => Trade.price t * Trade.quantity t) trades)
          + sumQ (map (fun t => Num.orZero (Trade.commission t)) trades))
         / sumQ (map Trade.quantity trades).
Proof.
  intros Hne Hall.
  pose proof (sortedTrades_perm trades) as Hperm.
  assert (Hq : 0 < sumQ (map Trade.quantity trades)).
  { apply sumQ_positive.
    - destruct trades; [congruence | discriminate].
    - apply Forall_map, Forall_forall. intros t Ht. now apply Hall. }
  assert (Hbuys : Forall (fun t => Trade.type t = buy /\ Trade.stockCode t = c)
                    (sortedTrades getTime trades)).
  { apply Forall_forall. intros t Ht.
    destruct (Hall t (Permutation_in _ Hperm Ht)) as [? [? _]]. auto. }
  rewrite <- (sumQ_perm _ _ (Permutation_map Trade.quantity Hperm)) in *.
  rewrite <- (sumQ_perm _ _ (Permutation_map
                (fun t => Trade.price t * Trade.quantity t) Hperm)).
  rewrite <- (sumQ_perm _ _ (Permutation_map
                (fun t => Num.orZero (Trade.commission t)) Hperm)).
  unfold calculatePositions, positionMap.
  destruct (sortedTrades getTime trades) as [|t l] eqn:Hs.
  { apply Permutation_nil in Hperm. congruence. }
  inversion Hbuys as [|? ? [Hty Hc] Hl]; subst.
  simpl fold_left.
  assert (H0 : exists h0,
             positionStep JsMap.empty t = [(Trade.stockCode t, h0)]
             /\ Holding.totalQuantity h0 = Trade.quantity t
             /\ Holding.totalCost h0
                = Trade.price t * Trade.quantity t
                  + Num.orZero (Trade.commission t)).
  { unfold positionStep, existingHolding, applyTrade. rewrite Hty. simpl.
    eexists. split; [reflexivity|]. simpl. split; ring. }
  destruct H0 as [h0 [-> [Hq0 Hc0]]].
  destruct (buys_fold (Trade.stockCode t) l Hl h0) as [h' [-> [Hq' Hc']]].
  simpl in Hq. cbn [collectPositions map]. rewrite !sumQ_cons.
  assert (Hpos : 0 < Holding.totalQuantity h') by (rewrite Hq', Hq0; exact Hq).
  destruct (toPosition currentPrices (Trade.stockCode t, h')) as [p|] eqn:Hp.
  - exists p. apply toPosition_some in Hp. simpl in Hp.
    destruct Hp as [_ [Hcode [Hqp [_ Havg]]]].
    split; [reflexivity|]. split; [exact Hcode|].
    split; [rewrite Hqp, Hq', Hq0; reflexivity|].
    rewrite Havg, Hq', Hc', Hq0, Hc0. f_equal. ring.
  - exfalso. unfold toPosition in Hp.
    rewrite (proj2 (leb_gt _ _) Hpos) in Hp.
    destruct (JsMap.get _ _); discriminate.
Qed.

(** ** The books both loops keep

    Per instrument, [calculatePositions] and [analyzeTradeHistory] keep
    the same two figures, a quantity and a cost, and update them the
    same way. *)

Definition Figures : Type := (Qc * Qc)%type.

Definition holdingFigures (h : Holding.t) : Figures :=
  (Holding.totalQuantity h, Holding.totalCost h).

Definition inventoryFigures (i : Inventory.t) : Figures :=
  (Inventory.quantity i, Inventory.totalCost i).

Definition applyFigures (f : Figures) (t : Trade.t) : Figures :=
  match Trade.type t with
  | buy =>
      (fst f + Trade.quantity t,
       snd f + (Trade.price t * Trade.quantity t + Num.orZero (Trade.commission t)))
  | sell =>
      if Num.ltb 0 (fst f)
      then (fst f - Num.min (Trade.quantity t) (fst f),
            snd f - snd f / fst f * Num.min (Trade.quantity t) (fst f))
      else f
  end.

Definition figuresOf (m : JsMap.t Figures) (t : Trade.t) : Figures :=
  match JsMap.get (Trade.stockCode t) m with
  | Some f => f
  | None => (0, 0)
  end.

Definition stepFigures (m : JsMap.t Figures) (t : Trade.t) : JsMap.t Figures :=
  JsMap.set (Trade.stockCode t) (applyFigures (figuresOf m t) t) m.

Lemma existingHolding_figures (m : JsMap.t Holding.t) (t : Trade.t) :
  holdingFigures (existingHolding m t)
  = figuresOf (JsMapFacts.mapValues holdingFigures m) t.
Proof.
  unfold existingHolding, figuresOf. rewrite JsMapFacts.get_mapValues.
  destruct (JsMap.get _ m); reflexivity.
Qed.

Lemma applyTrade_figures (h : Holding.t) (t : Trade.t) :
  holdingFigures (renameHolding (applyTrade h t) t)
  = applyFigures (holdingFigures h) t.
Proof.
  unfold applyTrade, applyFigures. destruct (Trade.type t); simpl; [reflexivity|].
  destruct (Num.ltb 0 (Holding.totalQuantity h)); reflexivity.
Qed.

Lemma positionStep_figures (m : JsMap.t Holding.t) (t : Trade.t) :
  JsMapFacts.mapValues holdingFigures (positionStep m t)
  = stepFigures (JsMapFacts.mapValues holdingFigures m) t.
Proof.
  unfold positionStep, stepFigures.
  now rewrite JsMapFacts.set_mapValues, applyTrade_figures, existingHolding_figures.
Qed.

Lemma inventoryOf_figures (m : JsMap.t Inventory.t) (t : Trade.t) :
  inventoryFigures (inventoryOf m t)
  = figuresOf (JsMapFacts.mapValues inventoryFigures m) t.
Proof.
  unfold inventoryOf, figuresOf. rewrite JsMapFacts.get_mapValues.
  destruct (JsMap.get _ m); reflexivity.
Qed.

(** The step of [analyzeTradeHistory] updates the inventory as
    [stepFigures] does and moves the cumulative cost by the change of
    the inventory's cost. *)
Lemma analysisStep_figures (st : AnalysisState) (t : Trade.t) :
  let books := JsMapFacts.mapValues inventoryFigures (stockInventory st) in
  JsMapFacts.mapValues inventoryFigures (stockInventory (analysisStep st t))
  = stepFigures books t
  /\ currentCumulativeCost (analysisStep st t)
     = currentCumulativeCost st
       + (snd (applyFigures (figuresOf books t) t) - snd (figuresOf books t)).
Proof.
  intros books. subst books. rewrite <- inventoryOf_figures.
  unfold analysisStep, tradeEffect, stepFigures, applyFigures.
  rewrite <- inventoryOf_figures.
  destruct (Trade.type t); simpl.
  - rewrite JsMapFacts.set_mapValues. split; [reflexivity|]. ring.
  - destruct (Num.ltb 0 (Inventory.quantity (inventoryOf (stockInventory st) t)));
      simpl; rewrite JsMapFacts.set_mapValues; (split; [reflexivity|]); ring.
Qed.

Lemma positionMap_figures (l : list Trade.t) (m : JsMap.t Holding.t) :
  JsMapFacts.mapValues holdingFigures (fold_left positionStep l m)
  = fold_left stepFigures l (JsMapFacts.mapValues holdingFigures m).
Proof.
  revert m. induction l as [|t l IH]; intros m; simpl; [reflexivity|].
  now rewrite IH, positionStep_figures.
Qed.

Definition sumCosts (m : JsMap.t Figures) : Qc :=
  sumQ (map (fun e => snd (snd e)) m).

Lemma sumCosts_set (k : string) (f : Figures) (m : JsMap.t Figures) :
  sumCosts (JsMap.set k f m)
  = sumCosts m
    + (snd f - snd (match JsMap.get k m with Some g => g | None => (0, 0) end)).
Proof.
  unfold sumCosts. induction m as [|[k0 f0] m IH]; simpl.
  - ring.
  - destruct (String.eqb k k0); simpl; [ring|]. rewrite IH. ring.
Qed.

(** The cumulative cost is the sum of the costs in the inventory, and
    the inventory holds the figures [stepFigures] computes. *)
Lemma analysis_fold_figures (l : list Trade.t) (st : AnalysisState) :
  currentCumulativeCost st
  = sumCosts (JsMapFacts.mapValues inventoryFigures (stockInventory st)) ->
  let st' := fold_left analysisStep l st in
  JsMapFacts.mapValues inventoryFigures (stockInventory st')
  = fold_left stepFigures l (JsMapFacts.mapValues inventoryFigures (stockInventory st))
  /\ currentCumulativeCost st'
     = sumCosts (JsMapFacts.mapValues inventoryFigures (stockInventory st')).
Proof.
  revert st. induction l as [|t l IH]; intros st Hst; simpl; [auto|].
  destruct (analysisStep_figures st t) as [Hbooks Hcum].
  destruct (IH (analysisStep st t)) as [H1 H2].
  - rewrite Hcum, Hbooks, Hst. unfold stepFigures.
    rewrite sumCosts_set. reflexivity.
  - split; [|exact H2]. rewrite H1, Hbooks. reflexivity.
Qed.

(** A holding that holds nothing costs nothing. *)
Definition settled (f : Figures) : Prop :=
  0 <= fst f /\ (fst f <= 0 -> snd f = 0).

Lemma applyFigures_settled (f : Figures) (t : Trade.t) :
  settled f ->
  (Trade.type t = buy -> 0 < Trade.quantity t) ->
  settled (applyFigures f t).
Proof.
  destruct f as [q c]. unfold settled, applyFigures. simpl.
  intros [Hq Hc] Hbuy. destruct (Trade.type t).
  - specialize (Hbuy eq_refl). simpl. split; [qc_lra|].
    intros H. exfalso. qc_lra.
  - destruct (Num.ltb 0 q) eqn:Hpos; simpl; [|auto].
    apply ltb_lt in Hpos.
    pose proof (min_le_r (Trade.quantity t) q) as Hm.
    split; [qc_lra|]. intros Hz.
    assert (Hmq : Num.min (Trade.quantity t) q = q) by qc_lra.
    rewrite Hmq. field. intros E. qc_lra.
Qed.

Lemma stepFigures_settled (l : list Trade.t) (m : JsMap.t Figures) :
  Forall (fun e => settled (snd e)) m ->
  (forall t, In t l -> Trade.type t = buy -> 0 < Trade.quantity t) ->
  Forall (fun e => settled (snd e)) (fold_left stepFigures l m).
Proof.
  revert m. induction l as [|t l IH]; intros m Hm Hl; simpl; [exact Hm|].
  apply IH; [|intros t' Ht'; apply Hl; now right].
  apply JsMapFacts.Forall_set; [exact Hm|]. simpl.
  apply applyFigures_settled; [|apply Hl; now left].
  unfold figuresOf. destruct (JsMap.get _ m) as [f|] eqn:Hg.
  - destruct (JsMapFacts.get_Forall _ _ _ _ Hm Hg) as [k' H]. exact H.
  - split; simpl; [apply Qcle_refl | reflexivity].
Qed.

Lemma collectPositions_cost (currentPrices : JsMap.t Qc) (m : JsMap.t Holding.t) :
  Forall (fun e => settled (snd e)) (JsMapFacts.mapValues holdingFigures m) ->
  sumCost (collectPositions currentPrices m)
  = sumCosts (JsMapFacts.mapValues holdingFigures m).
Proof.
  unfold sumCosts. induction m as [|[k h] m IH]; [reflexivity|].
  cbn [JsMapFacts.mapValues map collectPositions].
  intros Hall. inversion Hall as [|? ? [_ Hh] Hm]; subst. simpl in Hh.
  specialize (IH Hm). unfold JsMapFacts.mapValues in IH.
  destruct (toPosition currentPrices (k, h)) as [p|] eqn:Hp.
  - apply toPosition_some in Hp. destruct Hp as [_ [_ [_ [Hc _]]]].
    simpl in *. now rewrite Hc, IH.
  - assert (Hq : Holding.totalQuantity h <= 0).
    { unfold toPosition in Hp.
      destruct (Num.leb (Holding.totalQuantity h) 0) eqn:E.
      - now apply leb_le.
      - destruct (JsMap.get k currentPrices); discriminate. }
    simpl. rewrite (Hh Hq), IH. ring.
Qed.

(** ** Two trades of one instrument and one kind, in either order *)

(** The quantity a sell of [x] leaves of [q]. *)
Definition afterSell (q x : Qc) : Qc :=
  if Num.ltb 0 q then q - Num.min x q else q.

Lemma afterSell_comm (q x y : Qc) :
  0 <= x -> 0 <= y ->
  afterSell (afterSell q x) y = afterSell (afterSell q y) x.
Proof.
  intros Hx Hy. unfold afterSell, Num.min. num_cases; qc_lra.
Qed.

Lemma applyFigures_sell (q c : Qc) (t : Trade.t) :
  Trade.type t = sell ->
  0 < q ->
  applyFigures (q, c) t
  = (afterSell q (Trade.quantity t), c / q * afterSell q (Trade.quantity t)).
Proof.
  intros Hty Hq. unfold applyFigures, afterSell. rewrite Hty. simpl.
  rewrite (proj2 (ltb_lt _ _) Hq). f_equal. field. intros E. qc_lra.
Qed.

Lemma applyFigures_sell_empty (q c : Qc) (t : Trade.t) :
  Trade.type t = sell ->
  q <= 0 ->
  applyFigures (q, c) t = (q, c).
Proof.
  intros Hty Hq. unfold applyFigures. rewrite Hty. simpl.
  now rewrite (proj2 (ltb_ge _ _) Hq).
Qed.

Lemma afterSell_nonneg (q x : Qc) : 0 <= q -> 0 <= afterSell q x.
Proof.
  intros Hq. unfold afterSell, Num.min. num_cases; qc_lra.
Qed.

Lemma applyFigures_two_sells (q c : Qc) (a b : Trade.t) :
  Trade.type a = sell ->
  Trade.type b = sell ->
  0 < q ->
  applyFigures (applyFigures (q, c) a) b
  = (afterSell (afterSell q (Trade.quantity a)) (Trade.quantity b),
     c / q * afterSell (afterSell q (Trade.quantity a)) (Trade.quantity b)).
Proof.
  intros Ha Hb Hq. rewrite (applyFigures_sell q c a Ha Hq).
  set (q1 := afterSell q (Trade.quantity a)).
  assert (H1 : 0 <= q1) by (apply afterSell_nonneg; qc_lra).
  destruct (Num.ltb 0 q1) eqn:E.
  - apply ltb_lt in E. rewrite (applyFigures_sell q1 _ b Hb E).
    f_equal. field. split; intros F; qc_lra.
  - apply ltb_ge in E. rewrite (applyFigures_sell_empty q1 _ b Hb E).
    assert (Hq1 : afterSell q1 (Trade.quantity b) = q1).
    { unfold afterSell. now rewrite (proj2 (ltb_ge _ _) E). }
    now rewrite Hq1.
Qed.

Lemma applyFigures_comm (f : Figures) (a b : Trade.t) :
  Trade.type a = Trade.type b ->
  (Trade.type a = sell -> 0 <= Trade.quantity a /\ 0 <= Trade.quantity b) ->
  applyFigures (applyFigures f a) b = applyFigures (applyFigures f b) a.
Proof.
  intros Hty Hsell. destruct f as [q c]. destruct (Trade.type a) eqn:Ha.
  - symmetry in Hty. unfold applyFigures. rewrite Ha, Hty. simpl.
    f_equal; ring.
  - symmetry in Hty. destruct (Hsell eq_refl) as [Hqa Hqb].
    destruct (Num.ltb 0 q) eqn:E.
    + apply ltb_lt in E.
      rewrite (applyFigures_two_sells q c a b Ha Hty E).
      rewrite (applyFigures_two_sells q c b a Hty Ha E).
      now rewrite (afterSell_comm q _ _ Hqa Hqb).
    + apply ltb_ge in E.
      rewrite (applyFigures_sell_empty q c a Ha E).
      rewrite (applyFigures_sell_empty q c b Hty E).
      now rewrite (applyFigures_sell_empty q c a Ha E).
Qed.

Lemma stepFigures_comm (m : JsMap.t Figures) (a b : Trade.t) :
  Trade.stockCode a = Trade.stockCode b ->
  Trade.type a = Trade.type b ->
  (Trade.type a = sell -> 0 <= Trade.quantity a /\ 0 <= Trade.quantity b) ->
  stepFigures (stepFigures m a) b = stepFigures (stepFigures m b) a.
Proof.
  intros Hc Hty Hsell. unfold stepFigures, figuresOf.
  rewrite Hc, !JsMapFacts.get_set_same, !JsMapFacts.set_set.
  f_equal. now apply applyFigures_comm.
Qed.

(** The code, quantity and cost of a position. *)
Definition positionFigures (p : Position.t) : string * Figures :=
  (Position.stockCode p, (Position.totalQuantity p, Position.totalCost p)).

Lemma collectPositions_figures (currentPrices : JsMap.t Qc)
    (m m' : JsMap.t Holding.t) :
  JsMapFacts.mapValues holdingFigures m = JsMapFacts.mapValues holdingFigures m' ->
  map positionFigures (collectPositions currentPrices m)
  = map positionFigures (collectPositions currentPrices m').
Proof.
  revert m'. induction m as [|[k h] m IH]; intros [|[k' h'] m']; simpl;
    try discriminate; [reflexivity|].
  intros [= <- Hq Hc Hm]. specialize (IH _ Hm).
  unfold toPosition. rewrite <- Hq, <- Hc.
  destruct (Num.leb (Holding.totalQuantity h) 0); [exact IH|].
  destruct (JsMap.get k currentPrices); simpl; unfold positionFigures at 1 3;
    simpl; now rewrite IH, Hq, Hc.
Qed.

(** ** analyzeTradeHistory *)

(** The point a trade yields is the last point of the state after
    it. *)
Lemma analysisStep_points (st : AnalysisState) (t : Trade.t) :
  exists pt,
    points (analysisStep st t) = points st ++ [pt]
    /\ AnalysisPoint.cumulativeCost pt = currentCumulativeCost (analysisStep st t).
Proof.
  unfold analysisStep, tradeEffect.
  destruct (Trade.type t); [|destruct (Num.ltb _ _)]; simpl; eexists; split;
    reflexivity.
Qed.

(** The loop appends one point per trade and never touches the points
    it has pushed. *)
Lemma points_fold (l : list Trade.t) (st : AnalysisState) :
  exists suffix,
    points (fold_left analysisStep l st) = points st ++ suffix
    /\ List.length suffix = List.length l
    /\ map AnalysisPoint.cost suffix
       = map (fun t => Trade.price t * Trade.quantity t) l.
Proof.
  revert st. induction l as [|t l IH]; intros st; simpl.
  - exists []. now rewrite app_nil_r.
  - destruct (IH (analysisStep st t)) as [suffix [Hp [Hl Hc]]].
    rewrite Hp.
    destruct (analysisStep_points st t) as [pt [Hpt _]].
    rewrite Hpt, <- app_assoc. eexists. split; [reflexivity|].
    simpl. rewrite Hl, Hc. split; [reflexivity|]. f_equal.
    assert (Hcost : map AnalysisPoint.cost (points (analysisStep st t))
                    = map AnalysisPoint.cost (points st)
                      ++ [Trade.price t * Trade.quantity t]).
    { unfold analysisStep, tradeEffect.
      destruct (Trade.type t); [|destruct (Num.ltb _ _)]; simpl;
        rewrite map_app; reflexivity. }
    rewrite Hpt, map_app in Hcost. apply app_inv_head in Hcost.
    now injection Hcost.
Qed.

Lemma points_initial_length (l : list Trade.t) :
  List.length (points (fold_left analysisStep l initialState)) = List.length l.
Proof.
  destruct (points_fold l initialState) as [suffix [Hp [Hl _]]].
  rewrite Hp. simpl. exact Hl.
Qed.

(** C5: when [analyzeTradeHistory] processes a sell on an instrument
    whose inventory holds a quantity above 0, the point it emits has
    [profit = price*quantity - commission - costOfSold] with
    [costOfSold = (totalCost/quantity) * min(trade.quantity, quantity)],
    and the inventory's cost and the cumulative cost both go down by
    [costOfSold]; on an inventory that holds nothing the profit is 0
    and neither cost changes.  [pre] are the trades processed before the
    sell, so the point is the one at index [length pre]. *)
Theorem C5_sell_point (trades pre post : list Trade.t) (trade : Trade.t) :
  sortedTrades getTime trades = pre ++ trade :: post ->
  Trade.type trade = sell ->
  let st := fold_left analysisStep pre initialState in
  let st' := analysisStep st trade in
  let inventory := inventoryOf (stockInventory st) trade in
  let held := Inventory.quantity inventory in
  let costOfSold :=
    Inventory.totalCost inventory / held * Num.min (Trade.quantity trade) held in
  exists pt inventory',
    nth_error (analyzeTradeHistory getTime trades) (List.length pre) = Some pt
    /\ JsMap.get (Trade.stockCode trade) (stockInventory st') = Some inventory'
    /\ AnalysisPoint.cumulativeCost pt = currentCumulativeCost st'
    /\ (0 < held ->
          AnalysisPoint.profit pt
          = Trade.price trade * Trade.quantity trade
            - Num.orZero (Trade.commission trade) - costOfSold
          /\ Inventory.totalCost inventory'
             = Inventory.totalCost inventory - costOfSold
          /\ currentCumulativeCost st' = currentCumulativeCost st - costOfSold)
    /\ (held <= 0 ->
          AnalysisPoint.profit pt = 0
          /\ inventory' = inventory
          /\ currentCumulativeCost st' = currentCumulativeCost st).
Proof.
  intros Hsort Hty st st' inventory held costOfSold.
  unfold analyzeTradeHistory, analysisRun. rewrite Hsort.
  rewrite fold_left_app. cbn [fold_left]. fold st. fold st'.
  destruct (points_fold post st') as [suffix [Hp _]]. rewrite Hp.
  assert (Hlen : List.length (points st) = List.length pre)
    by apply points_initial_length.
  subst st'. unfold analysisStep, tradeEffect. fold inventory. rewrite Hty.
  destruct (Num.ltb 0 (Inventory.quantity inventory)) eqn:Hq; simpl.
  - apply ltb_lt in Hq.
    do 2 eexists. split; [|split; [|split; [|split]]].
    + rewrite <- app_assoc. rewrite nth_error_app2 by lia.
      rewrite Hlen, Nat.sub_diag. reflexivity.
    + apply JsMapFacts.get_set_same.
    + reflexivity.
    + intros _. simpl. auto.
    + intros Hle. exfalso. fold held in Hq. qc_lra.
  - apply ltb_ge in Hq.
    do 2 eexists. split; [|split; [|split; [|split]]].
    + rewrite <- app_assoc. rewrite nth_error_app2 by lia.
      rewrite Hlen, Nat.sub_diag. reflexivity.
    + apply JsMapFacts.get_set_same.
    + reflexivity.
    + intros Hlt. exfalso. fold held in Hq. qc_lra.
    + intros _. simpl. auto.
Qed.

Lemma analyze_costs (trades : list Trade.t) :
  map AnalysisPoint.cost (analyzeTradeHistory getTime trades)
  = map (fun t => Trade.price t * Trade.quantity t) (sortedTrades getTime trades).
Proof.
  unfold analyzeTradeHistory, analysisRun.
  destruct (points_fold (sortedTrades getTime trades) initialState)
    as [suffix [Hp [_ Hc]]].
  rewrite Hp. simpl. exact Hc.
Qed.


(** The last point carries the cumulative cost the loop ends with. *)
Lemma last_point_cumulative (trades : list Trade.t) :
  trades <> [] ->
  exists pts pt,
    analyzeTradeHistory getTime trades = pts ++ [pt]
    /\ AnalysisPoint.cumulativeCost pt
       = currentCumulativeCost (analysisRun getTime trades).
Proof.
  intros Hne. unfold analyzeTradeHistory, analysisRun.
  destruct (exists_last (l := sortedTrades getTime trades)) as [l [t Hs]].
  { intros E. pose proof (sortedTrades_perm trades) as Hp.
    rewrite E in Hp. apply Permutation_nil in Hp. congruence. }
  rewrite Hs, fold_left_app. cbn [fold_left].
  destruct (analysisStep_points (fold_left analysisStep l initialState) t)
    as [pt [Hpt Hcum]].
  eauto.
Qed.

(** Both loops end with the same figures per instrument. *)
Lemma same_books (trades : list Trade.t) :
  JsMapFacts.mapValues holdingFigures (positionMap getTime trades)
  = JsMapFacts.mapValues inventoryFigures
      (stockInventory (analysisRun getTime trades)).
Proof.
  unfold positionMap, analysisRun. rewrite positionMap_figures.
  destruct (analysis_fold_figures (sortedTrades getTime trades) initialState)
    as [H _]; [reflexivity|].
  rewrite H. reflexivity.
Qed.

(** In exact arithmetic: for every trade sequence whose buys all have a
    quantity above 0, and every price map, the [totalCost] of the
    positions of [calculatePositions] add up to the [cumulativeCost] of
    the last point of [analyzeTradeHistory] on the same sequence, and
    to 0 for the empty sequence, which has no point; the two loops keep
    the same quantity and cost per instrument.  In binary64 a closed
    holding can leave a residue in the running total, and the two sums
    are taken in different orders (last part). *)
Theorem exact_positions_cost_is_cumulative (trades : list Trade.t)
    (currentPrices : JsMap.t Qc) :
  (forall t, In t trades -> Trade.type t = buy -> 0 < Trade.quantity t) ->
  (trades = [] ->
     analyzeTradeHistory getTime trades = []
     /\ sumCost (calculatePositions getTime trades currentPrices) = 0)
  /\ (trades <> [] ->
        exists pts pt,
          analyzeTradeHistory getTime trades = pts ++ [pt]
          /\ sumCost (calculatePositions getTime trades currentPrices)
             = AnalysisPoint.cumulativeCost pt)
  /\ JsMapFacts.mapValues holdingFigures (positionMap getTime trades)
     = JsMapFacts.mapValues inventoryFigures
         (stockInventory (analysisRun getTime trades)).
Proof.
  intros Hbuys. split; [|split].
  - intros ->. split; reflexivity.
  - intros Hne. destruct (last_point_cumulative trades Hne) as [pts [pt [Hpts Hcum]]].
    exists pts, pt. split; [exact Hpts|]. rewrite Hcum.
    unfold calculatePositions. rewrite collectPositions_cost.
    + rewrite same_books. symmetry. unfold analysisRun.
      now apply analysis_fold_figures.
    + unfold positionMap. rewrite positionMap_figures.
      apply stepFigures_settled; [constructor|].
      intros t Ht. apply Hbuys.
      exact (Permutation_in _ (sortedTrades_perm trades) Ht).
  - apply same_books.
Qed.

Lemma byDate_alike (a b : Trade.t) :
  getTime (Trade.date a) = getTime (Trade.date b) ->
  JsArrayFacts.alike (byDate getTime) a b.
Proof.
  intros H. unfold JsArrayFacts.alike, byDate. rewrite H.
  repeat split; intros; lia.
Qed.

(** In exact arithmetic: swapping two neighbouring trades of the input
    that have the same timestamp, the same instrument code and the same
    kind, where two sells have quantities of at least 0, leaves the
    code, [totalQuantity] and [totalCost] of every position of
    [calculatePositions] as they were.  In binary64 the order of two
    additions can show in the last place (last part). *)
Theorem exact_swap_of_ties (l1 l2 : list Trade.t) (a b : Trade.t)
    (currentPrices : JsMap.t Qc) :
  getTime (Trade.date a) = getTime (Trade.date b) ->
  Trade.stockCode a = Trade.stockCode b ->
  Trade.type a = Trade.type b ->
  (Trade.type a = sell -> 0 <= Trade.quantity a /\ 0 <= Trade.quantity b) ->
  map positionFigures (calculatePositions getTime (l1 ++ a :: b :: l2) currentPrices)
  = map positionFigures (calculatePositions getTime (l1 ++ b :: a :: l2) currentPrices).
Proof.
  intros Htime Hcode Hty Hsell.
  unfold calculatePositions. apply collectPositions_figures.
  unfold positionMap, sortedTrades.
  destruct (JsArrayFacts.sort_swap (byDate getTime) a b l1 l2
              (byDate_alike a b Htime)) as [u1 [u2 [-> ->]]].
  rewrite !positionMap_figures, !fold_left_app. cbn [fold_left].
  now rewrite (stepFigures_comm _ a b Hcode Hty Hsell).
Qed.

End Properties.

(** ** Concrete runs *)

(** The time of a date, for the concrete runs: the digits of the date
    part, read as one number, which orders the dates "YYYY-MM-DD" that
    the trade form produces as the calendar does. *)
Fixpoint digitsValue (s : string) (acc : Z) : Z :=
  match s with
  | EmptyString => acc
  | String c r =>
      let n := Z.of_nat (nat_of_ascii c) in
      if ((48 <=? n) && (n <=? 57))%Z
      then digitsValue r (10 * acc + (n - 48))%Z
      else digitsValue r acc
  end.

Definition dayNumber (s : string) : Z := digitsValue (beforeT s) 0.

Definition sampleTrade (code : string) (ty : TradeType) (p q : Q) (d : string)
    (c : option Q) : Trade.t :=
  Trade.mk d code code ty (Num.lit p) (Num.lit q) d (option_map Num.lit c) None.

(** Quantities are not validated: a buy of quantity 0 that pays a
    commission returns no position, so the costs add up to 0, while
    the last point's [cumulativeCost] is the commission, 5. *)
Lemma exact_zero_quantity_buy :
  let trades := [sampleTrade "X" buy 10 0 "2024-01-02" (Some 5%Q)] in
  calculatePositions dayNumber trades [] = []
  /\ map AnalysisPoint.cumulativeCost (analyzeTradeHistory dayNumber trades)
     = [Num.lit 5]
  /\ sumCost (calculatePositions dayNumber trades [])
     <> last (map AnalysisPoint.cumulativeCost (analyzeTradeHistory dayNumber trades)) 0.
Proof.
  simpl. split; [reflexivity|]. split.
  - f_equal; try qc_eval.
  - vm_compute. intros H. discriminate H.
Qed.

Lemma exact_positions_cost_is_cumulative_witness :
  let trades := [sampleTrade "X" buy 10 100 "2024-01-02" (Some 5%Q);
                 sampleTrade "X" sell 12 50 "2024-01-03" (Some 2%Q)] in
  exists pts pt,
    analyzeTradeHistory dayNumber trades = pts ++ [pt]
    /\ sumCost (calculatePositions dayNumber trades [])
       = AnalysisPoint.cumulativeCost pt.
Proof.
  intros trades.
  refine (proj1 (proj2 (exact_positions_cost_is_cumulative dayNumber trades [] _)) _).
  - intros t [<-|[<-|[]]]; intros H; [reflexivity | discriminate H].
  - discriminate.
Defined.

(** Quantities are not validated: with a sell of a quantity below 0,
    two sells do not commute.  After a buy of 10, selling -5 and then
    12 leaves 3 units, while selling 12 and then -5 closes the holding,
    and no position is returned. *)
Lemma exact_negative_sell :
  let b0 := sampleTrade "X" buy 1 10 "2024-01-02" None in
  let s1 := sampleTrade "X" sell 1 (-5) "2024-01-02" None in
  let s2 := sampleTrade "X" sell 1 12 "2024-01-02" None in
  map positionFigures (calculatePositions dayNumber [b0; s1; s2] [])
  = [("X", (Num.lit 3, Num.lit 3))]
  /\ map positionFigures (calculatePositions dayNumber [b0; s2; s1] []) = []
  /\ map Position.totalQuantity (calculatePositions dayNumber [b0; s1; s2] [])
     <> map Position.totalQuantity (calculatePositions dayNumber [b0; s2; s1] []).
Proof.
  vm_compute. split; [|split].
  - repeat f_equal; apply Qc_is_canon; reflexivity.
  - reflexivity.
  - discriminate.
Qed.

Lemma exact_swap_of_ties_witness :
  let b0 := sampleTrade "X" buy 1 10 "2024-01-02" None in
  let s1 := sampleTrade "X" sell 1 3 "2024-01-03" None in
  let s2 := sampleTrade "X" sell 1 4 "2024-01-03" None in
  map positionFigures (calculatePositions dayNumber ([b0] ++ s1 :: s2 :: []) [])
  = map positionFigures (calculatePositions dayNumber ([b0] ++ s2 :: s1 :: []) []).
Proof.
  intros b0 s1 s2.
  apply (exact_swap_of_ties dayNumber [b0] [] s1 s2 []); try reflexivity.
  intros _. split; discriminate.
Defined.

Lemma exact_buy_100_sell_50_witness :
  exists p,
    calculatePositions dayNumber
      [ Trade.mk "t1" "X" "Xin" buy (Num.lit 10) (Num.lit 100) "2024-01-02"
          (Some (Num.lit 5)) None;
        Trade.mk "t2" "X" "Xin" sell (Num.lit 12) (Num.lit 50) "2024-01-03"
          (Some (Num.lit 2)) None ]
      [] = [p]
    /\ Position.stockCode p = "X"
    /\ Position.totalQuantity p = Num.lit 50
    /\ Position.totalCost p = Num.lit 502.5
    /\ Position.averageCost p = Num.lit 10.05.
Proof.
  apply (exact_buy_100_sell_50 dayNumber). vm_compute. discriminate.
Defined.

Lemma C5_sell_point_witness :
  let b0 := sampleTrade "X" buy 10 100 "2024-01-02" (Some 5%Q) in
  let s1 := sampleTrade "X" sell 12 50 "2024-01-03" (Some 2%Q) in
  exists pt,
    nth_error (analyzeTradeHistory dayNumber [s1; b0]) 1 = Some pt
    /\ AnalysisPoint.profit pt = Num.lit 95.5
    /\ AnalysisPoint.cumulativeCost pt = Num.lit 502.5.
Proof.
  intros b0 s1.
  destruct (C5_sell_point dayNumber [s1; b0] [b0] [] s1 eq_refl eq_refl)
    as [pt [inventory' [Hnth [_ [Hcum [Hpos _]]]]]].
  exists pt. split; [exact Hnth|].
  destruct Hpos as [Hprofit [_ _]]; [vm_compute; reflexivity|].
  rewrite Hprofit, Hcum. split; qc_eval.
Defined.

Lemma exact_buy_only_average_witness :
  let b1 := sampleTrade "X" buy 10 100 "2024-01-02" (Some 5%Q) in
  let b2 := sampleTrade "X" buy 12 50 "2024-01-03" None in
  exists p,
    calculatePositions dayNumber [b2; b1] [] = [p]
    /\ Position.averageCost p = Num.lit (1605 / 150).
Proof.
  intros b1 b2.
  destruct (exact_buy_only_average dayNumber [b2; b1] "X" []) as [p [Hp [_ [_ Havg]]]].
  - discriminate.
  - intros t [<-|[<-|[]]]; repeat split.
  - exists p. split; [exact Hp|]. rewrite Havg. qc_eval.
Defined.

(** ** The heap *)

Module HeapFacts.

Lemma update_length (h : Heap.t) (l : Heap.loc) (c : Heap.cell) :
  List.length (Heap.update h l c) = List.length h.
Proof.
  revert l. induction h as [|x h IH]; intros [|l]; simpl; auto.
Qed.

Lemma read_update_same (h : Heap.t) (l : Heap.loc) (c : Heap.cell) :
  (l < List.length h)%nat -> Heap.read (Heap.update h l c) l = Some c.
Proof.
  revert l. induction h as [|x h IH]; intros [|l]; simpl; intros H;
    try lia; [reflexivity|]. apply IH. lia.
Qed.

Lemma read_update_other (h : Heap.t) (l l' : Heap.loc) (c : Heap.cell) :
  l <> l' -> Heap.read (Heap.update h l c) l' = Heap.read h l'.
Proof.
  revert l l'. induction h as [|x h IH]; intros [|l] [|l']; simpl; intros H;
    try congruence; try reflexivity. apply IH. congruence.
Qed.

Lemma read_some_lt (h : Heap.t) (l : Heap.loc) (c : Heap.cell) :
  Heap.read h l = Some c -> (l < List.length h)%nat.
Proof. intros H. apply nth_error_Some. unfold Heap.read in H. congruence. Qed.

Lemma read_alloc_old (h : Heap.t) (l : Heap.loc) (c : Heap.cell) :
  (l < List.length h)%nat -> Heap.read (h ++ [c]) l = Heap.read h l.
Proof. intros H. unfold Heap.read. now rewrite nth_error_app1. Qed.

Lemma read_alloc_new (h : Heap.t) (c : Heap.cell) :
  Heap.read (h ++ [c]) (List.length h) = Some c.
Proof.
  unfold Heap.read. rewrite nth_error_app2 by lia. now rewrite Nat.sub_diag.
Qed.

End HeapFacts.

(** [h'] has every object of the first [n] references as [h] has it. *)
Definition agree (n : nat) (h h' : Heap.t) : Prop :=
  (List.length h <= List.length h')%nat
  /\ forall l, (l < n)%nat -> Heap.read h' l = Heap.read h l.

Lemma agree_refl (n : nat) (h : Heap.t) : agree n h h.
Proof. split; auto. Qed.

Lemma agree_trans (n : nat) (h1 h2 h3 : Heap.t) :
  agree n h1 h2 -> agree n h2 h3 -> agree n h1 h3.
Proof.
  intros [L1 H1] [L2 H2]. split; [lia|]. intros l Hl. now rewrite H2, H1.
Qed.

Lemma agree_alloc (n : nat) (h : Heap.t) (c : Heap.cell) :
  (n <= List.length h)%nat -> agree n h (h ++ [c]).
Proof.
  intros Hn. split; [rewrite length_app; lia|].
  intros l Hl. apply HeapFacts.read_alloc_old. lia.
Qed.

Lemma agree_update (n : nat) (h : Heap.t) (l : Heap.loc) (c : Heap.cell) :
  (n <= l)%nat -> agree n h (Heap.update h l c).
Proof.
  intros Hn. split; [rewrite HeapFacts.update_length; lia|].
  intros l' Hl. apply HeapFacts.read_update_other. lia.
Qed.

Lemma agree_le (n m : nat) (h h' : Heap.t) :
  (n <= m)%nat -> agree m h h' -> agree n h h'.
Proof. intros Hn [L H]. split; [exact L|]. intros l Hl. apply H. lia. Qed.

(** [c] runs on [h] without a type error, and its result and final heap
    satisfy [Q]. *)
Definition returns {A : Type} (c : Run A) (h : Heap.t) (Q : A -> Heap.t -> Prop) : Prop :=
  exists a h', c h = Some (a, h') /\ Q a h'.

Lemma returns_ret {A : Type} (a : A) (h : Heap.t) (Q : A -> Heap.t -> Prop) :
  Q a h -> returns (ret a) h Q.
Proof. intros H. exists a, h. auto. Qed.

Lemma returns_bind {A B : Type} (c : Run A) (k : A -> Run B) (h : Heap.t)
    (Q : B -> Heap.t -> Prop) :
  returns c h (fun a h' => returns (k a) h' Q) -> returns (bind c k) h Q.
Proof.
  intros [a [h' [Hc [b [h'' [Hk HQ]]]]]]. exists b, h''. unfold bind.
  rewrite Hc. auto.
Qed.

Lemma returns_weaken {A : Type} (c : Run A) (h : Heap.t) (P Q : A -> Heap.t -> Prop) :
  returns c h P -> (forall a h', P a h' -> Q a h') -> returns c h Q.
Proof. intros [a [h' [Hc HP]]] HPQ. exists a, h'. auto. Qed.

Lemma returns_alloc (c : Heap.cell) (h : Heap.t) (Q : Heap.loc -> Heap.t -> Prop) :
  Q (List.length h) (h ++ [c]) -> returns (alloc c) h Q.
Proof. intros H. exists (List.length h), (h ++ [c]). auto. Qed.

Lemma returns_store (l : Heap.loc) (c c0 : Heap.cell) (h : Heap.t)
    (Q : unit -> Heap.t -> Prop) :
  Heap.read h l = Some c0 -> Q tt (Heap.update h l c) -> returns (store l c) h Q.
Proof.
  intros Hr H. exists tt, (Heap.update h l c). unfold store. rewrite Hr. auto.
Qed.

Lemma returns_load {A : Type} (proj : Heap.cell -> option A) (l : Heap.loc)
    (c : Heap.cell) (a : A) (h : Heap.t) (Q : A -> Heap.t -> Prop) :
  Heap.read h l = Some c -> proj c = Some a -> Q a h -> returns (load proj l) h Q.
Proof.
  intros Hr Hp H. exists a, h. unfold load. rewrite Hr, Hp. auto.
Qed.

(** The loop rule.  The elements [l] of the loop stand for the values
    [ts] ([R] relates them), and [I done acc h] holds when the values
    [done] have been processed. *)
Lemma returns_forEach {A B T : Type} (R : A -> T -> Prop) (body : B -> A -> Run B)
    (I : list T -> B -> Heap.t -> Prop) (l : list A) (ts : list T) :
  Forall2 R l ts ->
  (forall done x t acc h,
      R x t -> I done acc h ->
      returns (body acc x) h (fun acc' h' => I (done ++ [t]) acc' h')) ->
  forall (done : list T) (acc : B) (h : Heap.t),
    I done acc h ->
    returns (forEach l acc body) h (fun acc' h' => I (done ++ ts) acc' h').
Proof.
  intros HR Hbody. induction HR as [|x t l ts Hxt _ IH]; intros done acc h HI; simpl.
  - apply returns_ret. now rewrite app_nil_r.
  - apply returns_bind.
    eapply returns_weaken; [apply (Hbody done x t acc h Hxt HI)|].
    intros acc' h' HI'. simpl.
    replace (done ++ t :: ts) with ((done ++ [t]) ++ ts)
      by (rewrite <- app_assoc; reflexivity).
    now apply IH.
Qed.

(** ** Maps of references

    A map of references [m] stands for the map of values [pm] when its
    entries, in order, have the keys of [pm] and refer to distinct
    objects, allocated at [lo] or later, that hold the values of [pm]. *)

Section Booked.

Context {V : Type}.
Variable obj : V -> Heap.cell.

Definition bookedEntry (lo : nat) (h : Heap.t) (e : string * Heap.loc) (e' : string * V)
  : Prop :=
  fst e = fst e' /\ (lo <= snd e)%nat /\ Heap.read h (snd e) = Some (obj (snd e')).

Definition booked (lo : nat) (h : Heap.t) (m : JsMap.t Heap.loc) (pm : JsMap.t V) : Prop :=
  Forall2 (bookedEntry lo h) m pm /\ NoDup (map snd m).

Lemma booked_nil (lo : nat) (h : Heap.t) : booked lo h [] [].
Proof. split; constructor. Qed.

Lemma get_in_refs (k : string) (e : Heap.loc) (m : JsMap.t Heap.loc) :
  JsMap.get k m = Some e -> In e (map snd m).
Proof.
  induction m as [|[k0 l0] m IH]; simpl; [discriminate|].
  destruct (String.eqb k k0); [intros [= <-]; now left | intros H; right; auto].
Qed.

Lemma booked_get_some (lo : nat) (h : Heap.t) (m : JsMap.t Heap.loc) (pm : JsMap.t V)
    (k : string) (e : Heap.loc) :
  booked lo h m pm ->
  JsMap.get k m = Some e ->
  exists v,
    JsMap.get k pm = Some v /\ Heap.read h e = Some (obj v) /\ (lo <= e)%nat
    /\ JsMap.set k e m = m /\ JsMap.set k v pm = pm.
Proof.
  intros [HF _]. induction HF as [|[k0 l0] [k1 v1] m pm [Hk [Hlo Hr]] _ IH];
    simpl in *; [discriminate|]. subst k1.
  destruct (String.eqb_spec k k0) as [->|Hne].
  - intros [= <-]. exists v1. auto.
  - intros Hg. destruct (IH Hg) as [v [H1 [H2 [H3 [H4 H5]]]]].
    exists v. rewrite H4, H5. auto.
Qed.

Lemma booked_get_none (lo : nat) (h : Heap.t) (m : JsMap.t Heap.loc) (pm : JsMap.t V)
    (k : string) :
  booked lo h m pm ->
  JsMap.get k m = None ->
  JsMap.get k pm = None
  /\ (forall e, JsMap.set k e m = m ++ [(k, e)])
  /\ (forall v, JsMap.set k v pm = pm ++ [(k, v)]).
Proof.
  intros [HF _]. induction HF as [|[k0 l0] [k1 v1] m pm [Hk [Hlo Hr]] _ IH];
    simpl in *; [auto|]. subst k1.
  destruct (String.eqb k k0); [discriminate|].
  intros Hg. destruct (IH Hg) as [H1 [H2 H3]].
  split; [exact H1|]. split; intros; [rewrite H2 | rewrite H3]; reflexivity.
Qed.

(** Heaps that agree on the objects of [m] book the same map. *)
Lemma booked_frame (lo : nat) (h h' : Heap.t) (m : JsMap.t Heap.loc) (pm : JsMap.t V) :
  booked lo h m pm ->
  (forall e, In e (map snd m) -> Heap.read h' e = Heap.read h e) ->
  booked lo h' m pm.
Proof.
  intros [HF HN] Hsame. split; [|exact HN]. clear HN.
  induction HF as [|e e' m pm [Hk [Hlo Hr]] _ IH]; constructor.
  - repeat split; auto. rewrite Hsame; [exact Hr | now left].
  - apply IH. intros l Hl. apply Hsame. now right.
Qed.

(** An assignment into the object of key [k]. *)
Lemma booked_update (lo : nat) (h : Heap.t) (m : JsMap.t Heap.loc) (pm : JsMap.t V)
    (k : string) (e : Heap.loc) (v : V) :
  booked lo h m pm ->
  JsMap.get k m = Some e ->
  booked lo (Heap.update h e (obj v)) m (JsMap.set k v pm).
Proof.
  intros [HF HN] Hget. split; [|exact HN]. revert HN Hget.
  induction HF as [|[k0 l0] [k1 v1] m pm [Hk [Hlo Hr]] HF IH]; simpl in *;
    [discriminate|]. subst k1.
  intros HN Hg. inversion HN as [|? ? Hnotin HN']; subst.
  destruct (String.eqb_spec k k0) as [->|Hne].
  - injection Hg as <-. constructor.
    + repeat split; auto. simpl.
      apply HeapFacts.read_update_same. eapply HeapFacts.read_some_lt, Hr.
    + assert (Hb : booked lo (Heap.update h l0 (obj v)) m pm).
      { apply (booked_frame lo h); [split; assumption|].
        intros l Hl. apply HeapFacts.read_update_other. congruence. }
      apply Hb.
  - constructor.
    + repeat split; auto. simpl. rewrite HeapFacts.read_update_other; [exact Hr|].
      intros <-. apply Hnotin. eapply get_in_refs, Hg.
    + now apply IH.
Qed.

(** A new object for a key the map does not have. *)
Lemma booked_alloc (lo : nat) (h : Heap.t) (m : JsMap.t Heap.loc) (pm : JsMap.t V)
    (k : string) (v : V) :
  booked lo h m pm ->
  (lo <= List.length h)%nat ->
  booked lo (h ++ [obj v]) (m ++ [(k, List.length h)]) (pm ++ [(k, v)]).
Proof.
  intros Hb Hlo.
  assert (Hlt : forall l, In l (map snd m) -> (l < List.length h)%nat).
  { destruct Hb as [HF _]. clear Hlo.
    induction HF as [|e e' m pm [_ [_ Hr]] _ IH]; simpl; [contradiction|].
    intros l [<-|Hl]; [eapply HeapFacts.read_some_lt, Hr | now apply IH]. }
  assert (Hb' : booked lo (h ++ [obj v]) m pm).
  { apply (booked_frame lo h); [exact Hb|]. intros l Hl.
    apply HeapFacts.read_alloc_old. now apply Hlt. }
  destruct Hb' as [HF HN]. split.
  - apply Forall2_app; [exact HF|]. constructor; [|constructor].
    repeat split; auto. apply HeapFacts.read_alloc_new.
  - rewrite map_app. simpl. apply NoDup_app.
    + exact HN.
    + constructor; [intros []|constructor].
    + intros l Hl [<-|[]]. specialize (Hlt _ Hl). lia.
Qed.

End Booked.

(** ** Reading arrays of objects *)

Lemma insert_map {A B : Type} (f : A -> B) (cmp : B -> B -> Z) (x : A) (l : list A) :
  map f (JsArray.insert (fun a b => cmp (f a) (f b)) x l)
  = JsArray.insert cmp (f x) (map f l).
Proof.
  induction l as [|y l IH]; simpl; [reflexivity|].
  destruct (cmp (f x) (f y) <=? 0)%Z; simpl; congruence.
Qed.

(** Sorting references by the objects behind them sorts the objects. *)
Lemma sort_map {A B : Type} (f : A -> B) (cmp : B -> B -> Z) (l : list A) :
  map f (JsArray.sort (fun a b => cmp (f a) (f b)) l) = JsArray.sort cmp (map f l).
Proof.
  induction l as [|x l IH]; simpl; [reflexivity|].
  now rewrite insert_map, IH.
Qed.

(** The references [ls] hold, in order, the values [vs]. *)
Definition holds {A : Type} (obj : A -> Heap.cell) (h : Heap.t)
    (ls : list Heap.loc) (vs : list A) : Prop :=
  Forall2 (fun l v => Heap.read h l = Some (obj v)) ls vs.

Lemma holds_agree {A : Type} (obj : A -> Heap.cell) (h h' : Heap.t)
    (ls : list Heap.loc) (vs : list A) :
  holds obj h ls vs -> agree (List.length h) h h' -> holds obj h' ls vs.
Proof.
  intros H [_ Hag]. induction H as [|l v ls vs Hr _ IH]; constructor; [|exact IH].
  rewrite Hag; [exact Hr|]. eapply HeapFacts.read_some_lt, Hr.
Qed.

Lemma holds_frame {A : Type} (obj : A -> Heap.cell) (h h' : Heap.t)
    (ls : list Heap.loc) (vs : list A) :
  holds obj h ls vs ->
  (forall l, In l ls -> Heap.read h' l = Heap.read h l) ->
  holds obj h' ls vs.
Proof.
  intros H Hsame. induction H as [|l v ls vs Hr _ IH]; constructor.
  - rewrite Hsame; [exact Hr | now left].
  - apply IH. intros l' Hl'. apply Hsame. now right.
Qed.

Lemma holds_below {A : Type} (obj : A -> Heap.cell) (h : Heap.t)
    (ls : list Heap.loc) (vs : list A) :
  holds obj h ls vs -> Forall (fun l => (l < List.length h)%nat) ls.
Proof.
  induction 1 as [|l v ls vs Hr _ IH]; constructor; [|exact IH].
  eapply HeapFacts.read_some_lt, Hr.
Qed.

Lemma holds_pairs {A : Type} (obj : A -> Heap.cell) (h : Heap.t)
    (ps : list (Heap.loc * A)) :
  Forall (fun p => Heap.read h (fst p) = Some (obj (snd p))) ps ->
  holds obj h (map fst ps) (map snd ps).
Proof. induction 1; simpl; constructor; auto. Qed.

Lemma returns_loadAll {A : Type} (obj : A -> Heap.cell) (proj : Heap.cell -> option A)
    (ls : list Heap.loc) (vs : list A) (h : Heap.t)
    (Q : list (Heap.loc * A) -> Heap.t -> Prop) :
  (forall v, proj (obj v) = Some v) ->
  holds obj h ls vs ->
  Q (combine ls vs) h ->
  returns (loadAll proj ls) h Q.
Proof.
  intros Hproj H. revert Q. induction H as [|l v ls vs Hr _ IH]; intros Q HQ; simpl.
  - now apply returns_ret.
  - apply returns_bind. eapply returns_load; [exact Hr | apply Hproj |].
    apply returns_bind. apply IH. now apply returns_ret.
Qed.

Lemma holds_combine {A : Type} (obj : A -> Heap.cell) (h : Heap.t)
    (ls : list Heap.loc) (vs : list A) :
  holds obj h ls vs ->
  Forall (fun p => Heap.read h (fst p) = Some (obj (snd p))) (combine ls vs)
  /\ map snd (combine ls vs) = vs.
Proof.
  induction 1 as [|l v ls vs Hr _ [IH1 IH2]]; simpl; split; auto.
  now rewrite IH2.
Qed.

Lemma update_last (h : Heap.t) (c c' : Heap.cell) :
  Heap.update (h ++ [c]) (List.length h) c' = h ++ [c'].
Proof. induction h as [|x h IH]; simpl; congruence. Qed.

Section HeapProperties.

Variable getTime : string -> Z.

(** [[...trades].sort(...)] allocates one array, leaves every object
    that existed as it was, and the new array refers to the trades of
    the input in the order of [sortedTrades]. *)
Lemma sortedTradesM_spec (trades : Heap.loc) (elems : list Heap.loc)
    (ts : list Trade.t) (h : Heap.t) (Q : Heap.loc -> Heap.t -> Prop) :
  Heap.read h trades = Some (Heap.ArrayObj elems) ->
  holds Heap.TradeObj h elems ts ->
  (forall sorted,
      holds Heap.TradeObj h sorted (sortedTrades getTime ts) ->
      Q (List.length h) (h ++ [Heap.ArrayObj sorted])) ->
  returns (sortedTradesM getTime trades) h Q.
Proof.
  intros Hr Hts HQ. unfold sortedTradesM.
  apply returns_bind. eapply returns_load; [exact Hr | reflexivity |].
  apply returns_bind. apply returns_alloc.
  apply returns_bind. unfold sortByDateM.
  apply returns_bind.
  eapply returns_load; [apply HeapFacts.read_alloc_new | reflexivity |].
  apply returns_bind.
  assert (Hag : agree (List.length h) h (h ++ [Heap.ArrayObj elems]))
    by (apply agree_alloc; lia).
  eapply (returns_loadAll Heap.TradeObj);
    [reflexivity | exact (holds_agree _ _ _ _ _ Hts Hag) |].
  eapply returns_store; [apply HeapFacts.read_alloc_new|].
  apply returns_ret. rewrite update_last. apply HQ.
  destruct (holds_combine _ _ _ _ Hts) as [Hall Hsnd].
  replace (sortedTrades getTime ts)
    with (map snd (JsArray.sort (fun a b => byDate getTime (snd a) (snd b))
                     (combine elems ts)))
    by (rewrite (sort_map snd (byDate getTime)), Hsnd; reflexivity).
  apply holds_pairs.
  eapply Permutation_Forall; [|exact Hall].
  symmetry. apply JsArrayFacts.sort_perm.
Qed.

(** The assignments of one iteration of the first loop of
    [calculatePositions], once [existing] is known: they change the
    object behind [existing] and the map, nothing else. *)
Lemma positionStepM_assignments (mapLoc lo : nat) (h : Heap.t)
    (m m1 : JsMap.t Heap.loc) (pm1 : JsMap.t Holding.t) (trade : Trade.t)
    (existing : Heap.loc) (Q : unit -> Heap.t -> Prop) :
  (mapLoc < lo)%nat ->
  Heap.read h mapLoc = Some (Heap.RefMapObj m) ->
  booked Heap.HoldingObj lo h m1 pm1 ->
  JsMap.get (Trade.stockCode trade) m1 = Some existing ->
  JsMap.set (Trade.stockCode trade) existing m = m1 ->
  (forall h' v,
      JsMap.get (Trade.stockCode trade) pm1 = Some v ->
      agree mapLoc h h' ->
      Heap.read h' mapLoc = Some (Heap.RefMapObj m1) ->
      booked Heap.HoldingObj lo h' m1
        (JsMap.set (Trade.stockCode trade) (renameHolding (applyTrade v trade) trade) pm1) ->
      Q tt h') ->
  returns
    (h0 <- load asHolding existing ;;
     store existing (Heap.HoldingObj (applyTrade h0 trade)) ;;
     h1 <- load asHolding existing ;;
     store existing (Heap.HoldingObj (renameHolding h1 trade)) ;;
     m' <- load asRefMap mapLoc ;;
     store mapLoc
       (Heap.RefMapObj (JsMap.set (Trade.stockCode trade) existing m')))
    h Q.
Proof.
  intros Hlo Hmap Hb Hget Hset HQ.
  destruct (booked_get_some _ _ _ _ _ _ _ Hb Hget) as [v [Hv [Hr [Hle _]]]].
  assert (Hne : existing <> mapLoc) by lia.
  pose proof (HeapFacts.read_some_lt _ _ _ Hr) as Hlt.
  set (v1 := applyTrade v trade).
  set (h1 := Heap.update h existing (Heap.HoldingObj v1)).
  set (v2 := renameHolding v1 trade).
  set (h2 := Heap.update h1 existing (Heap.HoldingObj v2)).
  assert (Hr1 : Heap.read h1 existing = Some (Heap.HoldingObj v1))
    by (apply HeapFacts.read_update_same; exact Hlt).
  assert (Hmap2 : Heap.read h2 mapLoc = Some (Heap.RefMapObj m)).
  { unfold h2, h1. rewrite !HeapFacts.read_update_other by exact Hne. exact Hmap. }
  apply returns_bind. eapply returns_load; [exact Hr | reflexivity |].
  apply returns_bind. eapply returns_store; [exact Hr|]. fold v1 h1.
  apply returns_bind. eapply returns_load; [exact Hr1 | reflexivity |].
  apply returns_bind. eapply returns_store; [exact Hr1|]. fold v2 h2.
  apply returns_bind. eapply returns_load; [exact Hmap2 | reflexivity |].
  eapply returns_store; [exact Hmap2|]. rewrite Hset.
  apply (HQ _ v Hv).
  - apply (agree_trans _ _ h1); [apply agree_update; lia|].
    apply (agree_trans _ _ h2); apply agree_update; lia.
  - apply HeapFacts.read_update_same. eapply HeapFacts.read_some_lt, Hmap2.
  - assert (Hb2 : booked Heap.HoldingObj lo h2 m1
                    (JsMap.set (Trade.stockCode trade) v2 pm1)).
    { rewrite <- (JsMapFacts.set_set _ v2 v1).
      apply booked_update; [|exact Hget]. now apply booked_update. }
    apply (booked_frame _ lo h2); [exact Hb2|].
    intros l Hl. apply HeapFacts.read_update_other.
    destruct Hb as [HF _].
    assert (lo <= l)%nat; [|lia].
    clear - HF Hl. induction HF as [|x y ? ? [_ [Hx _]] _ IH]; simpl in Hl;
      [contradiction|]. destruct Hl as [<-|Hl]; auto.
Qed.

(** One iteration of the first loop of [calculatePositions] on the
    heap does what [positionStep] does to the map of values, and writes
    at [mapLoc] or later only. *)
Lemma positionStepM_spec (mapLoc lo : nat) (h : Heap.t) (m : JsMap.t Heap.loc)
    (pm : JsMap.t Holding.t) (tradeRef : Heap.loc) (trade : Trade.t)
    (Q : unit -> Heap.t -> Prop) :
  (mapLoc < lo)%nat ->
  (lo <= List.length h)%nat ->
  Heap.read h tradeRef = Some (Heap.TradeObj trade) ->
  Heap.read h mapLoc = Some (Heap.RefMapObj m) ->
  booked Heap.HoldingObj lo h m pm ->
  (forall h' m',
      agree mapLoc h h' ->
      Heap.read h' mapLoc = Some (Heap.RefMapObj m') ->
      booked Heap.HoldingObj lo h' m' (positionStep pm trade) ->
      Q tt h') ->
  returns (positionStepM mapLoc tt tradeRef) h Q.
Proof.
  intros Hlo Hlen Htrade Hmap Hb HQ. unfold positionStepM.
  apply returns_bind. eapply returns_load; [exact Htrade | reflexivity |].
  apply returns_bind. eapply returns_load; [exact Hmap | reflexivity |].
  apply returns_bind.
  destruct (JsMap.get (Trade.stockCode trade) m) as [e|] eqn:Hget.
  - destruct (booked_get_some _ _ _ _ _ _ _ Hb Hget) as [v [Hv [_ [_ [Hm Hpm]]]]].
    apply returns_ret.
    eapply positionStepM_assignments; eauto.
    intros h' v' Hv' Hag Hmap' Hb'. apply (HQ h' m Hag Hmap').
    unfold positionStep, existingHolding. rewrite Hv.
    rewrite Hv' in Hv. injection Hv as ->. exact Hb'.
  - destruct (booked_get_none _ _ _ _ _ _ Hb Hget) as [Hnone [Hm Hpm]].
    apply returns_alloc.
    set (d := Holding.mk (Trade.stockCode trade) (Trade.stockName trade) 0 0).
    pose proof (HeapFacts.read_some_lt _ _ _ Hmap) as Hmlt.
    eapply (positionStepM_assignments mapLoc lo _ m
              (m ++ [(Trade.stockCode trade, List.length h)])
              (pm ++ [(Trade.stockCode trade, d)])).
    + exact Hlo.
    + rewrite HeapFacts.read_alloc_old by exact Hmlt. exact Hmap.
    + now apply booked_alloc.
    + rewrite <- Hm. apply JsMapFacts.get_set_same.
    + apply Hm.
    + intros h' v Hv Hag Hmap' Hb'.
      apply (HQ h' (m ++ [(Trade.stockCode trade, List.length h)]));
        [|exact Hmap'|].
      * apply (agree_trans _ _ (h ++ [Heap.HoldingObj d])); [|exact Hag].
        apply agree_alloc. lia.
      * unfold positionStep, existingHolding. rewrite Hnone. fold d.
        rewrite <- Hpm in Hv, Hb'. rewrite JsMapFacts.get_set_same in Hv.
        injection Hv as <-. rewrite JsMapFacts.set_set in Hb'. exact Hb'.
Qed.

Lemma collectPositions_app (currentPrices : JsMap.t Qc) (m1 m2 : JsMap.t Holding.t) :
  collectPositions currentPrices (m1 ++ m2)
  = collectPositions currentPrices m1 ++ collectPositions currentPrices m2.
Proof.
  induction m1 as [|e m1 IH]; simpl; [reflexivity|].
  destruct (toPosition currentPrices e); simpl; now rewrite IH.
Qed.

(** An array [arr] of new objects: its elements were allocated after
    [arr], are distinct, and hold the values [vs]. *)
Definition freshArray {A : Type} (obj : A -> Heap.cell) (h : Heap.t)
    (arr : Heap.loc) (vs : list A) : Prop :=
  exists elems,
    Heap.read h arr = Some (Heap.ArrayObj elems)
    /\ Forall (fun l => (arr < l)%nat) elems
    /\ NoDup elems
    /\ holds obj h elems vs.

(** The heap after [o = { ... }; arr.push(o)] on an array of new
    objects. *)
Lemma pushed_heap {A : Type} (obj : A -> Heap.cell) (h : Heap.t)
    (arr : Heap.loc) (elems : list Heap.loc) (vs : list A) (v : A) :
  Heap.read h arr = Some (Heap.ArrayObj elems) ->
  Forall (fun l => (arr < l)%nat) elems ->
  NoDup elems ->
  holds obj h elems vs ->
  let h' := Heap.update (h ++ [obj v]) arr
              (Heap.ArrayObj (elems ++ [List.length h])) in
  agree arr h h'
  /\ freshArray obj h' arr (vs ++ [v])
  /\ (forall l, (l < List.length h)%nat -> l <> arr ->
                Heap.read h' l = Heap.read h l).
Proof.
  intros Harr Hgt Hnd Hh h'.
  pose proof (HeapFacts.read_some_lt _ _ _ Harr) as Hlt.
  assert (Hold : forall l, (l < List.length h)%nat -> l <> arr ->
                           Heap.read h' l = Heap.read h l).
  { intros l Hl Hne. unfold h'. rewrite HeapFacts.read_update_other by congruence.
    now apply HeapFacts.read_alloc_old. }
  split; [|split; [|exact Hold]].
  - apply (agree_trans _ _ (h ++ [obj v])); [apply agree_alloc; lia|].
    apply agree_update. lia.
  - exists (elems ++ [List.length h]). split; [|split; [|split]].
    + apply HeapFacts.read_update_same. rewrite length_app. simpl. lia.
    + apply Forall_app. split; [exact Hgt|]. constructor; [exact Hlt|constructor].
    + apply NoDup_app; [exact Hnd | constructor; [intros []|constructor] |].
      intros l Hl [<-|[]]. pose proof (holds_below _ _ _ _ Hh) as Hb.
      rewrite Forall_forall in Hb. specialize (Hb _ Hl). lia.
    + apply Forall2_app.
      * pose proof (holds_below _ _ _ _ Hh) as Hb.
        apply (holds_frame obj h); [exact Hh|].
        intros l Hl. rewrite Forall_forall in Hb, Hgt.
        specialize (Hb _ Hl). specialize (Hgt _ Hl). apply Hold; lia.
      * constructor; [|constructor]. unfold h'.
        rewrite HeapFacts.read_update_other by lia.
        apply HeapFacts.read_alloc_new.
Qed.

Lemma freshArray_push {A : Type} (obj : A -> Heap.cell) (h : Heap.t)
    (arr : Heap.loc) (vs : list A) (v : A) (Q : unit -> Heap.t -> Prop) :
  freshArray obj h arr vs ->
  (forall h', agree arr h h' -> freshArray obj h' arr (vs ++ [v]) ->
              (forall l, (l < List.length h)%nat -> l <> arr ->
                         Heap.read h' l = Heap.read h l) ->
              Q tt h') ->
  returns (o <- alloc (obj v) ;; push arr o) h Q.
Proof.
  intros [elems [Harr [Hgt [Hnd Hh]]]] HQ.
  pose proof (HeapFacts.read_some_lt _ _ _ Harr) as Hlt.
  apply returns_bind. apply returns_alloc. unfold push.
  apply returns_bind. eapply returns_load;
    [rewrite HeapFacts.read_alloc_old by exact Hlt; exact Harr | reflexivity |].
  eapply returns_store;
    [rewrite HeapFacts.read_alloc_old by exact Hlt; exact Harr |].
  destruct (pushed_heap obj h arr elems vs v Harr Hgt Hnd Hh) as [H1 [H2 H3]].
  now apply HQ.
Qed.

Lemma freshArray_push_then {A B : Type} (obj : A -> Heap.cell) (h : Heap.t)
    (arr : Heap.loc) (vs : list A) (v : A) (k : Run B) (Q : B -> Heap.t -> Prop) :
  freshArray obj h arr vs ->
  (forall h', agree arr h h' -> freshArray obj h' arr (vs ++ [v]) ->
              (forall l, (l < List.length h)%nat -> l <> arr ->
                         Heap.read h' l = Heap.read h l) ->
              returns k h' Q) ->
  returns (o <- alloc (obj v) ;; push arr o ;; k) h Q.
Proof.
  intros [elems [Harr [Hgt [Hnd Hh]]]] HQ.
  pose proof (HeapFacts.read_some_lt _ _ _ Harr) as Hlt.
  apply returns_bind. apply returns_alloc.
  apply returns_bind. unfold push.
  apply returns_bind. eapply returns_load;
    [rewrite HeapFacts.read_alloc_old by exact Hlt; exact Harr | reflexivity |].
  eapply returns_store;
    [rewrite HeapFacts.read_alloc_old by exact Hlt; exact Harr |].
  destruct (pushed_heap obj h arr elems vs v Harr Hgt Hnd Hh) as [H1 [H2 H3]].
  now apply HQ.
Qed.

(** One iteration of the second loop of [calculatePositions]. *)
Lemma collectStepM_spec (currentPrices positions : Heap.loc) (prices : JsMap.t Qc)
    (h : Heap.t) (entry : string * Heap.loc) (data : Holding.t)
    (done : JsMap.t Holding.t) (Q : unit -> Heap.t -> Prop) :
  Heap.read h (snd entry) = Some (Heap.HoldingObj data) ->
  Heap.read h currentPrices = Some (Heap.NumMapObj prices) ->
  freshArray Heap.PositionObj h positions (collectPositions prices done) ->
  (forall h',
      agree positions h h' ->
      freshArray Heap.PositionObj h' positions
        (collectPositions prices (done ++ [(fst entry, data)])) ->
      Q tt h') ->
  returns (collectStepM currentPrices positions tt entry) h Q.
Proof.
  intros Hdata Hprices Hfresh HQ. unfold collectStepM.
  apply returns_bind. eapply returns_load; [exact Hdata | reflexivity |].
  apply returns_bind. eapply returns_load; [exact Hprices | reflexivity |].
  rewrite collectPositions_app in HQ. cbn [collectPositions] in HQ.
  destruct (toPosition prices (fst entry, data)) as [p|].
  - eapply freshArray_push; [exact Hfresh|]. intros h' Hag Hf _. now apply HQ.
  - apply returns_ret. apply HQ; [apply agree_refl|]. now rewrite app_nil_r.
Qed.

(** [calculatePositions] on the heap: for a trade array and a price map
    it runs without a type error; every object that existed before the
    call is as it was; the result is a new array of new, distinct
    position objects, and they hold what the function on values
    computes. *)
Lemma calculatePositionsM_spec (h : Heap.t) (trades currentPrices : Heap.loc)
    (elems : list Heap.loc) (ts : list Trade.t) (prices : JsMap.t Qc) :
  Heap.read h trades = Some (Heap.ArrayObj elems) ->
  holds Heap.TradeObj h elems ts ->
  Heap.read h currentPrices = Some (Heap.NumMapObj prices) ->
  returns (calculatePositionsM getTime trades currentPrices) h
    (fun positions h' =>
       agree (List.length h) h h'
       /\ (List.length h <= positions)%nat
       /\ freshArray Heap.PositionObj h' positions
            (calculatePositions getTime ts prices)).
Proof.
  intros Htrades Hts Hprices. unfold calculatePositionsM.
  set (n0 := List.length h).
  set (h1 := h ++ [Heap.RefMapObj JsMap.empty]).
  assert (Hag1 : agree n0 h h1) by (apply agree_alloc; unfold n0; lia).
  pose proof (HeapFacts.read_some_lt _ _ _ Htrades) as Htlt.
  pose proof (HeapFacts.read_some_lt _ _ _ Hprices) as Hplt.
  apply returns_bind. apply returns_alloc. fold n0 h1.
  apply returns_bind.
  apply (sortedTradesM_spec trades elems ts h1).
  { destruct Hag1 as [_ H]. rewrite H; [exact Htrades | exact Htlt]. }
  { exact (holds_agree _ _ _ _ _ Hts Hag1). }
  intros sorted Hsorted.
  set (h2 := h1 ++ [Heap.ArrayObj sorted]).
  assert (Hlen1 : List.length h1 = S n0)
    by (unfold h1, n0; rewrite length_app; simpl; lia).
  assert (Hlen2 : List.length h2 = S (S n0))
    by (unfold h2; rewrite length_app, Hlen1; simpl; lia).
  assert (Hag2 : agree n0 h h2).
  { apply (agree_trans _ _ h1); [exact Hag1|]. apply agree_alloc. lia. }
  apply returns_bind.
  eapply returns_load; [apply HeapFacts.read_alloc_new | reflexivity |].
  apply returns_bind.
  pose (I := fun (done : list Trade.t) (_ : unit) (hc : Heap.t) =>
               agree n0 h hc
               /\ (S n0 <= List.length hc)%nat
               /\ exists m,
                   Heap.read hc n0 = Some (Heap.RefMapObj m)
                   /\ booked Heap.HoldingObj (S n0) hc m
                        (fold_left positionStep done JsMap.empty)).
  eapply returns_weaken.
  - refine (returns_forEach (fun l t => Heap.read h1 l = Some (Heap.TradeObj t))
              (positionStepM n0) I sorted (sortedTrades getTime ts) Hsorted
              _ [] tt h2 _).
    + intros done l t [] hc Hl [Hag [Hlen [m [Hmap Hb]]]].
      apply (positionStepM_spec n0 (S n0) hc m
               (fold_left positionStep done JsMap.empty) l t);
        try lia; try assumption.
      * assert (Hl0 : Heap.read h l = Some (Heap.TradeObj t)).
        { pose proof (holds_below _ _ _ _ Hts) as Hbelow.
          unfold h1, Heap.read in Hl.
          destruct (Nat.lt_ge_cases l n0) as [Hlt|Hge].
          - now rewrite nth_error_app1 in Hl.
          - rewrite nth_error_app2 in Hl by exact Hge. fold n0 in Hl.
            destruct (l - n0)%nat as [|[|k]]; simpl in Hl; discriminate. }
        destruct Hag as [_ H]. rewrite H; [exact Hl0|].
        eapply HeapFacts.read_some_lt, Hl0.
      * intros h' m' Hag' Hmap' Hb'. unfold I. rewrite fold_left_app. simpl.
        split; [|split].
        -- apply (agree_trans _ _ hc); [exact Hag | exact Hag'].
        -- destruct Hag' as [Hle _]. lia.
        -- exists m'. auto.
    + unfold I. split; [exact Hag2|]. split; [lia|].
      exists JsMap.empty. split; [|apply booked_nil].
      unfold h2. rewrite HeapFacts.read_alloc_old by lia.
      unfold h1. apply HeapFacts.read_alloc_new.
  - intros [] h3 [Hag3 [Hlen3 [m [Hmap3 Hb3]]]]. simpl in Hb3.
    fold (positionMap getTime ts) in Hb3.
    set (arr := List.length h3).
    set (h4 := h3 ++ [Heap.ArrayObj []]).
    assert (Hle03 : (n0 <= arr)%nat) by (unfold arr; lia).
    apply returns_bind. apply returns_alloc. fold arr h4.
    assert (Hmap4 : Heap.read h4 n0 = Some (Heap.RefMapObj m))
      by (unfold h4; rewrite HeapFacts.read_alloc_old by lia; exact Hmap3).
    apply returns_bind. eapply returns_load; [exact Hmap4 | reflexivity |].
    apply returns_bind.
    pose (J := fun (done : JsMap.t Holding.t) (_ : unit) (hc : Heap.t) =>
                 agree arr h3 hc
                 /\ freshArray Heap.PositionObj hc arr (collectPositions prices done)).
    eapply returns_weaken.
    + destruct Hb3 as [HF _].
      refine (returns_forEach (bookedEntry Heap.HoldingObj (S n0) h3)
                (collectStepM currentPrices arr) J m (positionMap getTime ts) HF
                _ [] tt h4 _).
      * intros done e e' [] hc [Hk [_ Hr]] [Hagc Hfr].
        apply (collectStepM_spec currentPrices arr prices hc e (snd e') done).
        -- destruct Hagc as [_ H]. rewrite H; [exact Hr|].
           eapply HeapFacts.read_some_lt, Hr.
        -- destruct Hagc as [_ H]. rewrite H by lia.
           destruct Hag3 as [_ H3]. rewrite H3; [exact Hprices | exact Hplt].
        -- exact Hfr.
        -- intros h' Hag' Hfr'. unfold J. split.
           ++ apply (agree_trans _ _ hc); [exact Hagc | exact Hag'].
           ++ rewrite Hk in Hfr'. destruct e'. exact Hfr'.
      * unfold J. split; [apply agree_alloc; unfold arr; lia|].
        exists []. split; [unfold h4, arr; apply HeapFacts.read_alloc_new|].
        repeat split; constructor.
    + intros [] h5 [Hag5 Hfr5]. simpl in Hfr5.
      apply returns_ret. split; [|split].
      * apply (agree_trans _ _ h3); [exact Hag3|]. now apply (agree_le n0 arr).
      * exact Hle03.
      * exact Hfr5.
Qed.

(** [calculateTotalProfitLoss] on the heap changes nothing: it adds one
    object, the totals of the positions. *)
Lemma calculateTotalProfitLossM_spec (h : Heap.t) (positions : Heap.loc)
    (elems : list Heap.loc) (ps : list Position.t) :
  Heap.read h positions = Some (Heap.ArrayObj elems) ->
  holds Heap.PositionObj h elems ps ->
  returns (calculateTotalProfitLossM positions) h
    (fun totals h' =>
       totals = List.length h
       /\ h' = h ++ [Heap.TotalsObj (calculateTotalProfitLoss ps)]).
Proof.
  intros Harr Hps. unfold calculateTotalProfitLossM.
  apply returns_bind. eapply returns_load; [exact Harr | reflexivity |].
  apply returns_bind.
  eapply (returns_loadAll Heap.PositionObj); [reflexivity | exact Hps |].
  apply returns_alloc.
  destruct (holds_combine _ _ _ _ Hps) as [_ ->]. auto.
Qed.

Lemma freshArray_frame {A : Type} (obj : A -> Heap.cell) (h h' : Heap.t)
    (arr : Heap.loc) (vs : list A) :
  freshArray obj h arr vs ->
  Heap.read h' arr = Heap.read h arr ->
  (forall l v, Heap.read h l = Some (obj v) -> Heap.read h' l = Heap.read h l) ->
  freshArray obj h' arr vs.
Proof.
  intros [elems [Harr [Hgt [Hnd Hh]]]] Ha Hsame.
  exists elems. split; [congruence|]. split; [exact Hgt|]. split; [exact Hnd|].
  clear - Hh Hsame. induction Hh as [|l v ls vs Hr _ IH]; constructor; [|exact IH].
  now rewrite (Hsame _ _ Hr).
Qed.

Lemma booked_refs_ge {V : Type} (obj : V -> Heap.cell) (lo : nat) (h : Heap.t)
    (m : JsMap.t Heap.loc) (pm : JsMap.t V) :
  booked obj lo h m pm ->
  forall l, In l (map snd m) -> (lo <= l < List.length h)%nat.
Proof.
  intros [HF _]. induction HF as [|e e' m pm [_ [Hlo Hr]] _ IH]; simpl;
    [contradiction|].
  intros l [<-|Hl]; [|now apply IH].
  split; [exact Hlo|]. eapply HeapFacts.read_some_lt, Hr.
Qed.

(** The assignments of one iteration of the loop of
    [analyzeTradeHistory], once [inventory] is known: they change the
    object behind [inventory], the inventory map and the points array,
    and add one point object. *)
Lemma analysisStepM_assignments (pointsLoc invLoc lo : nat) (h : Heap.t)
    (m m1 : JsMap.t Heap.loc) (pm1 : JsMap.t Inventory.t) (pts : list AnalysisPoint.t)
    (cum : Qc) (trade : Trade.t) (inventory : Heap.loc) (Q : Qc -> Heap.t -> Prop) :
  (pointsLoc < invLoc)%nat ->
  (invLoc < lo)%nat ->
  Heap.read h invLoc = Some (Heap.RefMapObj m) ->
  booked Heap.InventoryObj lo h m1 pm1 ->
  JsMap.get (Trade.stockCode trade) m1 = Some inventory ->
  JsMap.set (Trade.stockCode trade) inventory m = m1 ->
  freshArray Heap.PointObj h pointsLoc pts ->
  (forall h' v i' tradeProfit cumulative',
      JsMap.get (Trade.stockCode trade) pm1 = Some v ->
      tradeEffect v cum trade = (i', tradeProfit, cumulative') ->
      agree pointsLoc h h' ->
      Heap.read h' invLoc = Some (Heap.RefMapObj m1) ->
      booked Heap.InventoryObj lo h' m1 (JsMap.set (Trade.stockCode trade) i' pm1) ->
      freshArray Heap.PointObj h' pointsLoc
        (pts ++ [pointOf trade tradeProfit cumulative']) ->
      Q cumulative' h') ->
  returns
    (i <- load asInventory inventory ;;
     let '(i', tradeProfit, cumulative') := tradeEffect i cum trade in
     store inventory (Heap.InventoryObj i') ;;
     m' <- load asRefMap invLoc ;;
     store invLoc
       (Heap.RefMapObj (JsMap.set (Trade.stockCode trade) inventory m')) ;;
     o <- alloc (Heap.PointObj (pointOf trade tradeProfit cumulative')) ;;
     push pointsLoc o ;;
     ret cumulative')
    h Q.
Proof.
  intros Hpi Hlo Hmap Hb Hget Hset Hfresh HQ.
  destruct (booked_get_some _ _ _ _ _ _ _ Hb Hget) as [v [Hv [Hr [Hle _]]]].
  pose proof (HeapFacts.read_some_lt _ _ _ Hr) as Hlt.
  pose proof (HeapFacts.read_some_lt _ _ _ Hmap) as Hmlt.
  apply returns_bind. eapply returns_load; [exact Hr | reflexivity |].
  destruct (tradeEffect v cum trade) as [[i' tradeProfit] cumulative'] eqn:Heff.
  set (h1 := Heap.update h inventory (Heap.InventoryObj i')).
  assert (Hmap1 : Heap.read h1 invLoc = Some (Heap.RefMapObj m)).
  { unfold h1. rewrite HeapFacts.read_update_other by lia. exact Hmap. }
  set (h2 := Heap.update h1 invLoc (Heap.RefMapObj m1)).
  apply returns_bind. eapply returns_store; [exact Hr|]. fold h1.
  apply returns_bind. eapply returns_load; [exact Hmap1 | reflexivity |].
  apply returns_bind. eapply returns_store; [exact Hmap1|]. rewrite Hset. fold h2.
  assert (Hb1 : booked Heap.InventoryObj lo h1 m1
                  (JsMap.set (Trade.stockCode trade) i' pm1))
    by now apply booked_update.
  assert (Hb2 : booked Heap.InventoryObj lo h2 m1
                  (JsMap.set (Trade.stockCode trade) i' pm1)).
  { apply (booked_frame _ lo h1); [exact Hb1|]. intros l Hl.
    apply HeapFacts.read_update_other.
    pose proof (booked_refs_ge _ _ _ _ _ Hb l Hl). lia. }
  assert (Hmap2 : Heap.read h2 invLoc = Some (Heap.RefMapObj m1)).
  { apply HeapFacts.read_update_same. unfold h1.
    rewrite HeapFacts.update_length. exact Hmlt. }
  assert (Hag2 : agree pointsLoc h h2).
  { apply (agree_trans _ _ h1); apply agree_update; lia. }
  assert (Hfresh2 : freshArray Heap.PointObj h2 pointsLoc pts).
  { apply (freshArray_frame _ h); [exact Hfresh | |].
    - unfold h2, h1. rewrite !HeapFacts.read_update_other by lia. reflexivity.
    - intros l p Hp. unfold h2, h1.
      assert (inventory <> l) by (intros E; rewrite <- E, Hr in Hp; discriminate).
      assert (invLoc <> l) by (intros E; rewrite <- E, Hmap in Hp; discriminate).
      now rewrite !HeapFacts.read_update_other by assumption. }
  apply (freshArray_push_then Heap.PointObj h2 pointsLoc pts); [exact Hfresh2|].
  intros h' Hag' Hfr' Hold.
  assert (Hlen2 : List.length h2 = List.length h)
    by (unfold h2, h1; now rewrite !HeapFacts.update_length).
  apply returns_ret. apply (HQ h' v i' tradeProfit cumulative' Hv Heff).
  - apply (agree_trans _ _ h2); assumption.
  - rewrite Hold; [exact Hmap2 | lia | lia].
  - apply (booked_frame _ lo h2); [exact Hb2|]. intros l Hl.
    pose proof (booked_refs_ge _ _ _ _ _ Hb l Hl). apply Hold; lia.
  - exact Hfr'.
Qed.

(** One iteration of the loop of [analyzeTradeHistory] on the heap does
    what [analysisStep] does to the state of values, and writes at
    [pointsLoc] or later only. *)
Lemma analysisStepM_spec (pointsLoc invLoc lo : nat) (h : Heap.t)
    (m : JsMap.t Heap.loc) (st : AnalysisState) (tradeRef : Heap.loc)
    (trade : Trade.t) (Q : Qc -> Heap.t -> Prop) :
  (pointsLoc < invLoc)%nat ->
  (invLoc < lo)%nat ->
  (lo <= List.length h)%nat ->
  Heap.read h tradeRef = Some (Heap.TradeObj trade) ->
  Heap.read h invLoc = Some (Heap.RefMapObj m) ->
  booked Heap.InventoryObj lo h m (stockInventory st) ->
  freshArray Heap.PointObj h pointsLoc (points st) ->
  (forall h' m',
      agree pointsLoc h h' ->
      Heap.read h' invLoc = Some (Heap.RefMapObj m') ->
      booked Heap.InventoryObj lo h' m' (stockInventory (analysisStep st trade)) ->
      freshArray Heap.PointObj h' pointsLoc (points (analysisStep st trade)) ->
      Q (currentCumulativeCost (analysisStep st trade)) h') ->
  returns (analysisStepM pointsLoc invLoc (currentCumulativeCost st) tradeRef) h Q.
Proof.
  intros Hpi Hlo Hlen Htrade Hmap Hb Hfresh HQ. unfold analysisStepM.
  apply returns_bind. eapply returns_load; [exact Htrade | reflexivity |].
  apply returns_bind. eapply returns_load; [exact Hmap | reflexivity |].
  apply returns_bind.
  destruct (JsMap.get (Trade.stockCode trade) m) as [e|] eqn:Hget.
  - destruct (booked_get_some _ _ _ _ _ _ _ Hb Hget) as [v [Hv [_ [_ [Hm Hpm]]]]].
    apply returns_ret.
    eapply analysisStepM_assignments; eauto.
    intros h' v' i' tradeProfit cumulative' Hv' Heff Hag Hmap' Hb' Hfr'.
    rewrite Hv' in Hv. injection Hv as ->.
    assert (Hstep : analysisStep st trade
                    = mkState (points st ++ [pointOf trade tradeProfit cumulative'])
                        cumulative'
                        (JsMap.set (Trade.stockCode trade) i' (stockInventory st))).
    { unfold analysisStep, inventoryOf. rewrite Hv', Heff. reflexivity. }
    replace cumulative' with (currentCumulativeCost (analysisStep st trade))
      by (rewrite Hstep; reflexivity).
    apply (HQ h' m Hag Hmap'); rewrite Hstep; assumption.
  - destruct (booked_get_none _ _ _ _ _ _ Hb Hget) as [Hnone [Hm Hpm]].
    apply returns_alloc.
    set (d := Inventory.mk 0 0).
    pose proof (HeapFacts.read_some_lt _ _ _ Hmap) as Hmlt.
    assert (Hag0 : agree (List.length h) h (h ++ [Heap.InventoryObj d]))
      by (apply agree_alloc; lia).
    eapply (analysisStepM_assignments pointsLoc invLoc lo _ m
              (m ++ [(Trade.stockCode trade, List.length h)])
              (stockInventory st ++ [(Trade.stockCode trade, d)])
              (points st)).
    + exact Hpi.
    + exact Hlo.
    + rewrite HeapFacts.read_alloc_old by exact Hmlt. exact Hmap.
    + now apply booked_alloc.
    + rewrite <- Hm. apply JsMapFacts.get_set_same.
    + apply Hm.
    + apply (freshArray_frame _ h); [exact Hfresh | |].
      * destruct Hfresh as [elems [Harr _]].
        apply HeapFacts.read_alloc_old. eapply HeapFacts.read_some_lt, Harr.
      * intros l p Hp. apply HeapFacts.read_alloc_old.
        eapply HeapFacts.read_some_lt, Hp.
    + intros h' v i' tradeProfit cumulative' Hv Heff Hag Hmap' Hb' Hfr'.
      rewrite <- Hpm in Hv, Hb'. rewrite JsMapFacts.get_set_same in Hv.
      injection Hv as <-. rewrite JsMapFacts.set_set in Hb'.
      assert (Hstep : analysisStep st trade
                      = mkState (points st ++ [pointOf trade tradeProfit cumulative'])
                          cumulative'
                          (JsMap.set (Trade.stockCode trade) i' (stockInventory st))).
      { unfold analysisStep, inventoryOf. rewrite Hnone. fold d. rewrite Heff.
        reflexivity. }
      replace cumulative' with (currentCumulativeCost (analysisStep st trade))
        by (rewrite Hstep; reflexivity).
      apply (HQ h' (m ++ [(Trade.stockCode trade, List.length h)]));
        [ | exact Hmap' | rewrite Hstep; exact Hb' | rewrite Hstep; exact Hfr'].
      apply (agree_trans _ _ (h ++ [Heap.InventoryObj d])); [|exact Hag].
      apply (agree_le pointsLoc (List.length h)); [lia | exact Hag0].
Qed.

(** [analyzeTradeHistory] on the heap: for a trade array it runs
    without a type error; every object that existed before the call is
    as it was; the result is a new array of new, distinct point objects,
    and they hold what the function on values computes. *)
Lemma analyzeTradeHistoryM_spec (h : Heap.t) (trades : Heap.loc)
    (elems : list Heap.loc) (ts : list Trade.t) :
  Heap.read h trades = Some (Heap.ArrayObj elems) ->
  holds Heap.TradeObj h elems ts ->
  returns (analyzeTradeHistoryM getTime trades) h
    (fun points h' =>
       agree (List.length h) h h'
       /\ (List.length h <= points)%nat
       /\ freshArray Heap.PointObj h' points (analyzeTradeHistory getTime ts)).
Proof.
  intros Htrades Hts. unfold analyzeTradeHistoryM.
  set (n0 := List.length h).
  apply returns_bind.
  apply (sortedTradesM_spec trades elems ts h _ Htrades Hts).
  intros sorted Hsorted. fold n0.
  set (h1 := h ++ [Heap.ArrayObj sorted]).
  set (h2 := h1 ++ [Heap.ArrayObj []]).
  set (h3 := h2 ++ [Heap.RefMapObj JsMap.empty]).
  assert (Hlen1 : List.length h1 = S n0)
    by (unfold h1, n0; rewrite length_app; simpl; lia).
  assert (Hlen2 : List.length h2 = S (S n0))
    by (unfold h2; rewrite length_app, Hlen1; simpl; lia).
  assert (Hlen3 : List.length h3 = S (S (S n0)))
    by (unfold h3; rewrite length_app, Hlen2; simpl; lia).
  assert (Hag3 : agree n0 h h3).
  { apply (agree_trans _ _ h1); [apply agree_alloc; unfold n0; lia|].
    apply (agree_trans _ _ h2); apply agree_alloc; lia. }
  apply returns_bind. apply returns_alloc. fold h2. rewrite Hlen1.
  apply returns_bind. apply returns_alloc. fold h3. rewrite Hlen2.
  assert (Hsorted3 : Heap.read h3 n0 = Some (Heap.ArrayObj sorted)).
  { unfold h3. rewrite HeapFacts.read_alloc_old by (rewrite Hlen2; lia).
    unfold h2. rewrite HeapFacts.read_alloc_old by (rewrite Hlen1; lia).
    unfold h1, n0. apply HeapFacts.read_alloc_new. }
  apply returns_bind. eapply returns_load; [exact Hsorted3 | reflexivity |].
  apply returns_bind.
  pose (I := fun (done : list Trade.t) (acc : Qc) (hc : Heap.t) =>
               let st := fold_left analysisStep done initialState in
               agree n0 h hc
               /\ (S (S (S n0)) <= List.length hc)%nat
               /\ acc = currentCumulativeCost st
               /\ freshArray Heap.PointObj hc (S n0) (points st)
               /\ exists m,
                   Heap.read hc (S (S n0)) = Some (Heap.RefMapObj m)
                   /\ booked Heap.InventoryObj (S (S (S n0))) hc m
                        (stockInventory st)).
  eapply returns_weaken.
  - refine (returns_forEach (fun l t => Heap.read h l = Some (Heap.TradeObj t))
              (analysisStepM (S n0) (S (S n0))) I sorted (sortedTrades getTime ts)
              Hsorted _ [] 0 h3 _).
    + intros done l t acc hc Hl [Hag [Hlen [-> [Hfr [m [Hmap Hb]]]]]].
      apply (analysisStepM_spec (S n0) (S (S n0)) (S (S (S n0))) hc m
               (fold_left analysisStep done initialState) l t);
        try lia; try assumption.
      * destruct Hag as [_ H]. rewrite H; [exact Hl|].
        eapply HeapFacts.read_some_lt, Hl.
      * intros h' m' Hag' Hmap' Hb' Hfr'. unfold I.
        rewrite fold_left_app. simpl. split; [|split; [|split; [|split]]].
        -- apply (agree_trans _ _ hc); [exact Hag|].
           apply (agree_le n0 (S n0)); [lia | exact Hag'].
        -- destruct Hag' as [Hle _]. lia.
        -- reflexivity.
        -- exact Hfr'.
        -- exists m'. auto.
    + assert (Hpts3 : Heap.read h3 (S n0) = Some (Heap.ArrayObj [])).
      { unfold h3. rewrite HeapFacts.read_alloc_old by (rewrite Hlen2; lia).
        unfold h2. rewrite <- Hlen1. apply HeapFacts.read_alloc_new. }
      assert (Hinv3 : Heap.read h3 (S (S n0)) = Some (Heap.RefMapObj JsMap.empty)).
      { unfold h3. rewrite <- Hlen2. apply HeapFacts.read_alloc_new. }
      unfold I. simpl. split; [exact Hag3|]. split; [lia|]. split; [reflexivity|].
      split.
      * exists []. split; [exact Hpts3|]. repeat split; constructor.
      * exists JsMap.empty. split; [exact Hinv3 | apply booked_nil].
  - intros acc h4 [Hag4 [Hlen4 [_ [Hfr4 _]]]]. simpl in Hfr4.
    apply returns_ret. split; [exact Hag4|]. split; [lia|]. exact Hfr4.
Qed.

(** Every object of [h] is in [h'] as it was. *)
Definition untouched (h h' : Heap.t) : Prop :=
  forall l c, Heap.read h l = Some c -> Heap.read h' l = Some c.

(** [l] is not a reference of [h]: the object behind it was created
    later. *)
Definition isNew (h : Heap.t) (l : Heap.loc) : Prop := (List.length h <= l)%nat.

(** [out] is an array created after [h], of distinct objects created
    after [h], which hold the values [vs]. *)
Definition newArray {A : Type} (obj : A -> Heap.cell) (h h' : Heap.t)
    (out : Heap.loc) (vs : list A) : Prop :=
  isNew h out
  /\ exists elems,
      Heap.read h' out = Some (Heap.ArrayObj elems)
      /\ Forall (isNew h) elems
      /\ NoDup elems
      /\ holds obj h' elems vs.

Lemma agree_untouched (h h' : Heap.t) : agree (List.length h) h h' -> untouched h h'.
Proof.
  intros [_ H] l c Hr. rewrite H; [exact Hr|]. eapply HeapFacts.read_some_lt, Hr.
Qed.

Lemma freshArray_newArray {A : Type} (obj : A -> Heap.cell) (h h' : Heap.t)
    (out : Heap.loc) (vs : list A) :
  isNew h out -> freshArray obj h' out vs -> newArray obj h h' out vs.
Proof.
  intros Hnew [elems [Hr [Hgt [Hnd Hh]]]]. split; [exact Hnew|].
  exists elems. repeat split; auto.
  eapply Forall_impl; [|exact Hgt]. unfold isNew in *. simpl. intros; lia.
Qed.

(** C9: on a heap [h] that holds a trade array, a price map and a
    position array, each of [calculatePositions],
    [calculateTotalProfitLoss] and [analyzeTradeHistory] runs to its end
    and leaves every object of [h] as it was (the trade array is copied
    before it is sorted), so neither the inputs nor the results of
    earlier calls change; what it returns is a new object that refers
    to new objects only, and holds the result of the function on
    values. *)
Theorem C9_calls_leave_the_heap (h : Heap.t)
    (trades currentPrices positions : Heap.loc)
    (tradeRefs positionRefs : list Heap.loc)
    (ts : list Trade.t) (prices : JsMap.t Qc) (ps : list Position.t) :
  Heap.read h trades = Some (Heap.ArrayObj tradeRefs) ->
  holds Heap.TradeObj h tradeRefs ts ->
  Heap.read h currentPrices = Some (Heap.NumMapObj prices) ->
  Heap.read h positions = Some (Heap.ArrayObj positionRefs) ->
  holds Heap.PositionObj h positionRefs ps ->
  returns (calculatePositionsM getTime trades currentPrices) h
    (fun out h' =>
       untouched h h'
       /\ newArray Heap.PositionObj h h' out (calculatePositions getTime ts prices))
  /\ returns (calculateTotalProfitLossM positions) h
       (fun out h' =>
          untouched h h' /\ isNew h out
          /\ Heap.read h' out
             = Some (Heap.TotalsObj (calculateTotalProfitLoss ps)))
  /\ returns (analyzeTradeHistoryM getTime trades) h
       (fun out h' =>
          untouched h h'
          /\ newArray Heap.PointObj h h' out (analyzeTradeHistory getTime ts)).
Proof.
  intros Htrades Hts Hprices Hpos Hps. split; [|split].
  - eapply returns_weaken;
      [exact (calculatePositionsM_spec h trades currentPrices tradeRefs ts prices
                Htrades Hts Hprices)|].
    intros out h' [Hag [Hnew Hfr]]. split.
    + now apply agree_untouched.
    + now apply freshArray_newArray.
  - eapply returns_weaken;
      [exact (calculateTotalProfitLossM_spec h positions positionRefs ps Hpos Hps)|].
    intros out h' [-> ->]. split; [|split].
    + apply agree_untouched, agree_alloc. lia.
    + unfold isNew. lia.
    + apply HeapFacts.read_alloc_new.
  - eapply returns_weaken;
      [exact (analyzeTradeHistoryM_spec h trades tradeRefs ts Htrades Hts)|].
    intros out h' [Hag [Hnew Hfr]]. split.
    + now apply agree_untouched.
    + now apply freshArray_newArray.
Qed.

End HeapProperties.

(** A heap for the concrete runs: two trades, the array of them (the
    later trade first), a price map, a position and the array of it. *)
Definition sampleHeap : Heap.t :=
  [ Heap.TradeObj (sampleTrade "X" buy 10 100 "2024-01-02" (Some 5%Q));
    Heap.TradeObj (sampleTrade "X" sell 12 50 "2024-01-03" (Some 2%Q));
    Heap.ArrayObj [1; 0]%nat;
    Heap.NumMapObj [("X", Num.lit 11)];
    Heap.PositionObj (samplePosition 800 (Some 1000%Q));
    Heap.ArrayObj [4%nat] ].

Lemma C9_calls_leave_the_heap_witness :
  returns (calculatePositionsM dayNumber 2%nat 3%nat) sampleHeap
    (fun out h' =>
       untouched sampleHeap h'
       /\ newArray Heap.PositionObj sampleHeap h' out
            (calculatePositions dayNumber
               [sampleTrade "X" sell 12 50 "2024-01-03" (Some 2%Q);
                sampleTrade "X" buy 10 100 "2024-01-02" (Some 5%Q)]
               [("X", Num.lit 11)])).
Proof.
  refine (proj1 (C9_calls_leave_the_heap dayNumber sampleHeap 2%nat 3%nat 5%nat
                   [1; 0]%nat [4%nat] _ _ [samplePosition 800 (Some 1000%Q)]
                   _ _ _ _ _)).
  - reflexivity.
  - repeat constructor.
  - reflexivity.
  - reflexivity.
  - repeat constructor.
Defined.

(** Sorting the input array itself, without the copy, would reorder
    it: the model tells the two apart. *)
Remark sort_without_copy_changes_input :
  exists h', sortByDateM dayNumber 2%nat sampleHeap = Some (tt, h')
             /\ Heap.read h' 2%nat <> Heap.read sampleHeap 2%nat.
Proof.
  eexists. split; [reflexivity|]. discriminate.
Qed.

(** * More of the code

    The other functions of [src/utils/calculations.ts], and the callers
    of the engine in the hooks and components. *)

(** ** getFullCode

    Strings are strings of ASCII characters here, as stock codes are:
    [toLowerCase] is modelled on the letters A to Z. *)

Definition lowerAscii (c : ascii) : ascii :=
  let n := nat_of_ascii c in
  if ((65 <=? n) && (n <=? 90))%nat then ascii_of_nat (n + 32) else c.

(** [s.toLowerCase()]. *)
Fixpoint toLowerCase (s : string) : string :=
  match s with
  | EmptyString => EmptyString
  | String c r => String (lowerAscii c) (toLowerCase r)
  end.

(** [/^(sh|sz|bj)/i.test(code)]. *)
Definition hasMarketPrefix (code : string) : bool :=
  match code with
  | String a (String b _) =>
      let a' := lowerAscii a in
      let b' := lowerAscii b in
      (Ascii.eqb a' "s" && (Ascii.eqb b' "h" || Ascii.eqb b' "z"))
      || (Ascii.eqb a' "b" && Ascii.eqb b' "j")
  | _ => false
  end.

(** [code.replace(/^(sh|sz|bj)/i, '')]. *)
Definition stripMarketPrefix (code : string) : string :=
  if hasMarketPrefix code
  then match code with String _ (String _ r) => r | _ => code end
  else code.

(** [s.startsWith(c)] for a one-character [c]. *)
Definition startsWith (c : ascii) (s : string) : bool :=
  match s with
  | String a _ => Ascii.eqb a c
  | EmptyString => false
  end.

Definition getFullCode (code : string) : string :=
  let cleanCode := stripMarketPrefix code in
  if hasMarketPrefix code then toLowerCase code
  else if startsWith "6" cleanCode then ("sh" ++ cleanCode)%string
  else if startsWith "5" cleanCode then ("sh" ++ cleanCode)%string
  else if startsWith "0" cleanCode || startsWith "3" cleanCode then ("sz" ++ cleanCode)%string
  else if startsWith "1" cleanCode then ("sz" ++ cleanCode)%string
  else if startsWith "4" cleanCode || startsWith "8" cleanCode then ("bj" ++ cleanCode)%string
  else ("sz" ++ cleanCode)%string.

(** The strings that begin with a market: "sh", "sz" or "bj". *)
Definition marketPrefixed (s : string) : Prop :=
  exists market rest,
    s = (market ++ rest)%string /\ (market = "sh" \/ market = "sz" \/ market = "bj").

Lemma lowerAscii_idem (c : ascii) : lowerAscii (lowerAscii c) = lowerAscii c.
Proof.
  destruct c as [[] [] [] [] [] [] [] []]; reflexivity.
Qed.

Lemma toLowerCase_idem (s : string) : toLowerCase (toLowerCase s) = toLowerCase s.
Proof.
  induction s as [|c s IH]; simpl; [reflexivity|].
  now rewrite lowerAscii_idem, IH.
Qed.

Lemma hasMarketPrefix_lower (s : string) :
  hasMarketPrefix (toLowerCase s) = hasMarketPrefix s.
Proof.
  destruct s as [|a [|b r]]; simpl; try reflexivity.
  now rewrite !lowerAscii_idem.
Qed.

Lemma marketPrefixed_has (s : string) : marketPrefixed s -> hasMarketPrefix s = true.
Proof.
  intros [market [rest [-> [-> | [-> | ->]]]]]; reflexivity.
Qed.

Lemma hasMarketPrefix_lower_prefixed (s : string) :
  hasMarketPrefix s = true -> marketPrefixed (toLowerCase s).
Proof.
  destruct s as [|a [|b r]]; simpl; try discriminate.
  intros H. unfold marketPrefixed.
  destruct (Ascii.eqb_spec (lowerAscii a) "s") as [Ea|Ea];
    destruct (Ascii.eqb_spec (lowerAscii b) "h") as [Eb|Eb];
    destruct (Ascii.eqb_spec (lowerAscii b) "z") as [Ez|Ez];
    destruct (Ascii.eqb_spec (lowerAscii a) "b") as [Ea'|Ea'];
    destruct (Ascii.eqb_spec (lowerAscii b) "j") as [Ej|Ej];
    simpl in H; try discriminate;
    try (rewrite Ea, Eb; exists "sh", (toLowerCase r); auto);
    try (rewrite Ea, Ez; exists "sz", (toLowerCase r); auto);
    try (rewrite Ea', Ej; exists "bj", (toLowerCase r); auto).
Qed.

Lemma getFullCode_has (code : string) : hasMarketPrefix (getFullCode code) = true.
Proof.
  unfold getFullCode. destruct (hasMarketPrefix code) eqn:Hp.
  - now rewrite hasMarketPrefix_lower.
  - repeat match goal with
           | |- context [if ?b then _ else _] => destruct b
           end; reflexivity.
Qed.

(** Whatever the code, [getFullCode] returns a string that begins with
    a market, "sh", "sz" or "bj", in lower case. *)
Theorem getFullCode_marketPrefixed (code : string) :
  marketPrefixed (getFullCode code).
Proof.
  unfold getFullCode. destruct (hasMarketPrefix code) eqn:Hp.
  - now apply hasMarketPrefix_lower_prefixed.
  - unfold marketPrefixed.
    repeat match goal with
           | |- context [if ?b then _ else _] => destruct b
           end; eexists _, _; split; try reflexivity; auto.
Qed.

(** For a code that does not begin with a market, taking the market off
    the result of [getFullCode], as [parseQuoteData] does, gives the
    code back; for one that does, it gives the code without its market,
    in lower case. *)
Theorem getFullCode_strip (code : string) :
  stripMarketPrefix (getFullCode code)
  = if hasMarketPrefix code then toLowerCase (stripMarketPrefix code) else code.
Proof.
  unfold getFullCode. destruct (hasMarketPrefix code) eqn:Hp.
  - unfold stripMarketPrefix. rewrite hasMarketPrefix_lower, Hp.
    destruct code as [|a [|b r]]; try discriminate. reflexivity.
  - assert (Hclean : stripMarketPrefix code = code)
      by (unfold stripMarketPrefix; now rewrite Hp).
    rewrite Hclean.
    repeat match goal with
           | |- context [if ?b then _ else _] => destruct b
           end; reflexivity.
Qed.

(** [getFullCode] applied to its own result only puts it in lower case:
    a second application changes nothing any more. *)
Theorem getFullCode_again (code : string) :
  getFullCode (getFullCode code) = toLowerCase (getFullCode code)
  /\ getFullCode (getFullCode (getFullCode code)) = getFullCode (getFullCode code).
Proof.
  assert (H : forall s, hasMarketPrefix s = true -> getFullCode s = toLowerCase s).
  { intros s Hs. unfold getFullCode. now rewrite Hs. }
  pose proof (getFullCode_has code) as Hc.
  split; [now apply H|].
  rewrite (H _ Hc). rewrite H.
  - apply toLowerCase_idem.
  - now rewrite hasMarketPrefix_lower.
Qed.

(** ** isMarketOpen *)

(** [isMarketOpen] at the local time [now]: [day] is [now.getDay()]
    (0 is Sunday), [hour] is [now.getHours()], [minute] is
    [now.getMinutes()]. *)
Definition isMarketOpenAt (day hour minute : Z) : bool :=
  if ((day =? 0) || (day =? 6))%Z then false
  else
    let timeValue := (hour * 100 + minute)%Z in
    if ((930 <=? timeValue) && (timeValue <=? 1130))%Z then true
    else if ((1300 <=? timeValue) && (timeValue <=? 1500))%Z then true
    else false.

(** [hour * 100 + minute] reads the clock right: on a clock time the
    market is open exactly from Monday to Friday between 9:30 and 11:30
    and between 13:00 and 15:00, both ends included, the times counted
    in minutes since midnight. *)
Theorem isMarketOpenAt_minutes (day hour minute : Z) :
  (0 <= day <= 6)%Z -> (0 <= hour <= 23)%Z -> (0 <= minute <= 59)%Z ->
  let minutes := (60 * hour + minute)%Z in
  isMarketOpenAt day hour minute = true
  <-> ((1 <= day <= 5)%Z
       /\ ((9 * 60 + 30 <= minutes <= 11 * 60 + 30)%Z
           \/ (13 * 60 <= minutes <= 15 * 60)%Z)).
Proof.
  intros Hd Hh Hm minutes. subst minutes. unfold isMarketOpenAt.
  destruct (Z.eqb_spec day 0); destruct (Z.eqb_spec day 6); cbn [orb];
    try (split; intros Hopen; [discriminate Hopen | exfalso; lia]).
  destruct (Z.leb_spec 930 (hour * 100 + minute));
    destruct (Z.leb_spec (hour * 100 + minute) 1130);
    destruct (Z.leb_spec 1300 (hour * 100 + minute));
    destruct (Z.leb_spec (hour * 100 + minute) 1500); cbn [andb];
    (split; intros Hopen;
     [try discriminate Hopen; lia | try reflexivity; exfalso; lia]).
Qed.

Lemma isMarketOpenAt_minutes_witness :
  isMarketOpenAt 3 11 30 = true
  <-> ((1 <= 3 <= 5)%Z
       /\ ((9 * 60 + 30 <= 60 * 11 + 30 <= 11 * 60 + 30)%Z
           \/ (13 * 60 <= 60 * 11 + 30 <= 15 * 60)%Z)).
Proof.
  apply (isMarketOpenAt_minutes 3 11 30); lia.
Defined.

(** ** More on calculatePositions and analyzeTradeHistory *)

(** The entries of a map under one key. *)
Definition onlyCode {V : Type} (c : string) (m : JsMap.t V) : JsMap.t V :=
  filter (fun e => String.eqb (fst e) c) m.

Lemma get_onlyCode {V : Type} (c : string) (m : JsMap.t V) :
  JsMap.get c (onlyCode c m) = JsMap.get c m.
Proof.
  induction m as [|[k v] m IH]; simpl; [reflexivity|].
  rewrite (String.eqb_sym c k).
  destruct (String.eqb k c) eqn:E; simpl; [|exact IH].
  now rewrite (String.eqb_sym c k), E.
Qed.

Lemma set_onlyCode_same {V : Type} (c : string) (v : V) (m : JsMap.t V) :
  onlyCode c (JsMap.set c v m) = JsMap.set c v (onlyCode c m).
Proof.
  induction m as [|[k v0] m IH]; simpl.
  - now rewrite String.eqb_refl.
  - destruct (String.eqb c k) eqn:E; simpl.
    + rewrite (String.eqb_sym k c), E, String.eqb_refl. simpl. now rewrite E.
    + rewrite (String.eqb_sym k c), E. exact IH.
Qed.

Lemma set_onlyCode_other {V : Type} (c k : string) (v : V) (m : JsMap.t V) :
  String.eqb k c = false -> onlyCode c (JsMap.set k v m) = onlyCode c m.
Proof.
  intros Hk. induction m as [|[k0 v0] m IH]; simpl.
  - now rewrite Hk.
  - destruct (String.eqb_spec k k0) as [<-|Hne]; simpl.
    + now rewrite Hk.
    + now rewrite IH.
Qed.

Lemma set_keys {V : Type} (k : string) (v : V) (m : JsMap.t V) :
  NoDup (map fst m) ->
  NoDup (map fst (JsMap.set k v m))
  /\ (forall k', In k' (map fst (JsMap.set k v m)) <-> k' = k \/ In k' (map fst m)).
Proof.
  induction m as [|[k0 v0] m IH]; simpl; intros Hnd.
  - split; [repeat constructor; intros []|]. intros k'. split; intros [H|H]; auto.
  - inversion Hnd as [|? ? Hnotin Hnd']; subst.
    destruct (String.eqb_spec k k0) as [<-|Hne]; simpl.
    + split; [exact Hnd|]. intros k'. split; [intros [H|H]; auto|].
      intros [H|[H|H]]; auto.
    + destruct (IH Hnd') as [IH1 IH2]. split.
      * constructor; [|exact IH1]. rewrite IH2. intros [H|H]; congruence.
      * intros k'. rewrite IH2. split; [intros [H|[H|H]] | intros [H|[H|H]]]; auto.
Qed.

Lemma lookup_unique {V : Type} (k : string) (v : V) (m : JsMap.t V) :
  NoDup (map fst m) -> In (k, v) m -> JsMap.get k m = Some v.
Proof.
  induction m as [|[k0 v0] m IH]; simpl; intros Hnd Hin; [contradiction|].
  inversion Hnd as [|? ? Hnotin Hnd']; subst.
  destruct Hin as [[= -> ->]|Hin].
  - now rewrite String.eqb_refl.
  - destruct (String.eqb_spec k k0) as [->|Hne]; [|now apply IH].
    exfalso. apply Hnotin. now apply (in_map fst _ (k0, v)).
Qed.

Lemma min_right (x y : Qc) : y <= x -> Num.min x y = y.
Proof.
  intros H. unfold Num.min. destruct (Num.leb x y) eqn:E; [|reflexivity].
  apply leb_le in E. now apply Qcle_antisym.
Qed.

Section EngineProperties.

Variable getTime : string -> Z.

Lemma insert_first (x : Trade.t) (s : list Trade.t) :
  Forall (fun z => (getTime (Trade.date x) <= getTime (Trade.date z))%Z) s ->
  JsArray.insert (byDate getTime) x s = x :: s.
Proof.
  intros H. destruct H as [|z s Hz _]; simpl; [reflexivity|].
  unfold byDate. destruct (Z.leb_spec (getTime (Trade.date x) - getTime (Trade.date z)) 0);
    [reflexivity | lia].
Qed.

Lemma insert_later (x y : Trade.t) (s : list Trade.t) :
  (getTime (Trade.date y) < getTime (Trade.date x))%Z ->
  JsArray.insert (byDate getTime) x (y :: s)
  = y :: JsArray.insert (byDate getTime) x s.
Proof.
  intros H. simpl. unfold byDate.
  destruct (Z.leb_spec (getTime (Trade.date x) - getTime (Trade.date y)) 0);
    [lia | reflexivity].
Qed.

Lemma filter_insert (P : Trade.t -> bool) (x : Trade.t) (s : list Trade.t) :
  StronglySorted (fun a b => (getTime (Trade.date a) <= getTime (Trade.date b))%Z) s ->
  filter P (JsArray.insert (byDate getTime) x s)
  = if P x then JsArray.insert (byDate getTime) x (filter P s) else filter P s.
Proof.
  induction 1 as [|y s Hs IH Hall].
  - simpl. destruct (P x); reflexivity.
  - destruct (Z.le_gt_cases (getTime (Trade.date x)) (getTime (Trade.date y)))
      as [Hle|Hgt].
    + rewrite insert_first
        by (constructor; [exact Hle|]; eapply Forall_impl; [|exact Hall];
            simpl; intros; lia).
      cbn [filter]. destruct (P x) eqn:Px; [|reflexivity].
      symmetry. apply insert_first.
      assert (Hys : Forall (fun z => (getTime (Trade.date x)
                                      <= getTime (Trade.date z))%Z) (y :: s)).
      { constructor; [lia|]. eapply Forall_impl; [|exact Hall].
        simpl. intros; lia. }
      rewrite Forall_forall in *. intros z Hz. apply Hys.
      change (In z (filter P (y :: s))) in Hz.
      apply filter_In in Hz. tauto.
    + rewrite insert_later by lia. cbn [filter]. rewrite IH.
      destruct (P y) eqn:Py; destruct (P x) eqn:Px; try reflexivity.
      now rewrite insert_later by lia.
Qed.

Lemma sortedTrades_strongly (trades : list Trade.t) :
  StronglySorted (fun a b => (getTime (Trade.date a) <= getTime (Trade.date b))%Z)
    (sortedTrades getTime trades).
Proof.
  apply Sorted_StronglySorted; [|apply sortedTrades_sorted].
  intros a b c Hab Hbc. lia.
Qed.

(** Sorting by date and selecting trades can be done in either order. *)
Lemma sortedTrades_filter (P : Trade.t -> bool) (trades : list Trade.t) :
  filter P (sortedTrades getTime trades) = sortedTrades getTime (filter P trades).
Proof.
  induction trades as [|x l IH]; [reflexivity|].
  change (sortedTrades getTime (x :: l))
    with (JsArray.insert (byDate getTime) x (sortedTrades getTime l)).
  rewrite filter_insert by apply sortedTrades_strongly.
  simpl. destruct (P x); [|exact IH].
  change (sortedTrades getTime (x :: filter P l))
    with (JsArray.insert (byDate getTime) x (sortedTrades getTime (filter P l))).
  now rewrite IH.
Qed.

Lemma positionStep_onlyCode (c : string) (m : JsMap.t Holding.t) (t : Trade.t) :
  onlyCode c (positionStep m t)
  = if String.eqb (Trade.stockCode t) c
    then positionStep (onlyCode c m) t
    else onlyCode c m.
Proof.
  unfold positionStep, existingHolding.
  destruct (String.eqb_spec (Trade.stockCode t) c) as [->|Hne].
  - now rewrite set_onlyCode_same, get_onlyCode.
  - apply set_onlyCode_other. now apply String.eqb_neq.
Qed.

Lemma positionMap_onlyCode (c : string) (l : list Trade.t) (m : JsMap.t Holding.t) :
  onlyCode c (fold_left positionStep l m)
  = fold_left positionStep
      (filter (fun t => String.eqb (Trade.stockCode t) c) l) (onlyCode c m).
Proof.
  revert m. induction l as [|t l IH]; intros m; simpl; [reflexivity|].
  rewrite IH, positionStep_onlyCode.
  destruct (String.eqb (Trade.stockCode t) c); reflexivity.
Qed.

Lemma collectPositions_onlyCode (c : string) (currentPrices : JsMap.t Qc)
    (m : JsMap.t Holding.t) :
  collectPositions currentPrices (onlyCode c m)
  = filter (fun p => String.eqb (Position.stockCode p) c)
      (collectPositions currentPrices m).
Proof.
  induction m as [|[k h] m IH]; [reflexivity|].
  unfold onlyCode in *. cbn [filter fst].
  destruct (String.eqb k c) eqn:E; cbn [collectPositions];
    destruct (toPosition currentPrices (k, h)) as [p|] eqn:Hp;
    try exact IH;
    pose proof (toPosition_some _ _ _ Hp) as [_ [Hcode _]]; simpl in Hcode;
    cbn [filter]; rewrite Hcode, E, IH; reflexivity.
Qed.

(** The instruments do not influence each other: the positions of the
    trades of one code are the positions of that code among the
    positions of all trades, so narrowing the trades to a code, as the
    filter of the trade page does, shows the same figures for it. *)
Theorem calculatePositions_of_one_code (c : string) (trades : list Trade.t)
    (currentPrices : JsMap.t Qc) :
  calculatePositions getTime
    (filter (fun t => String.eqb (Trade.stockCode t) c) trades) currentPrices
  = filter (fun p => String.eqb (Position.stockCode p) c)
      (calculatePositions getTime trades currentPrices).
Proof.
  unfold calculatePositions, positionMap.
  rewrite <- collectPositions_onlyCode, positionMap_onlyCode.
  now rewrite sortedTrades_filter.
Qed.

Lemma positionStep_keys (m : JsMap.t Holding.t) (t : Trade.t) :
  NoDup (map fst m) -> NoDup (map fst (positionStep m t)).
Proof. intros H. unfold positionStep. now apply set_keys. Qed.

Lemma positionMap_keys (trades : list Trade.t) :
  NoDup (map fst (positionMap getTime trades)).
Proof.
  unfold positionMap.
  assert (H : forall l m, NoDup (map fst m) ->
                          NoDup (map fst (fold_left positionStep l m))).
  { induction l as [|t l IH]; intros m Hm; simpl; [exact Hm|].
    apply IH. now apply positionStep_keys. }
  apply H. constructor.
Qed.

Lemma collectPositions_codes (currentPrices : JsMap.t Qc) (m : JsMap.t Holding.t) :
  NoDup (map fst m) ->
  NoDup (map Position.stockCode (collectPositions currentPrices m))
  /\ (forall c, In c (map Position.stockCode (collectPositions currentPrices m)) ->
                In c (map fst m)).
Proof.
  induction m as [|[k h] m IH]; cbn [map fst collectPositions]; intros Hnd.
  - split; [constructor | auto].
  - inversion Hnd as [|? ? Hnotin Hnd']; subst.
    destruct (IH Hnd') as [IH1 IH2].
    destruct (toPosition currentPrices (k, h)) as [p|] eqn:Hp.
    + pose proof (toPosition_some _ _ _ Hp) as [_ [Hcode _]]. simpl in Hcode.
      cbn [map]. rewrite Hcode. split.
      * constructor; [|exact IH1]. intros Hin. apply Hnotin. now apply IH2.
      * intros c [H|H]; [now left | right; now apply IH2].
    + split; [exact IH1|]. intros c H. right. now apply IH2.
Qed.

(** One position per instrument: no two positions of
    [calculatePositions] have the same [stockCode]. *)
Theorem calculatePositions_distinct_codes (trades : list Trade.t)
    (currentPrices : JsMap.t Qc) :
  NoDup (map Position.stockCode (calculatePositions getTime trades currentPrices)).
Proof.
  unfold calculatePositions. apply collectPositions_codes, positionMap_keys.
Qed.

(** Selling all that is held closes the position: when the last trade
    in time is a sell of at least the quantity its instrument holds by
    then, [calculatePositions] returns no position for the
    instrument. *)
Theorem calculatePositions_sold_out (trades pre : list Trade.t) (trade : Trade.t)
    (currentPrices : JsMap.t Qc) :
  sortedTrades getTime trades = pre ++ [trade] ->
  Trade.type trade = sell ->
  Holding.totalQuantity (existingHolding (fold_left positionStep pre JsMap.empty) trade)
  <= Trade.quantity trade ->
  forall p, In p (calculatePositions getTime trades currentPrices) ->
            Position.stockCode p <> Trade.stockCode trade.
Proof.
  intros Hsort Hty Hall p Hin Hcode.
  unfold calculatePositions in Hin.
  pose proof (positionMap_keys trades) as Hkeys.
  destruct (in_collectPositions _ _ _ Hin) as [[k h] [Hentry Hp]].
  pose proof (toPosition_some _ _ _ Hp) as [Hpos [Hk _]]. simpl in Hpos, Hk.
  rewrite Hcode in Hk. subst k.
  pose proof (lookup_unique _ _ _ Hkeys Hentry) as Hget.
  unfold positionMap in Hget. rewrite Hsort, fold_left_app in Hget.
  cbn [fold_left] in Hget.
  set (m := fold_left positionStep pre JsMap.empty) in *.
  unfold positionStep in Hget. rewrite JsMapFacts.get_set_same in Hget.
  injection Hget as <-. simpl in Hpos.
  destruct (applyTrade_sell (existingHolding m trade) trade Hty) as [Hheld Hempty].
  destruct (Qclt_le_dec 0 (Holding.totalQuantity (existingHolding m trade)))
    as [Hlt|Hle].
  - destruct (Hheld Hlt) as [_ [Hq _]]. rewrite Hq in Hpos.
    rewrite (min_right _ _ Hall) in Hpos. qc_lra.
  - rewrite (Hempty Hle) in Hpos. qc_lra.
Qed.

Lemma points_of_trades (l : list Trade.t) (st : AnalysisState) :
  exists suffix,
    points (fold_left analysisStep l st) = points st ++ suffix
    /\ Forall2
         (fun pt t =>
            AnalysisPoint.date pt = beforeT (Trade.date t)
            /\ AnalysisPoint.cost pt = Trade.price t * Trade.quantity t
            /\ (Trade.type t = buy -> AnalysisPoint.profit pt = 0))
         suffix l.
Proof.
  revert st. induction l as [|t l IH]; intros st; simpl.
  - exists []. split; [now rewrite app_nil_r | constructor].
  - destruct (IH (analysisStep st t)) as [suffix [Hp HF]]. rewrite Hp.
    unfold analysisStep at 1, tradeEffect.
    destruct (Trade.type t) eqn:Hty;
      [|destruct (Num.ltb 0 (Inventory.quantity (inventoryOf (stockInventory st) t)))];
      simpl; rewrite <- app_assoc; eexists; (split; [reflexivity|]);
      (constructor; [|exact HF]); simpl; repeat split; auto;
      intros Hb; rewrite Hty in Hb; discriminate Hb.
Qed.

(** [analyzeTradeHistory] returns one point per trade, in the order of
    the trades' times; the point of a trade has the day of its date and
    [price*quantity] as its cost, and the point of a buy has profit
    0. *)
Theorem analyzeTradeHistory_point_per_trade (trades : list Trade.t) :
  Forall2
    (fun pt t =>
       AnalysisPoint.date pt = beforeT (Trade.date t)
       /\ AnalysisPoint.cost pt = Trade.price t * Trade.quantity t
       /\ (Trade.type t = buy -> AnalysisPoint.profit pt = 0))
    (analyzeTradeHistory getTime trades) (sortedTrades getTime trades).
Proof.
  unfold analyzeTradeHistory, analysisRun.
  destruct (points_of_trades (sortedTrades getTime trades) initialState)
    as [suffix [Hp HF]].
  rewrite Hp. exact HF.
Qed.

End EngineProperties.

Lemma calculatePositions_sold_out_witness :
  Forall (fun p => Position.stockCode p <> "X")
    (calculatePositions dayNumber
       [sampleTrade "X" buy 10 100 "2024-01-02" (Some 5%Q);
        sampleTrade "Y" buy 3 20 "2024-01-02" None;
        sampleTrade "X" sell 12 100 "2024-01-03" (Some 2%Q)] []).
Proof.
  apply Forall_forall. intros p Hp.
  refine (calculatePositions_sold_out dayNumber _
            [sampleTrade "X" buy 10 100 "2024-01-02" (Some 5%Q);
             sampleTrade "Y" buy 3 20 "2024-01-02" None]
            (sampleTrade "X" sell 12 100 "2024-01-03" (Some 2%Q)) [] _ _ _ p Hp).
  - reflexivity.
  - reflexivity.
  - vm_compute. discriminate.
Defined.

(** ** The ledger ([src/hooks/useTrades.ts])

    The state updaters of [useTrades], as functions from the previous
    array of trades to the next. *)

(** [ids.includes(x)], and [set.has(x)] for a [Set] built from [ids]. *)
Definition includes (ids : list string) (x : string) : bool :=
  existsb (String.eqb x) ids.

Definition addTrade (trade : Trade.t) (prev : list Trade.t) : list Trade.t :=
  prev ++ [trade].

Definition deleteTrade (id : string) (prev : list Trade.t) : list Trade.t :=
  filter (fun t => negb (String.eqb (Trade.id t) id)) prev.

Definition batchDeleteTrades (ids : list string) (prev : list Trade.t) : list Trade.t :=
  filter (fun t => negb (includes ids (Trade.id t))) prev.

Definition importTrades (newTrades prev : list Trade.t) : list Trade.t :=
  let existingIds := map Trade.id prev in
  let filteredNew := filter (fun t => negb (includes existingIds (Trade.id t))) newTrades in
  prev ++ filteredNew.

(** [Partial<Trade>]: each field is there or not; an optional field that
    is there may hold [undefined]. *)
Module TradeUpdates.
Record t : Type := mk {
  id : option string;
  stockCode : option string;
  stockName : option string;
  type : option TradeType;
  price : option Qc;
  quantity : option Qc;
  date : option string;
  commission : option (option Qc);
  tags : option (option (list string))
}.
End TradeUpdates.

Definition orElse {A : Type} (u : option A) (d : A) : A :=
  match u with Some a => a | None => d end.

(** [{ ...t, ...updates }]. *)
Definition applyUpdates (t : Trade.t) (updates : TradeUpdates.t) : Trade.t :=
  Trade.mk
    (orElse (TradeUpdates.id updates) (Trade.id t))
    (orElse (TradeUpdates.stockCode updates) (Trade.stockCode t))
    (orElse (TradeUpdates.stockName updates) (Trade.stockName t))
    (orElse (TradeUpdates.type updates) (Trade.type t))
    (orElse (TradeUpdates.price updates) (Trade.price t))
    (orElse (TradeUpdates.quantity updates) (Trade.quantity t))
    (orElse (TradeUpdates.date updates) (Trade.date t))
    (orElse (TradeUpdates.commission updates) (Trade.commission t))
    (orElse (TradeUpdates.tags updates) (Trade.tags t)).

Definition updateTrade (id : string) (updates : TradeUpdates.t) (prev : list Trade.t)
  : list Trade.t :=
  map (fun t => if String.eqb (Trade.id t) id then applyUpdates t updates else t) prev.

(** A whole trade passed as the updates, as [handleAddTrade] does with
    the trade of the form. *)
Definition wholeTrade (trade : Trade.t) : TradeUpdates.t :=
  TradeUpdates.mk
    (Some (Trade.id trade)) (Some (Trade.stockCode trade))
    (Some (Trade.stockName trade)) (Some (Trade.type trade))
    (Some (Trade.price trade)) (Some (Trade.quantity trade))
    (Some (Trade.date trade)) (Some (Trade.commission trade))
    (Some (Trade.tags trade)).

Definition togglePinTag (tag : string) (prev : list string) : list string :=
  if includes prev tag
  then filter (fun t => negb (String.eqb t tag)) prev
  else prev ++ [tag].

Lemma includes_In (ids : list string) (x : string) :
  includes ids x = true <-> In x ids.
Proof.
  unfold includes. rewrite existsb_exists. split.
  - intros [y [Hy E]]. apply String.eqb_eq in E. now subst.
  - intros H. exists x. split; [exact H | apply String.eqb_refl].
Qed.

Lemma includes_false (ids : list string) (x : string) :
  includes ids x = false <-> ~ In x ids.
Proof.
  rewrite <- includes_In. destruct (includes ids x); split; congruence.
Qed.

(** Adding a trade under an id the ledger does not have and deleting
    that id gives the ledger back. *)
Theorem deleteTrade_addTrade (trade : Trade.t) (prev : list Trade.t) :
  ~ In (Trade.id trade) (map Trade.id prev) ->
  deleteTrade (Trade.id trade) (addTrade trade prev) = prev.
Proof.
  intros Hfresh. unfold deleteTrade, addTrade. rewrite filter_app. simpl.
  rewrite String.eqb_refl. simpl. rewrite app_nil_r.
  induction prev as [|t prev IH]; simpl in *; [reflexivity|].
  destruct (String.eqb_spec (Trade.id t) (Trade.id trade)) as [E|E]; simpl.
  - exfalso. apply Hfresh. now left.
  - f_equal. apply IH. intros H. apply Hfresh. now right.
Qed.

Lemma batchDeleteTrades_cons (id : string) (ids : list string) (prev : list Trade.t) :
  batchDeleteTrades (id :: ids) prev = deleteTrade id (batchDeleteTrades ids prev).
Proof.
  assert (Hinc : forall x, includes (id :: ids) x
                           = String.eqb x id || includes ids x)
    by reflexivity.
  unfold batchDeleteTrades, deleteTrade.
  induction prev as [|t prev IH]; [reflexivity|].
  cbn [filter]. rewrite Hinc, IH.
  destruct (String.eqb (Trade.id t) id) eqn:E;
    destruct (includes ids (Trade.id t)) eqn:F;
    cbn [orb negb filter]; rewrite ?E; reflexivity.
Qed.

(** A batch delete is the deletes of its ids one after the other, and
    leaves exactly the trades under other ids. *)
Theorem batchDeleteTrades_deletes (ids : list string) (prev : list Trade.t) :
  batchDeleteTrades ids prev = fold_right deleteTrade prev ids
  /\ (forall t, In t (batchDeleteTrades ids prev) <->
                In t prev /\ ~ In (Trade.id t) ids).
Proof.
  split.
  - induction ids as [|id ids IH]; simpl.
    + unfold batchDeleteTrades. simpl.
      induction prev as [|t prev IHp]; simpl; congruence.
    + now rewrite batchDeleteTrades_cons, IH.
  - intros t. unfold batchDeleteTrades. rewrite filter_In, Bool.negb_true_iff.
    now rewrite includes_false.
Qed.

Lemma filter_none {A : Type} (P : A -> bool) (l : list A) :
  (forall x, In x l -> P x = false) -> filter P l = [].
Proof.
  induction l as [|x l IH]; simpl; intros H; [reflexivity|].
  rewrite (H x (or_introl eq_refl)). apply IH. intros y Hy. apply H. now right.
Qed.

(** An import never changes or drops a trade of the ledger, adds the
    trades whose ids the ledger does not have, and importing the same
    file once more adds nothing. *)
Theorem importTrades_again (newTrades prev : list Trade.t) :
  firstn (List.length prev) (importTrades newTrades prev) = prev
  /\ (forall t, In t (importTrades newTrades prev) <->
                In t prev \/ (In t newTrades /\ ~ In (Trade.id t) (map Trade.id prev)))
  /\ importTrades newTrades (importTrades newTrades prev)
     = importTrades newTrades prev.
Proof.
  assert (Hin : forall t, In t (importTrades newTrades prev) <->
                  In t prev
                  \/ (In t newTrades /\ ~ In (Trade.id t) (map Trade.id prev))).
  { intros t. unfold importTrades. rewrite in_app_iff, filter_In.
    now rewrite Bool.negb_true_iff, includes_false. }
  split; [|split; [exact Hin|]].
  - unfold importTrades. rewrite firstn_app, Nat.sub_diag, firstn_all. simpl.
    apply app_nil_r.
  - unfold importTrades at 1. rewrite filter_none; [apply app_nil_r|].
    intros t Ht. apply Bool.negb_false_iff, includes_In.
    destruct (in_dec string_dec (Trade.id t) (map Trade.id prev)) as [Hold|Hnew].
    + apply in_map_iff in Hold. destruct Hold as [t' [E Ht']].
      apply in_map_iff. exists t'. split; [exact E|]. apply Hin. now left.
    + apply in_map. apply Hin. right. auto.
Qed.

(** An import keeps the ids of the ledger distinct when the ids of the
    imported trades are distinct. *)
Theorem importTrades_distinct_ids (newTrades prev : list Trade.t) :
  NoDup (map Trade.id prev) ->
  NoDup (map Trade.id newTrades) ->
  NoDup (map Trade.id (importTrades newTrades prev)).
Proof.
  intros Hprev Hnew. unfold importTrades. rewrite map_app. apply NoDup_app.
  - exact Hprev.
  - induction newTrades as [|t l IH]; simpl; [constructor|].
    inversion Hnew as [|? ? Hnotin Hl]; subst.
    destruct (includes (map Trade.id prev) (Trade.id t)); simpl; [now apply IH|].
    constructor; [|now apply IH].
    intros Hin. apply Hnotin. apply in_map_iff in Hin.
    destruct Hin as [t' [E Ht']]. apply filter_In in Ht'.
    apply in_map_iff. exists t'. tauto.
  - intros id Hid Hid'. apply in_map_iff in Hid'. destruct Hid' as [t [<- Ht]].
    apply filter_In in Ht. destruct Ht as [_ Ht].
    apply Bool.negb_true_iff, includes_false in Ht. contradiction.
Qed.

(** [updateTrade] keeps the order and the number of the trades and
    leaves the trades under other ids as they are; when the updates do
    not set [id], the ids stay as they are. *)
Theorem updateTrade_others (id : string) (updates : TradeUpdates.t)
    (prev : list Trade.t) :
  List.length (updateTrade id updates prev) = List.length prev
  /\ (forall n t, nth_error prev n = Some t -> Trade.id t <> id ->
                  nth_error (updateTrade id updates prev) n = Some t)
  /\ (TradeUpdates.id updates = None ->
      map Trade.id (updateTrade id updates prev) = map Trade.id prev).
Proof.
  unfold updateTrade. split; [apply length_map|]. split.
  - intros n t Hn Hne. rewrite nth_error_map, Hn. simpl.
    destruct (String.eqb_spec (Trade.id t) id); congruence.
  - intros Hid. rewrite map_map. apply map_ext. intros t.
    destruct (String.eqb (Trade.id t) id); [|reflexivity].
    unfold applyUpdates. rewrite Hid. reflexivity.
Qed.

(** Editing a trade, the form keeping its id, and editing it back to
    what it was gives the ledger back, when the ids of the ledger are
    distinct. *)
Theorem updateTrade_back (trade edited : Trade.t) (prev : list Trade.t) :
  NoDup (map Trade.id prev) ->
  In trade prev ->
  Trade.id edited = Trade.id trade ->
  updateTrade (Trade.id trade) (wholeTrade trade)
    (updateTrade (Trade.id trade) (wholeTrade edited) prev)
  = prev.
Proof.
  intros Hnd Hin Hid. unfold updateTrade. rewrite map_map.
  rewrite <- (map_id prev) at 2. apply map_ext_in. intros t Ht.
  destruct (String.eqb_spec (Trade.id t) (Trade.id trade)) as [E|E].
  - assert (Ha : applyUpdates t (wholeTrade edited) = edited)
      by (destruct edited; reflexivity).
    rewrite Ha, Hid, String.eqb_refl.
    assert (Hb : applyUpdates edited (wholeTrade trade) = trade)
      by (destruct trade; reflexivity).
    rewrite Hb. clear - Hnd Hin Ht E.
    induction prev as [|x prev IH]; simpl in *; [contradiction|].
    inversion Hnd as [|? ? Hnotin Hnd']; subst.
    destruct Hin as [->|Hin]; destruct Ht as [->|Ht]; auto.
    + exfalso. apply Hnotin. rewrite <- E. now apply in_map.
    + exfalso. apply Hnotin. rewrite E. now apply in_map.
  - destruct (String.eqb_spec (Trade.id t) (Trade.id trade)); congruence.
Qed.

(** [togglePinTag] pins a tag that is not pinned and unpins one that
    is, and leaves the other tags as they are; toggling twice gives the
    list back when the tag was not pinned, and moves the tag to the end
    when it was. *)
Theorem togglePinTag_flips (tag : string) (prev : list string) :
  (In tag (togglePinTag tag prev) <-> ~ In tag prev)
  /\ (forall t, t <> tag -> (In t (togglePinTag tag prev) <-> In t prev))
  /\ togglePinTag tag (togglePinTag tag prev)
     = if includes prev tag
       then filter (fun t => negb (String.eqb t tag)) prev ++ [tag]
       else prev.
Proof.
  assert (Hfil : forall l, ~ In tag (filter (fun t => negb (String.eqb t tag)) l)).
  { intros l H. apply filter_In in H. destruct H as [_ H].
    now rewrite String.eqb_refl in H. }
  assert (Hkeep : forall l, ~ In tag l ->
                            filter (fun t => negb (String.eqb t tag)) l = l).
  { induction l as [|x l IH]; simpl; intros H; [reflexivity|].
    destruct (String.eqb_spec x tag) as [->|E]; simpl.
    - exfalso. apply H. now left.
    - f_equal. apply IH. intros H'. apply H. now right. }
  assert (Hdef : togglePinTag tag prev
                 = if includes prev tag
                   then filter (fun t => negb (String.eqb t tag)) prev
                   else prev ++ [tag]) by reflexivity.
  rewrite Hdef. clear Hdef. destruct (includes prev tag) eqn:Hinc.
  - apply includes_In in Hinc. split; [|split].
    + split; [intros H; exfalso; exact (Hfil _ H) | intros H; contradiction].
    + intros t Ht. rewrite filter_In. split; [tauto|]. intros H. split; [exact H|].
      apply Bool.negb_true_iff. now apply String.eqb_neq.
    + unfold togglePinTag.
      rewrite (proj2 (includes_false _ _) (Hfil prev)). reflexivity.
  - apply includes_false in Hinc. split; [|split].
    + rewrite in_app_iff. simpl. tauto.
    + intros t Ht. rewrite in_app_iff. simpl. split; [|tauto].
      intros [H|[H|[]]]; [exact H | congruence].
    + unfold togglePinTag.
      assert (Hnow : includes (prev ++ [tag]) tag = true)
        by (apply includes_In, in_app_iff; right; now left).
      rewrite Hnow, filter_app. simpl. rewrite String.eqb_refl. simpl.
      rewrite app_nil_r. now apply Hkeep.
Qed.

(** ** Quotes and prices ([src/hooks/useStockQuote.ts], [src/App.tsx]) *)

Module StockQuote.
Record t : Type := mk {
  code : string;
  name : string;
  price : Qc;
  change : Qc;
  changePercent : Qc
}.
End StockQuote.

(** [map.has(k)]. *)
Definition has {V : Type} (k : string) (m : JsMap.t V) : bool :=
  match JsMap.get k m with Some _ => true | None => false end.

(** The updater of [setManualPrice]: a copy of the quotes with the
    quote of [code] replaced; [name] is the optional argument. *)
Definition setManualPrice (code : string) (price : Qc) (name : option string)
    (prev : JsMap.t StockQuote.t) : JsMap.t StockQuote.t :=
  let existing := JsMap.get code prev in
  JsMap.set code
    (StockQuote.mk code
       (strOr (orElse name "")
          (strOr (match existing with Some q => StockQuote.name q | None => "" end)
             code))
       price 0 0)
    prev.

(** [currentPrices] of [App]: the price of every quote, under its
    key. *)
Definition currentPricesOf (quotes : JsMap.t StockQuote.t) : JsMap.t Qc :=
  fold_left (fun prices entry => JsMap.set (fst entry) (StockQuote.price (snd entry)) prices)
    quotes JsMap.empty.

(** One iteration of [trades.forEach] in [allStocks]. *)
Definition allStocksStep (stockMap : JsMap.t string) (t : Trade.t) : JsMap.t string :=
  if has (Trade.stockCode t) stockMap then stockMap
  else JsMap.set (Trade.stockCode t) (Trade.stockName t) stockMap.

(** [allStocks] of [App]: the entries of [stockMap], a code and a name
    each. *)
Definition allStocks (trades : list Trade.t) : list (string * string) :=
  fold_left allStocksStep trades JsMap.empty.

Definition allStockCodes (trades : list Trade.t) : list string :=
  map fst (allStocks trades).

Lemma get_set_other {V : Type} (k k' : string) (v : V) (m : JsMap.t V) :
  k <> k' -> JsMap.get k' (JsMap.set k v m) = JsMap.get k' m.
Proof.
  intros Hne. induction m as [|[k0 v0] m IH]; simpl.
  - destruct (String.eqb_spec k' k); congruence.
  - destruct (String.eqb_spec k k0) as [->|Hk]; simpl.
    + destruct (String.eqb_spec k' k0); congruence.
    + now rewrite IH.
Qed.

Lemma get_not_in {V : Type} (k : string) (m : JsMap.t V) :
  ~ In k (map fst m) -> JsMap.get k m = None.
Proof.
  induction m as [|[k0 v0] m IH]; simpl; intros H; [reflexivity|].
  destruct (String.eqb_spec k k0) as [->|Hne]; [exfalso; auto|].
  apply IH. intros Hin. apply H. now right.
Qed.

Lemma currentPrices_fold (quotes : JsMap.t StockQuote.t) (prices : JsMap.t Qc)
    (c : string) :
  NoDup (map fst quotes) ->
  JsMap.get c (fold_left (fun prices entry =>
                            JsMap.set (fst entry) (StockQuote.price (snd entry)) prices)
                 quotes prices)
  = match JsMap.get c quotes with
    | Some q => Some (StockQuote.price q)
    | None => JsMap.get c prices
    end.
Proof.
  revert prices. induction quotes as [|[k q] quotes IH]; intros prices Hnd; simpl;
    [reflexivity|].
  inversion Hnd as [|? ? Hnotin Hnd']; subst.
  rewrite IH by exact Hnd'.
  destruct (String.eqb_spec c k) as [->|Hne].
  - rewrite (get_not_in k quotes Hnotin). apply JsMapFacts.get_set_same.
  - destruct (JsMap.get c quotes); [reflexivity|].
    apply get_set_other. congruence.
Qed.

(** The price map holds, for every code, the price of its quote, and
    nothing for a code without a quote. *)
Lemma currentPricesOf_get (quotes : JsMap.t StockQuote.t) (c : string) :
  NoDup (map fst quotes) ->
  JsMap.get c (currentPricesOf quotes) = option_map StockQuote.price (JsMap.get c quotes).
Proof.
  intros Hnd. unfold currentPricesOf. rewrite currentPrices_fold by exact Hnd.
  destruct (JsMap.get c quotes); reflexivity.
Qed.

Lemma setManualPrice_get (code : string) (price : Qc) (name : option string)
    (prev : JsMap.t StockQuote.t) :
  NoDup (map fst prev) ->
  JsMap.get code (currentPricesOf (setManualPrice code price name prev)) = Some price.
Proof.
  intros Hnd. rewrite currentPricesOf_get by (now apply set_keys).
  unfold setManualPrice. now rewrite JsMapFacts.get_set_same.
Qed.

(** After a price is entered by hand for a code, the price map has
    that price for the code and the prices it had for all other codes;
    the quotes keep distinct keys. *)
Theorem setManualPrice_price (code : string) (price : Qc) (name : option string)
    (prev : JsMap.t StockQuote.t) :
  NoDup (map fst prev) ->
  let quotes := setManualPrice code price name prev in
  NoDup (map fst quotes)
  /\ JsMap.get code (currentPricesOf quotes) = Some price
  /\ (forall c, c <> code ->
                JsMap.get c (currentPricesOf quotes) = JsMap.get c (currentPricesOf prev)).
Proof.
  intros Hnd quotes.
  assert (Hnd' : NoDup (map fst quotes)) by (now apply set_keys).
  split; [exact Hnd'|]. split.
  - now apply setManualPrice_get.
  - intros c Hc. rewrite !currentPricesOf_get by assumption.
    unfold quotes, setManualPrice. rewrite get_set_other by congruence. reflexivity.
Qed.

(** What a position shows of the price of its code. *)
Lemma toPosition_price (currentPrices : JsMap.t Qc) (entry : string * Holding.t)
    (p : Position.t) :
  toPosition currentPrices entry = Some p ->
  Position.currentPrice p = JsMap.get (fst entry) currentPrices
  /\ Position.marketValue p
     = option_map (fun cp => cp * Position.totalQuantity p) (Position.currentPrice p)
  /\ Position.profitLoss p
     = option_map (fun mv => mv - Position.totalCost p) (Position.marketValue p).
Proof.
  destruct entry as [code data]. unfold toPosition. simpl.
  destruct (Num.leb (Holding.totalQuantity data) 0); [discriminate|].
  destruct (JsMap.get code currentPrices); intros [= <-]; simpl; auto.
Qed.

Lemma has_In {V : Type} (k : string) (m : JsMap.t V) :
  has k m = true <-> In k (map fst m).
Proof.
  unfold has. induction m as [|[k0 v0] m IH]; simpl.
  - split; [discriminate | contradiction].
  - destruct (String.eqb_spec k k0) as [->|Hne].
    + split; auto.
    + rewrite IH. split; [auto|]. intros [H|H]; [congruence | exact H].
Qed.

Lemma allStocks_fold (l : list Trade.t) (m : JsMap.t string) :
  NoDup (map fst m) ->
  let r := fold_left allStocksStep l m in
  NoDup (map fst r)
  /\ (forall c, In c (map fst r) <->
                In c (map fst m) \/ exists t, In t l /\ Trade.stockCode t = c)
  /\ (forall c, JsMap.get c r
                = match JsMap.get c m with
                  | Some n => Some n
                  | None =>
                      option_map Trade.stockName
                        (find (fun t => String.eqb (Trade.stockCode t) c) l)
                  end).
Proof.
  revert m. induction l as [|t l IH]; intros m Hnd; simpl.
  - split; [exact Hnd|]. split.
    + intros c. split; [auto|]. intros [H|[t [[] _]]]. exact H.
    + intros c. destruct (JsMap.get c m); reflexivity.
  - unfold allStocksStep at 2 4 6. destruct (has (Trade.stockCode t) m) eqn:Hhas.
    + destruct (IH m Hnd) as [H1 [H2 H3]]. split; [exact H1|]. split.
      * intros c. rewrite H2. split.
        -- intros [H|[t' [Ht' E]]]; [now left | right; exists t'; auto].
        -- intros [H|[t' [[<-|Ht'] E]]]; [now left | | right; exists t'; auto].
           left. rewrite <- E. now apply has_In.
      * intros c. rewrite H3. destruct (JsMap.get c m) eqn:Hg; [reflexivity|].
        destruct (String.eqb_spec (Trade.stockCode t) c) as [E|E]; [|reflexivity].
        exfalso. unfold has in Hhas. rewrite E, Hg in Hhas. discriminate.
    + destruct (set_keys (Trade.stockCode t) (Trade.stockName t) m Hnd) as [Hnd' Hkeys].
      destruct (IH _ Hnd') as [H1 [H2 H3]]. split; [exact H1|]. split.
      * intros c. rewrite H2, Hkeys. split.
        -- intros [[->|H]|[t' [Ht' E]]];
             [right; exists t; auto | now left | right; exists t'; auto].
        -- intros [H|[t' [[<-|Ht'] E]]];
             [left; now right | left; left; now rewrite E | right; exists t'; auto].
      * intros c. rewrite H3.
        destruct (String.eqb_spec (Trade.stockCode t) c) as [E|E].
        -- rewrite <- E, JsMapFacts.get_set_same.
           unfold has in Hhas. destruct (JsMap.get (Trade.stockCode t) m);
             [discriminate | reflexivity].
        -- rewrite get_set_other by exact E. reflexivity.
Qed.

(** [allStocks] lists every code of the trades once, in the order of
    its first trade, with the name of its first trade. *)
Theorem allStocks_first_names (trades : list Trade.t) :
  NoDup (allStockCodes trades)
  /\ (forall c, In c (allStockCodes trades) <->
                exists t, In t trades /\ Trade.stockCode t = c)
  /\ (forall c, JsMap.get c (allStocks trades)
                = option_map Trade.stockName
                    (find (fun t => String.eqb (Trade.stockCode t) c) trades)).
Proof.
  destruct (allStocks_fold trades JsMap.empty) as [H1 [H2 H3]]; [constructor|].
  split; [exact H1|]. split.
  - intros c. unfold allStockCodes, allStocks. rewrite (H2 c). simpl. tauto.
  - intros c. exact (H3 c).
Qed.

Section PriceProperties.

Variable getTime : string -> Z.

(** A price entered by hand shows in the position of its code: the
    position has that price, [marketValue = price * totalQuantity] and
    [profitLoss = marketValue - totalCost]. *)
Theorem manual_price_in_position (code : string) (price : Qc) (name : option string)
    (quotes : JsMap.t StockQuote.t) (trades : list Trade.t) (p : Position.t) :
  NoDup (map fst quotes) ->
  In p (calculatePositions getTime trades
          (currentPricesOf (setManualPrice code price name quotes))) ->
  Position.stockCode p = code ->
  Position.currentPrice p = Some price
  /\ Position.marketValue p = Some (price * Position.totalQuantity p)
  /\ Position.profitLoss p
     = Some (price * Position.totalQuantity p - Position.totalCost p).
Proof.
  intros Hnd Hin Hcode. unfold calculatePositions in Hin.
  destruct (in_collectPositions _ _ _ Hin) as [entry [_ Hp]].
  pose proof (toPosition_some _ _ _ Hp) as [_ [Hk _]].
  destruct (toPosition_price _ _ _ Hp) as [Hcp [Hmv Hpl]].
  rewrite <- Hk, Hcode in Hcp.
  rewrite (setManualPrice_get code price name quotes Hnd) in Hcp. rewrite Hpl, Hmv, Hcp. auto.
Qed.

(** Prices are asked for every instrument that has a position: the
    code of every position is among [allStockCodes]. *)
Theorem positions_have_stock_codes (trades : list Trade.t)
    (currentPrices : JsMap.t Qc) (p : Position.t) :
  In p (calculatePositions getTime trades currentPrices) ->
  In (Position.stockCode p) (allStockCodes trades).
Proof.
  intros Hin.
  destruct (allStocks_fold trades JsMap.empty) as [_ [Hcodes _]]; [constructor|].
  unfold allStockCodes, allStocks. apply Hcodes. right.
  unfold calculatePositions in Hin.
  destruct (in_collectPositions _ _ _ Hin) as [entry [Hentry Hp]].
  pose proof (toPosition_some _ _ _ Hp) as [_ [Hk _]]. rewrite Hk.
  assert (Hkeys : forall l m k,
             In k (map fst (fold_left positionStep l m)) ->
             In k (map fst m) \/ exists t, In t l /\ Trade.stockCode t = k).
  { induction l as [|t l IH]; intros m k Hk'; simpl in Hk'; [now left|].
    destruct (IH _ _ Hk') as [H|[t' [Ht' E]]].
    - unfold positionStep in H.
      assert (Hset : forall (v : Holding.t) k0 m0,
                 In k (map fst (JsMap.set k0 v m0)) -> k = k0 \/ In k (map fst m0)).
      { intros v k0 m0. induction m0 as [|[k1 v1] m0 IHm]; simpl.
        - intros [<-|[]]. now left.
        - destruct (String.eqb_spec k0 k1) as [->|Hne]; simpl.
          + intros [<-|H']; auto.
          + intros [<-|H']; auto. destruct (IHm H'); auto. }
      destruct (Hset _ _ _ H) as [->|H']; [right; exists t; simpl; auto | now left].
    - right. exists t'. simpl. auto. }
  destruct (Hkeys _ _ _ (in_map fst _ _ Hentry)) as [[]|[t [Ht E]]].
  exists t. split; [|exact E].
  exact (Permutation_in _ (sortedTrades_perm getTime trades) Ht).
Qed.

End PriceProperties.

(** ** The analysis chart ([src/components/TradeAnalysisChart.tsx]) *)

(** One iteration of [data.forEach] in [processedData]: the point of a
    date the map has is added to, a point of a new date is copied into
    the map.  The additions are exact here; [Engine.collapseStep] has
    them in the arithmetic of the code. *)
Definition collapseStep (m : JsMap.t AnalysisPoint.t) (p : AnalysisPoint.t)
  : JsMap.t AnalysisPoint.t :=
  match JsMap.get (AnalysisPoint.date p) m with
  | Some existing =>
      JsMap.set (AnalysisPoint.date p)
        (AnalysisPoint.mk (AnalysisPoint.date existing)
           (AnalysisPoint.cost existing + AnalysisPoint.cost p)
           (AnalysisPoint.profit existing + AnalysisPoint.profit p)
           (AnalysisPoint.cumulativeCost p))
        m
  | None => JsMap.set (AnalysisPoint.date p) p m
  end.

Definition collapsed (data : list AnalysisPoint.t) : JsMap.t AnalysisPoint.t :=
  fold_left collapseStep data JsMap.empty.

Section Chart.

Variable getTime : string -> Z.

Definition byPointDate (a b : AnalysisPoint.t) : Z :=
  (getTime (AnalysisPoint.date a) - getTime (AnalysisPoint.date b))%Z.

Definition processedData (data : list AnalysisPoint.t) : list AnalysisPoint.t :=
  if (List.length data =? 0)%nat then []
  else JsArray.sort byPointDate (map snd (collapsed data)).

End Chart.









Section ChartProperties.

Variable getTime : string -> Z.


Lemma sum_values_set {V : Type} (f : V -> Qc) (k : string) (v : V) (m : JsMap.t V) :
  sumQ (map (fun e => f (snd e)) (JsMap.set k v m))
  = sumQ (map (fun e => f (snd e)) m)
    + (f v - match JsMap.get k m with Some o => f o | None => 0 end).
Proof.
  induction m as [|[k0 v0] m IH]; simpl.
  - ring.
  - destruct (String.eqb k k0); simpl; [ring|]. rewrite IH. ring.
Qed.

Lemma collapse_sums (data : list AnalysisPoint.t) (m : JsMap.t AnalysisPoint.t) :
  sumQ (map (fun e => AnalysisPoint.cost (snd e)) (fold_left collapseStep data m))
  = sumQ (map (fun e => AnalysisPoint.cost (snd e)) m)
    + sumQ (map AnalysisPoint.cost data)
  /\ sumQ (map (fun e => AnalysisPoint.profit (snd e)) (fold_left collapseStep data m))
     = sumQ (map (fun e => AnalysisPoint.profit (snd e)) m)
       + sumQ (map AnalysisPoint.profit data).
Proof.
  revert m. induction data as [|p data IH]; intros m; simpl.
  - split; ring.
  - destruct (IH (collapseStep m p)) as [-> ->]. unfold collapseStep.
    destruct (JsMap.get (AnalysisPoint.date p) m) as [v|] eqn:Hg;
      rewrite !sum_values_set, Hg; simpl; split; ring.
Qed.

Lemma processedData_perm (data : list AnalysisPoint.t) :
  Permutation (processedData getTime data) (map snd (collapsed data)).
Proof.
  unfold processedData. destruct data as [|p data]; [reflexivity|].
  cbn [List.length Nat.eqb]. apply JsArrayFacts.sort_perm.
Qed.

(** In exact arithmetic grouping by date loses nothing: the costs of
    the points of [processedData] add up to the costs of the data, and
    so do the profits.  In binary64 the totals can differ in the last
    place, the costs of a date being added first (last part). *)
Theorem processedData_sums (data : list AnalysisPoint.t) :
  sumQ (map AnalysisPoint.cost (processedData getTime data))
  = sumQ (map AnalysisPoint.cost data)
  /\ sumQ (map AnalysisPoint.profit (processedData getTime data))
     = sumQ (map AnalysisPoint.profit data).
Proof.
  pose proof (processedData_perm data) as Hperm.
  destruct (collapse_sums data JsMap.empty) as [Hc Hp]. fold (collapsed data) in Hc, Hp.
  simpl in Hc, Hp. split.
  - rewrite (sumQ_perm _ _ (Permutation_map AnalysisPoint.cost Hperm)).
    rewrite map_map, Hc. ring.
  - rewrite (sumQ_perm _ _ (Permutation_map AnalysisPoint.profit Hperm)).
    rewrite map_map, Hp. ring.
Qed.

(** In exact arithmetic, for the chart of a trade history: the costs of
    the points drawn add up to the sum of [price*quantity] over the
    trades analysed. *)
Theorem chart_of_history_cost (trades : list Trade.t) :
  sumQ (map AnalysisPoint.cost
          (processedData getTime (analyzeTradeHistory getTime trades)))
  = sumQ (map (fun t => Trade.price t * Trade.quantity t) trades).
Proof.
  set (points := analyzeTradeHistory getTime trades).
  rewrite (sumQ_perm _ _ (Permutation_map AnalysisPoint.cost (processedData_perm points))).
  destruct (collapse_sums points JsMap.empty) as [Hc _]. fold (collapsed points) in Hc.
  simpl in Hc. rewrite map_map, Hc. unfold points. rewrite analyze_costs.
  rewrite (sumQ_perm _ _ (Permutation_map (fun t => Trade.price t * Trade.quantity t)
                            (sortedTrades_perm getTime trades))).
  ring.
Qed.

End ChartProperties.

(** *** The scales of the chart *)

(** [visibleCurves]. *)
Module VisibleCurves.
Record t : Type := mk {
  cost : bool;
  profit : bool;
  cumulativeCost : bool
}.
End VisibleCurves.

(** The result of [stats]. *)
Module Stats.
Record t : Type := mk {
  min : Qc;
  max : Qc;
  count : nat
}.
End Stats.

(** [Math.max(x, y)]. *)
Definition maxNum (x y : Qc) : Qc := if Num.leb x y then y else x.

(** [Math.min(...values, x)] and [Math.max(...values, x)]. *)
Definition minOf (values : list Qc) (x : Qc) : Qc := fold_right Num.min x values.
Definition maxOf (values : list Qc) (x : Qc) : Qc := fold_right maxNum x values.

(** A count or an index as a number. *)
Definition ofNat (n : nat) : Qc := Num.lit (inject_Z (Z.of_nat n)).

(** [x || 1] on a number. *)
Definition orOne (x : Qc) : Qc :=
  match x ?= 0 with Eq => Num.lit 1 | _ => x end.

Definition chartWidth : Qc := Num.lit 800.
Definition chartHeight : Qc := Num.lit 400.
Definition padding : Qc := Num.lit 50.

Definition activeValues (visibleCurves : VisibleCurves.t)
    (processed : list AnalysisPoint.t) : list Qc :=
  flat_map
    (fun p =>
       (if VisibleCurves.cost visibleCurves then [AnalysisPoint.cost p] else [])
       ++ (if VisibleCurves.profit visibleCurves then [AnalysisPoint.profit p] else [])
       ++ (if VisibleCurves.cumulativeCost visibleCurves
           then [AnalysisPoint.cumulativeCost p] else []))
    processed.

Definition stats (visibleCurves : VisibleCurves.t) (processed : list AnalysisPoint.t)
  : option Stats.t :=
  if (List.length processed =? 0)%nat then None
  else
    let values := activeValues visibleCurves processed in
    if (List.length values =? 0)%nat
    then Some (Stats.mk 0 (Num.lit 100) (List.length processed))
    else Some (Stats.mk (minOf values 0) (maxOf values (Num.lit 100))
                 (List.length processed)).

Definition getY (st : Stats.t) (val : Qc) : Qc :=
  let range := maxNum (Stats.max st - Stats.min st) (Num.lit 1) in
  chartHeight - padding
  - (val - Stats.min st) / range * (chartHeight - Num.lit 2 * padding).

Definition getX (st : Stats.t) (index : nat) : Qc :=
  padding
  + ofNat index / orOne (ofNat (Stats.count st) - Num.lit 1)
    * (chartWidth - Num.lit 2 * padding).

Lemma this_lit (q : Q) : (this (Num.lit q) == q)%Q.
Proof. apply Qred_correct. Qed.

Lemma this_div (x y : Qc) : (this (x / y) == this x / this y)%Q.
Proof.
  unfold Qcdiv. rewrite this_mul. unfold Qdiv.
  apply Qmult_comp; [reflexivity|]. apply Qred_correct.
Qed.

(** Linear arithmetic on [Qc] with decimal literals. *)
Ltac qc_arith :=
  repeat match goal with
         | H : @eq Qc _ _ |- _ => apply this_eq in H
         | H : ~ @eq Qc _ _ |- _ => apply this_neq in H
         end;
  try apply Qc_is_canon;
  unfold Qclt, Qcle in *;
  repeat match goal with
         | H : context [this (_ + _)] |- _ => rewrite this_add in H
         | H : context [this (_ - _)] |- _ => rewrite this_sub in H
         | H : context [this (- _)] |- _ => rewrite this_opp in H
         | H : context [this (_ * _)] |- _ => rewrite this_mul in H
         | H : context [this (Num.lit _)] |- _ => rewrite this_lit in H
         | H : context [this 0] |- _ => rewrite this_zero in H
         | |- context [this (_ + _)] => rewrite this_add
         | |- context [this (_ - _)] => rewrite this_sub
         | |- context [this (- _)] => rewrite this_opp
         | |- context [this (_ * _)] => rewrite this_mul
         | |- context [this (Num.lit _)] => rewrite this_lit
         | |- context [this 0] => rewrite this_zero
         end;
  lra.

(** A part of a whole, as a fraction, is between 0 and 1. *)
Lemma unit_fraction (a b : Qc) :
  0 <= a -> a <= b -> 0 < b -> 0 <= a / b /\ a / b <= Num.lit 1.
Proof.
  intros Ha Hab Hb. unfold Qcle, Qclt in *.
  rewrite this_div, this_lit. rewrite this_zero in *. split.
  - apply Qle_shift_div_l; [exact Hb | lra].
  - apply Qle_shift_div_r; [exact Hb | lra].
Qed.

Lemma maxNum_ge (x y : Qc) : x <= maxNum x y /\ y <= maxNum x y.
Proof.
  unfold maxNum. destruct (Num.leb x y) eqn:E.
  - apply leb_le in E. split; [exact E | apply Qcle_refl].
  - apply leb_gt in E. split; [apply Qcle_refl | now apply Qclt_le_weak].
Qed.

Lemma minOf_le (values : list Qc) (x : Qc) :
  minOf values x <= x /\ (forall v, In v values -> minOf values x <= v).
Proof.
  induction values as [|a l [IH1 IH2]]; simpl.
  - split; [apply Qcle_refl | contradiction].
  - pose proof (min_le_r a (minOf l x)) as Hr.
    assert (Hl : Num.min a (minOf l x) <= a).
    { unfold Num.min. destruct (Num.leb a (minOf l x)) eqn:E;
        [apply Qcle_refl | apply leb_gt in E; now apply Qclt_le_weak]. }
    split; [exact (Qcle_trans _ _ _ Hr IH1)|].
    intros v [<-|Hv]; [exact Hl|]. eapply Qcle_trans; [exact Hr | now apply IH2].
Qed.

Lemma maxOf_ge (values : list Qc) (x : Qc) :
  x <= maxOf values x /\ (forall v, In v values -> v <= maxOf values x).
Proof.
  induction values as [|a l [IH1 IH2]]; simpl.
  - split; [apply Qcle_refl | contradiction].
  - destruct (maxNum_ge a (maxOf l x)) as [Ha Hm].
    split; [exact (Qcle_trans _ _ _ IH1 Hm)|].
    intros v [<-|Hv]; [exact Ha|]. eapply Qcle_trans; [now apply IH2 | exact Hm].
Qed.

(** The scale of [stats] spans 0 to 100 at least and every value of a
    visible curve. *)
Lemma stats_span (visibleCurves : VisibleCurves.t) (processed : list AnalysisPoint.t)
    (st : Stats.t) :
  stats visibleCurves processed = Some st ->
  Stats.count st = List.length processed
  /\ Stats.min st <= 0
  /\ Num.lit 100 <= Stats.max st
  /\ (forall val, In val (activeValues visibleCurves processed) ->
                  Stats.min st <= val /\ val <= Stats.max st).
Proof.
  unfold stats. destruct (List.length processed =? 0)%nat; [discriminate|].
  destruct (List.length (activeValues visibleCurves processed) =? 0)%nat eqn:E.
  - intros [= <-]. simpl. apply Nat.eqb_eq, length_zero_iff_nil in E. rewrite E.
    repeat split; try apply Qcle_refl; contradiction.
  - intros [= <-]. simpl.
    destruct (minOf_le (activeValues visibleCurves processed) 0) as [H1 H2].
    destruct (maxOf_ge (activeValues visibleCurves processed) (Num.lit 100)) as [H3 H4].
    repeat split; auto.
Qed.

(** Every value of a visible curve is drawn inside the plot area: its
    [y] lies between [padding] and [chartHeight - padding], and the
    range that the value is divided by is at least 100, never 0. *)
Theorem getY_in_plot (visibleCurves : VisibleCurves.t)
    (processed : list AnalysisPoint.t) (st : Stats.t) (val : Qc) :
  stats visibleCurves processed = Some st ->
  In val (activeValues visibleCurves processed) ->
  Num.lit 100 <= maxNum (Stats.max st - Stats.min st) (Num.lit 1)
  /\ padding <= getY st val
  /\ getY st val <= chartHeight - padding.
Proof.
  intros Hst Hval.
  destruct (stats_span _ _ _ Hst) as [_ [Hmin [Hmax Hall]]].
  destruct (Hall val Hval) as [Hlo Hhi].
  set (range := maxNum (Stats.max st - Stats.min st) (Num.lit 1)).
  destruct (maxNum_ge (Stats.max st - Stats.min st) (Num.lit 1)) as [Hr _].
  fold range in Hr.
  assert (Hrange : Num.lit 100 <= range) by qc_arith.
  split; [exact Hrange|].
  destruct (unit_fraction (val - Stats.min st) range) as [H0 H1];
    [qc_arith | qc_arith | qc_arith |].
  unfold getY. fold range.
  set (r := (val - Stats.min st) / range) in *. clearbody r range.
  assert (Hk : 0 <= chartHeight - Num.lit 2 * padding)
    by (unfold chartHeight, padding; qc_arith).
  pose proof (Qcmult_le_compat_r _ _ _ H0 Hk) as Ha.
  pose proof (Qcmult_le_compat_r _ _ _ H1 Hk) as Hb.
  set (rk := r * (chartHeight - Num.lit 2 * padding)) in *. clearbody rk.
  unfold chartHeight, padding in *. split; qc_arith.
Qed.

Lemma ofNat_le (n m : nat) : (n <= m)%nat -> ofNat n <= ofNat m.
Proof.
  intros H. unfold Qcle, ofNat. rewrite !this_lit. rewrite <- Zle_Qle. lia.
Qed.

Lemma ofNat_lt (n m : nat) : (n < m)%nat -> ofNat n < ofNat m.
Proof.
  intros H. unfold Qclt, ofNat. rewrite !this_lit. rewrite <- Zlt_Qlt. lia.
Qed.

Lemma ofNat_pred (n : nat) : (0 < n)%nat -> ofNat n - Num.lit 1 = ofNat (n - 1).
Proof.
  intros H. apply Qc_is_canon. unfold ofNat. rewrite this_sub, !this_lit.
  replace (Z.of_nat (n - 1)) with (Z.of_nat n + - 1)%Z by lia.
  rewrite inject_Z_plus. reflexivity.
Qed.

Lemma orOne_cases (x : Qc) :
  (x = 0 /\ orOne x = Num.lit 1) \/ (x <> 0 /\ orOne x = x).
Proof.
  unfold orOne. destruct (x ?= 0) eqn:E.
  - left. split; [now apply Qceq_alt | reflexivity].
  - right. split; [|reflexivity]. intros H. apply Qceq_alt in H. congruence.
  - right. split; [|reflexivity]. intros H. apply Qceq_alt in H. congruence.
Qed.

(** The points are spread over the width of the plot: the [x] of every
    index lies between [padding] and [chartWidth - padding], the first
    point is at the left end and, when there are two points or more,
    the last is at the right end; with a single point the divisor is 1,
    not 0. *)
Theorem getX_in_plot (st : Stats.t) (index : nat) :
  (index < Stats.count st)%nat ->
  padding <= getX st index
  /\ getX st index <= chartWidth - padding
  /\ getX st 0 = padding
  /\ ((1 < Stats.count st)%nat ->
      getX st (Stats.count st - 1) = chartWidth - padding)
  /\ orOne (ofNat (Stats.count st) - Num.lit 1) <> 0.
Proof.
  intros Hindex. unfold getX.
  set (d := orOne (ofNat (Stats.count st) - Num.lit 1)).
  assert (Hcount : ofNat (Stats.count st) - Num.lit 1 = ofNat (Stats.count st - 1))
    by (apply ofNat_pred; lia).
  assert (Hd : 0 < d /\ ofNat index <= d
               /\ ((1 < Stats.count st)%nat -> d = ofNat (Stats.count st - 1))).
  { unfold d. rewrite Hcount.
    destruct (orOne_cases (ofNat (Stats.count st - 1))) as [[Hz ->]|[Hnz ->]].
    - assert (Hone : (Stats.count st - 1 = 0)%nat).
      { destruct (Stats.count st - 1)%nat eqn:E; [reflexivity|].
        exfalso. pose proof (ofNat_lt 0 (S n) ltac:(lia)) as Hlt.
        rewrite Hz in Hlt. change (ofNat 0) with 0 in Hlt. qc_arith. }
      split; [qc_arith|]. split; [|lia].
      replace index with 0%nat by lia. change (ofNat 0) with 0. qc_arith.
    - split; [|split; [apply ofNat_le; lia | reflexivity]].
      destruct (Stats.count st - 1)%nat eqn:E; [exfalso; now apply Hnz|].
      change 0 with (ofNat 0). apply ofNat_lt. lia. }
  destruct Hd as [Hpos [Hle Hlast]]. clearbody d.
  assert (Hne : d <> 0) by (intros E; qc_arith).
  assert (Hk : 0 <= chartWidth - Num.lit 2 * padding)
    by (unfold chartWidth, padding; qc_arith).
  destruct (unit_fraction (ofNat index) d) as [H0 H1];
    [change 0 with (ofNat 0); apply ofNat_le; lia | exact Hle | exact Hpos |].
  pose proof (Qcmult_le_compat_r _ _ _ H0 Hk) as Ha.
  pose proof (Qcmult_le_compat_r _ _ _ H1 Hk) as Hb.
  split; [|split; [|split; [|split]]].
  - set (rk := ofNat index / d * (chartWidth - Num.lit 2 * padding)) in *.
    clearbody rk. unfold chartWidth, padding in *. qc_arith.
  - set (rk := ofNat index / d * (chartWidth - Num.lit 2 * padding)) in *.
    clearbody rk. unfold chartWidth, padding in *. qc_arith.
  - change (ofNat 0) with 0. unfold Qcdiv. ring.
  - intros Hmany. rewrite <- (Hlast Hmany).
    replace (d / d) with (Num.lit 1) by (change (Num.lit 1) with 1; field; exact Hne).
    unfold chartWidth, padding. qc_arith.
  - exact Hne.
Qed.

Definition samplePoints : list AnalysisPoint.t :=
  [ AnalysisPoint.mk "2024-01-02" (Num.lit 1000) 0 (Num.lit 1005);
    AnalysisPoint.mk "2024-01-03" (Num.lit 600) (Num.lit 95.5) (Num.lit 502.5) ].

Lemma getY_in_plot_witness :
  let st := Stats.mk (Num.lit 0) (Num.lit 1005) 2 in
  padding <= getY st (Num.lit 95.5) /\ getY st (Num.lit 95.5) <= chartHeight - padding.
Proof.
  intros st.
  refine (proj2 (getY_in_plot (VisibleCurves.mk true true true) samplePoints
                   st (Num.lit 95.5) _ _)).
  - unfold stats, st. simpl. repeat f_equal; try (apply Qc_is_canon; reflexivity).
  - simpl. right. right. right. right. now left.
Defined.

Lemma getX_in_plot_witness :
  let st := Stats.mk (Num.lit 0) (Num.lit 1005) 2 in
  padding <= getX st 1 /\ getX st 1 <= chartWidth - padding.
Proof.
  intros st.
  destruct (getX_in_plot st 1) as [H1 [H2 _]]; [simpl; lia|]. auto.
Defined.

(** ** formatPercent

    [value.toFixed(2)] prints the exact value of a number, rounded to
    two decimals, the larger of two candidates that are equally near.
    Of a size of 10^21 and more it prints what [String(x)] prints, in
    exponent form: [numberToString] below. *)

Definition digitChar (d : Z) : ascii := ascii_of_nat (48 + Z.to_nat d).

(** The decimal digits of [n], in front of [acc]. *)
Fixpoint digitsAcc (fuel : nat) (n : Z) (acc : string) : string :=
  match fuel with
  | O => acc
  | S fuel' =>
      let acc' := String (digitChar (n mod 10)) acc in
      if (n / 10 =? 0)%Z then acc' else digitsAcc fuel' (n / 10) acc'
  end.

Definition digits (n : Z) : string := digitsAcc (S (Z.to_nat n)) n "".

Fixpoint zeros (k : nat) : string :=
  match k with O => "" | S k' => String "0" (zeros k') end.

Fixpoint takeS (k : nat) (s : string) : string :=
  match k, s with
  | S k', String c r => String c (takeS k' r)
  | _, _ => ""
  end.

Fixpoint dropS (k : nat) (s : string) : string :=
  match k, s with
  | S k', String _ r => dropS k' r
  | _, _ => s
  end.

Definition isDigit (c : ascii) : bool :=
  let n := nat_of_ascii c in ((48 <=? n) && (n <=? 57))%nat.

Fixpoint allDigits (s : string) : bool :=
  match s with
  | EmptyString => true
  | String c r => isDigit c && allDigits r
  end.

(** The number a string of digits stands for, read after [acc]. *)
Fixpoint readDigits (s : string) (acc : Z) : Z :=
  match s with
  | EmptyString => acc
  | String c r => readDigits r (10 * acc + (Z.of_nat (nat_of_ascii c) - 48))
  end.

(** The sign [formatPercent] shows. *)
Definition percentSign (v : Qc) : string :=
  if Num.ltb 0 v then "+" else if Num.ltb v 0 then "-" else "".

(** The size of [v]. *)
Definition size (v : Qc) : Qc := if Num.ltb v 0 then - v else v.

Section Percent.

Variable numberToString : Qc -> string.

(** [x.toFixed(2)]. *)
Definition toFixed2 (x : Qc) : string :=
  let s := if Num.ltb x 0 then "-" else "" in
  let x := if Num.ltb x 0 then - x else x in
  let m :=
    if Num.leb (Num.lit (10 ^ 21)) x then numberToString x
    else
      let n := Qfloor (this (x * Num.lit 100 + Num.lit 0.5)) in
      let m := digits n in
      let m := (zeros (3 - String.length m) ++ m)%string in
      let k := String.length m in
      (takeS (k - 2) m ++ "." ++ dropS (k - 2) m)%string in
  (s ++ m)%string.

Definition formatPercent (value : option Qc) : string :=
  match value with
  | None => "-"
  | Some v =>
      match (v ?= 0)%Qc with
      | Eq => "0.00%"
      | _ =>
          let sign := if Num.ltb 0 v then "+" else "" in
          (sign ++ toFixed2 v ++ "%")%string
      end
  end.

End Percent.

Lemma digitChar_spec (d : Z) :
  (0 <= d < 10)%Z ->
  isDigit (digitChar d) = true
  /\ (Z.of_nat (nat_of_ascii (digitChar d)) - 48 = d)%Z.
Proof.
  intros H. unfold digitChar, isDigit.
  assert (Hd : (Z.to_nat d < 10)%nat) by lia.
  rewrite nat_ascii_embedding by lia. split.
  - apply andb_true_intro. split; [apply Nat.leb_le | apply Nat.leb_le]; lia.
  - lia.
Qed.

Lemma digitsAcc_spec (fuel : nat) :
  forall (n : Z) (acc : string),
    (0 <= n)%Z -> (Z.to_nat n < fuel)%nat ->
    (allDigits acc = true -> allDigits (digitsAcc fuel n acc) = true)
    /\ readDigits (digitsAcc fuel n acc) 0 = readDigits acc n
    /\ (String.length acc < String.length (digitsAcc fuel n acc))%nat.
Proof.
  induction fuel as [|fuel IH]; intros n acc Hn Hfuel; [lia|].
  cbn [digitsAcc].
  pose proof (Z.mod_pos_bound n 10 ltac:(lia)) as Hmod.
  destruct (digitChar_spec (n mod 10) Hmod) as [Hdig Hval].
  pose proof (Z.div_mod n 10 ltac:(lia)) as Hdm.
  set (c := digitChar (n mod 10)) in *. clearbody c.
  destruct (Z.eqb_spec (n / 10) 0) as [Hz|Hnz].
  - split; [|split].
    + intros Hacc. cbn [allDigits]. now rewrite Hdig, Hacc.
    + cbn [readDigits]. rewrite Hval. f_equal. lia.
    + cbn [String.length]. lia.
  - assert (Hq : (0 < n / 10)%Z).
    { pose proof (Z.div_pos n 10 ltac:(lia) ltac:(lia)). lia. }
    destruct (IH (n / 10)%Z (String c acc)) as [H1 [H2 H3]];
      [lia | |].
    { assert (n / 10 < n)%Z by (apply Z.div_lt; lia). lia. }
    split; [|split].
    + intros Hacc. apply H1. cbn [allDigits]. now rewrite Hdig, Hacc.
    + rewrite H2. cbn [readDigits]. rewrite Hval. f_equal. lia.
    + cbn [String.length] in H3. lia.
Qed.

Lemma digits_spec (n : Z) :
  (0 <= n)%Z ->
  allDigits (digits n) = true /\ readDigits (digits n) 0 = n
  /\ (1 <= String.length (digits n))%nat.
Proof.
  intros Hn. unfold digits.
  destruct (digitsAcc_spec (S (Z.to_nat n)) n "" Hn ltac:(lia)) as [H1 [H2 H3]].
  split; [now apply H1|]. split; [exact H2|]. cbn [String.length] in H3. lia.
Qed.

Lemma append_assoc (s1 s2 s3 : string) :
  ((s1 ++ s2) ++ s3 = s1 ++ (s2 ++ s3))%string.
Proof. induction s1 as [|c s1 IH]; simpl; congruence. Qed.

Lemma zeros_spec (k : nat) (s : string) :
  String.length (zeros k ++ s)%string = (k + String.length s)%nat
  /\ allDigits (zeros k ++ s)%string = allDigits s
  /\ readDigits (zeros k ++ s)%string 0 = readDigits s 0.
Proof.
  induction k as [|k [IH1 [IH2 IH3]]]; simpl; [auto|].
  rewrite IH1, IH2, IH3. auto.
Qed.

Lemma take_drop (k : nat) (s : string) :
  (takeS k s ++ dropS k s)%string = s
  /\ ((k <= String.length s)%nat ->
      String.length (takeS k s) = k
      /\ String.length (dropS k s) = (String.length s - k)%nat).
Proof.
  revert s. induction k as [|k IH]; intros s.
  - split; [destruct s; reflexivity|]. intros _. destruct s; simpl; split; lia.
  - destruct s as [|c r]; simpl.
    + split; [reflexivity | lia].
    + destruct (IH r) as [H1 H2]. rewrite H1. split; [reflexivity|].
      intros Hk. destruct H2 as [H2 H3]; [lia|]. lia.
Qed.

Lemma size_nonneg (v : Qc) : 0 <= size v.
Proof.
  unfold size. destruct (Num.ltb v 0) eqn:E.
  - apply ltb_lt in E. qc_lra.
  - now apply ltb_ge in E.
Qed.

Section PercentProperties.

Variable numberToString : Qc -> string.

(** Of a value of a size below 10^21, [formatPercent] prints a sign,
    "+" for a value above 0 and "-" for one below, then digits, a
    point, two digits and "%"; the digits are those of the value's size
    times 100, rounded to the nearest integer, upwards from the middle.
    A value below 0 that rounds to 0 keeps its sign: "-0.00%". *)
Theorem formatPercent_shape (v : Qc) :
  size v < Num.lit (10 ^ 21) ->
  exists whole frac,
    formatPercent numberToString (Some v)
    = (percentSign v ++ whole ++ "." ++ frac ++ "%")%string
    /\ (1 <= String.length whole)%nat
    /\ String.length frac = 2%nat
    /\ allDigits (whole ++ frac)%string = true
    /\ readDigits (whole ++ frac)%string 0
       = Qfloor (this (size v * Num.lit 100 + Num.lit 0.5)).
Proof.
  intros Hsize. unfold formatPercent, percentSign.
  destruct (v ?= 0)%Qc eqn:Hzero.
  1: { apply Qceq_alt in Hzero. subst v.
       exists "0", "00".
       split; [reflexivity|]. split; [cbn [String.length]; lia|].
       split; [reflexivity|]. split; [reflexivity|]. vm_compute. reflexivity. }
  all: unfold toFixed2; fold (size v);
    apply leb_gt in Hsize; rewrite Hsize;
    pose proof (size_nonneg v) as Hx;
    set (x := size v) in *;
    set (n := Qfloor (this (x * Num.lit 100 + Num.lit 0.5)));
    assert (Hn : (0 <= n)%Z)
      by (unfold n; change 0%Z with (Qfloor 0); apply Qfloor_resp_le;
          assert (H : 0 <= x * Num.lit 100 + Num.lit 0.5)
            by (pose proof (Qcmult_le_compat_r 0 x (Num.lit 100) Hx ltac:(qc_arith)) as Hm;
                set (y := x * Num.lit 100) in *; clearbody y; qc_arith);
          unfold Qcle in H; now rewrite this_zero in H);
    destruct (digits_spec n Hn) as [Hd [Hr Hlen]];
    set (m := (zeros (3 - String.length (digits n)) ++ digits n)%string);
    destruct (zeros_spec (3 - String.length (digits n)) (digits n)) as [Hl [Ha Hz]];
    fold m in Hl, Ha, Hz;
    destruct (take_drop (String.length m - 2) m) as [Happ Hsplit];
    (destruct Hsplit as [Htake Hdrop]; [lia|]);
    exists (takeS (String.length m - 2) m), (dropS (String.length m - 2) m);
    rewrite Happ, Ha, Hz, Hd, Hr;
    (split; [|split; [lia | split; [lia | split; reflexivity]]]);
    rewrite !append_assoc.
  - apply Qclt_alt in Hzero. pose proof Hzero as Hneg. apply ltb_lt in Hneg.
    assert (Hpos : Num.ltb 0 v = false) by (apply ltb_ge; qc_lra).
    rewrite Hneg, Hpos. reflexivity.
  - apply Qcgt_alt in Hzero. pose proof Hzero as Hpos. apply ltb_lt in Hpos.
    assert (Hneg : Num.ltb v 0 = false) by (apply ltb_ge; qc_lra).
    rewrite Hneg, Hpos. reflexivity.
Qed.

End PercentProperties.

Lemma formatPercent_shape_witness :
  formatPercent (fun _ => "") (Some (Num.lit (-0.125))) = "-0.13%"
  /\ exists whole frac,
       formatPercent (fun _ => "") (Some (Num.lit (-0.125)))
       = (percentSign (Num.lit (-0.125)) ++ whole ++ "." ++ frac ++ "%")%string
       /\ (1 <= String.length whole)%nat
       /\ String.length frac = 2%nat
       /\ allDigits (whole ++ frac)%string = true
       /\ readDigits (whole ++ frac)%string 0
          = Qfloor (this (size (Num.lit (-0.125)) * Num.lit 100 + Num.lit 0.5)).
Proof.
  split; [vm_compute; reflexivity|].
  apply (formatPercent_shape (fun _ => "") (Num.lit (-0.125))).
  vm_compute. reflexivity.
Defined.

(** ** Sample ledgers for the properties above *)

Definition sampleLedger : list Trade.t :=
  [sampleTrade "X" buy 10 100 "2024-01-02" None;
   sampleTrade "Y" buy 3 20 "2024-01-03" None].

Lemma sampleLedger_ids : NoDup (map Trade.id sampleLedger).
Proof.
  repeat constructor; simpl; intros H;
    repeat (destruct H as [H|H]; [discriminate H|]); exact H.
Defined.

Lemma deleteTrade_addTrade_witness :
  let trade := sampleTrade "Z" buy 7 50 "2024-01-04" (Some 1%Q) in
  deleteTrade (Trade.id trade) (addTrade trade sampleLedger) = sampleLedger.
Proof.
  intros trade. apply (deleteTrade_addTrade trade sampleLedger).
  simpl. intros H. repeat (destruct H as [H|H]; [discriminate H|]). exact H.
Defined.

Lemma importTrades_distinct_ids_witness :
  NoDup (map Trade.id
           (importTrades
              [sampleTrade "X" buy 10 100 "2024-01-02" None;
               sampleTrade "Z" buy 7 50 "2024-01-04" None]
              sampleLedger)).
Proof.
  apply importTrades_distinct_ids.
  - exact sampleLedger_ids.
  - repeat constructor; simpl; intros H;
      repeat (destruct H as [H|H]; [discriminate H|]); exact H.
Defined.

Lemma updateTrade_back_witness :
  let trade := sampleTrade "X" buy 10 100 "2024-01-02" None in
  let edited := sampleTrade "X" sell 11 40 "2024-01-02" (Some 2%Q) in
  updateTrade (Trade.id trade) (wholeTrade trade)
    (updateTrade (Trade.id trade) (wholeTrade edited) sampleLedger)
  = sampleLedger.
Proof.
  intros trade edited. apply (updateTrade_back trade edited sampleLedger).
  - exact sampleLedger_ids.
  - left. reflexivity.
  - reflexivity.
Defined.

Lemma setManualPrice_price_witness :
  let prev := setManualPrice "sh600000" (Num.lit 8) (Some "A") [] in
  let quotes := setManualPrice "sz000001" (Num.lit 12) None prev in
  JsMap.get "sz000001" (currentPricesOf quotes) = Some (Num.lit 12)
  /\ JsMap.get "sh600000" (currentPricesOf quotes)
     = JsMap.get "sh600000" (currentPricesOf prev).
Proof.
  intros prev quotes.
  assert (Hnd : NoDup (map fst prev)).
  { simpl. constructor; [intros [] | constructor]. }
  destruct (setManualPrice_price "sz000001" (Num.lit 12) None prev Hnd)
    as [_ [Hget Hother]].
  split; [exact Hget|]. apply Hother. discriminate.
Defined.

Definition samplePriced : list Position.t :=
  calculatePositions dayNumber sampleLedger
    (currentPricesOf (setManualPrice "X" (Num.lit 12) None [])).

Lemma manual_price_in_position_witness :
  exists p,
    nth_error samplePriced 0 = Some p
    /\ Position.stockCode p = "X"
    /\ Position.currentPrice p = Some (Num.lit 12)
    /\ Position.marketValue p = Some (Num.lit 12 * Position.totalQuantity p)
    /\ Position.profitLoss p
       = Some (Num.lit 12 * Position.totalQuantity p - Position.totalCost p).
Proof.
  destruct (nth_error samplePriced 0) as [p|] eqn:Hp; [|vm_compute in Hp; discriminate Hp].
  exists p. split; [reflexivity|].
  assert (Hcode : Position.stockCode p = "X").
  { vm_compute in Hp. injection Hp as <-. reflexivity. }
  split; [exact Hcode|].
  apply (manual_price_in_position dayNumber "X" (Num.lit 12) None [] sampleLedger p).
  - constructor.
  - apply (nth_error_In samplePriced 0). exact Hp.
  - exact Hcode.
Defined.

Lemma positions_have_stock_codes_witness :
  exists p,
    nth_error (calculatePositions dayNumber sampleLedger []) 1 = Some p
    /\ In (Position.stockCode p) (allStockCodes sampleLedger).
Proof.
  destruct (nth_error (calculatePositions dayNumber sampleLedger []) 1) as [p|] eqn:Hp;
    [|vm_compute in Hp; discriminate Hp].
  exists p. split; [reflexivity|].
  apply (positions_have_stock_codes dayNumber sampleLedger [] p).
  apply (nth_error_In _ 1). exact Hp.
Defined.

(** * The engine in the arithmetic of the code

    The first part reads a [number] as an exact rational.  The code
    computes in IEEE-754 binary64, where an addition or a division
    rounds, sums depend on their order and [cost - cost / quantity *
    sold] can leave a residue.  This part writes the engine over the
    arithmetic it is run in: the operations on numbers that the code
    uses are a parameter, with no law assumed of them, so that what is
    proved of the engine here holds operation for operation, in the
    exact rationals and in binary64 alike. *)

Module Arith.

(** The numbers of a run and the operations of the code on them:
    [0], [100], [+], [-], [*], [/], [<], [<=], [Math.min], and the
    numbers that are falsy (for [c || 0]). *)
Record t : Type := mk {
  num : Type;
  zero : num;
  hundred : num;
  add : num -> num -> num;
  sub : num -> num -> num;
  mul : num -> num -> num;
  div : num -> num -> num;
  ltb : num -> num -> bool;
  leb : num -> num -> bool;
  min : num -> num -> num;
  falsy : num -> bool
}.

End Arith.

(** The exact rationals of the first part. *)
Definition rationals : Arith.t :=
  Arith.mk Qc 0 (Num.lit 100) Qcplus Qcminus Qcmult Qcdiv
    Num.ltb Num.leb Num.min (fun x => Qc_eq_bool x 0).

Module Binary64.

(** [Math.min(x, y)]: NaN if one of them is NaN, and -0 below +0. *)
Definition min (x y : float) : float :=
  if is_nan x || is_nan y then nan
  else if PrimFloat.ltb x y then x
  else if PrimFloat.ltb y x then y
  else if get_sign x then x else y.

(** The falsy numbers: +0, -0 and NaN. *)
Definition falsy (x : float) : bool := is_zero x || is_nan x.

End Binary64.

(** The numbers of JavaScript: IEEE-754 binary64, rounding to
    nearest, ties to even. *)
Definition binary64 : Arith.t :=
  Arith.mk float 0%float 100%float
    PrimFloat.add PrimFloat.sub PrimFloat.mul PrimFloat.div
    PrimFloat.ltb PrimFloat.leb Binary64.min Binary64.falsy.

Module Engine.

(** The types of [src/types/index.ts], their numbers of type [N]. *)

Set Implicit Arguments.

Module Trade.
Record t (N : Type) : Type := mk {
  id : string;
  stockCode : string;
  stockName : string;
  type : TradeType;
  price : N;
  quantity : N;
  date : string;
  commission : option N;
  tags : option (list string)
}.
End Trade.

Module Position.
Record t (N : Type) : Type := mk {
  stockCode : string;
  stockName : string;
  totalQuantity : N;
  totalCost : N;
  averageCost : N;
  currentPrice : option N;
  marketValue : option N;
  profitLoss : option N;
  profitLossPercent : option N
}.
End Position.

Module Holding.
Record t (N : Type) : Type := mk {
  stockCode : string;
  stockName : string;
  totalQuantity : N;
  totalCost : N
}.
End Holding.

Module Totals.
Record t (N : Type) : Type := mk {
  totalCost : N;
  totalMarketValue : option N;
  totalProfitLoss : option N;
  totalProfitLossPercent : option N
}.
End Totals.

Module Inventory.
Record t (N : Type) : Type := mk {
  quantity : N;
  totalCost : N
}.
End Inventory.

Module AnalysisPoint.
Record t (N : Type) : Type := mk {
  date : string;
  cost : N;
  profit : N;
  cumulativeCost : N
}.
End AnalysisPoint.

Unset Implicit Arguments.

Section InArithmetic.

Variable A : Arith.t.

Local Abbreviation N := (Arith.num A).
Local Abbreviation zero := (Arith.zero A).
Local Notation "x +. y" := (Arith.add A x y) (at level 50, left associativity).
Local Notation "x -. y" := (Arith.sub A x y) (at level 50, left associativity).
Local Notation "x *. y" := (Arith.mul A x y) (at level 40, left associativity).
Local Notation "x /. y" := (Arith.div A x y) (at level 40, left associativity).
Local Notation "x <. y" := (Arith.ltb A x y) (at level 70, no associativity).
Local Notation "x <=. y" := (Arith.leb A x y) (at level 70, no associativity).

(** [c || 0] on an optional number. *)
Definition orZero (c : option N) : N :=
  match c with
  | Some x => if Arith.falsy A x then zero else x
  | None => zero
  end.

(** [new Date(s).getTime()]. *)
Variable getTime : string -> Z.

(** [(a, b) => new Date(a.date).getTime() - new Date(b.date).getTime()]:
    the times are whole numbers of milliseconds, which the doubles
    subtract without rounding. *)
Definition byDate (a b : Trade.t N) : Z :=
  (getTime (Trade.date a) - getTime (Trade.date b))%Z.

Definition sortedTrades (trades : list (Trade.t N)) : list (Trade.t N) :=
  JsArray.sort byDate trades.

(** *** calculatePositions *)

(** [positionMap.get(key) || { stockCode, stockName, 0, 0 }]. *)
Definition existingHolding (m : JsMap.t (Holding.t N)) (trade : Trade.t N)
  : Holding.t N :=
  match JsMap.get (Trade.stockCode trade) m with
  | Some e => e
  | None => Holding.mk (Trade.stockCode trade) (Trade.stockName trade) zero zero
  end.

(** The buy / sell branch of the first loop. *)
Definition applyTrade (existing : Holding.t N) (trade : Trade.t N) : Holding.t N :=
  match Trade.type trade with
  | buy =>
      Holding.mk (Holding.stockCode existing) (Holding.stockName existing)
        (Holding.totalQuantity existing +. Trade.quantity trade)
        (Holding.totalCost existing
         +. (Trade.price trade *. Trade.quantity trade
             +. orZero (Trade.commission trade)))
  | sell =>
      if zero <. Holding.totalQuantity existing then
        let costPerShare := Holding.totalCost existing /. Holding.totalQuantity existing in
        let soldQuantity :=
          Arith.min A (Trade.quantity trade) (Holding.totalQuantity existing) in
        Holding.mk (Holding.stockCode existing) (Holding.stockName existing)
          (Holding.totalQuantity existing -. soldQuantity)
          (Holding.totalCost existing -. costPerShare *. soldQuantity)
      else existing
  end.

(** [existing.stockName = trade.stockName || existing.stockName]. *)
Definition renameHolding (existing : Holding.t N) (trade : Trade.t N) : Holding.t N :=
  Holding.mk (Holding.stockCode existing)
    (strOr (Trade.stockName trade) (Holding.stockName existing))
    (Holding.totalQuantity existing) (Holding.totalCost existing).

(** One iteration of [for (const trade of sortedTrades)]. *)
Definition positionStep (m : JsMap.t (Holding.t N)) (trade : Trade.t N)
  : JsMap.t (Holding.t N) :=
  let key := Trade.stockCode trade in
  let existing := existingHolding m trade in
  JsMap.set key (renameHolding (applyTrade existing trade) trade) m.

Definition positionMap (trades : list (Trade.t N)) : JsMap.t (Holding.t N) :=
  fold_left positionStep (sortedTrades trades) JsMap.empty.

(** One iteration of [for (const [stockCode, data] of positionMap)]:
    [None] is the [continue] of a closed holding. *)
Definition toPosition (currentPrices : JsMap.t N) (entry : string * Holding.t N)
  : option (Position.t N) :=
  let (stockCode, data) := entry in
  if Holding.totalQuantity data <=. zero then None
  else
    let currentPrice := JsMap.get stockCode currentPrices in
    let averageCost :=
      if zero <. Holding.totalQuantity data
      then Holding.totalCost data /. Holding.totalQuantity data
      else zero in
    match currentPrice with
    | Some cp =>
        let marketValue := cp *. Holding.totalQuantity data in
        let profitLoss := marketValue -. Holding.totalCost data in
        let profitLossPercent :=
          if zero <. Holding.totalCost data
          then profitLoss /. Holding.totalCost data *. Arith.hundred A
          else zero in
        Some (Position.mk stockCode (Holding.stockName data)
                (Holding.totalQuantity data) (Holding.totalCost data)
                averageCost currentPrice
                (Some marketValue) (Some profitLoss) (Some profitLossPercent))
    | None =>
        Some (Position.mk stockCode (Holding.stockName data)
                (Holding.totalQuantity data) (Holding.totalCost data)
                averageCost currentPrice None None None)
    end.

Fixpoint collectPositions (currentPrices : JsMap.t N) (m : JsMap.t (Holding.t N))
  : list (Position.t N) :=
  match m with
  | [] => []
  | entry :: r =>
      match toPosition currentPrices entry with
      | Some p => p :: collectPositions currentPrices r
      | None => collectPositions currentPrices r
      end
  end.

Definition calculatePositions (trades : list (Trade.t N)) (currentPrices : JsMap.t N)
  : list (Position.t N) :=
  collectPositions currentPrices (positionMap trades).

(** *** calculateTotalProfitLoss *)

(** The accumulators of the loop: [totalCost], [totalMarketValue],
    [hasAnyPrice]. *)
Definition totalsStep (acc : N * N * bool) (pos : Position.t N) : N * N * bool :=
  let '(totalCost, totalMarketValue, hasAnyPrice) := acc in
  match Position.marketValue pos with
  | Some mv => (totalCost +. Position.totalCost pos, totalMarketValue +. mv, true)
  | None => (totalCost +. Position.totalCost pos, totalMarketValue, hasAnyPrice)
  end.

Definition calculateTotalProfitLoss (positions : list (Position.t N)) : Totals.t N :=
  let '(totalCost, totalMarketValue, hasAnyPrice) :=
    fold_left totalsStep positions (zero, zero, false) in
  if (List.length positions =? 0)%nat then
    Totals.mk zero (Some zero) (Some zero) (Some zero)
  else
    let totalProfitLoss :=
      if hasAnyPrice then Some (totalMarketValue -. totalCost) else None in
    let totalProfitLossPercent :=
      if hasAnyPrice && (zero <. totalCost)
      then Some ((totalMarketValue -. totalCost) /. totalCost *. Arith.hundred A)
      else None in
    Totals.mk totalCost
      (if hasAnyPrice then Some totalMarketValue else None)
      totalProfitLoss
      totalProfitLossPercent.

(** *** analyzeTradeHistory *)

(** The variables the loop of [analyzeTradeHistory] updates. *)
Record AnalysisState : Type := mkState {
  points : list (AnalysisPoint.t N);
  currentCumulativeCost : N;
  stockInventory : JsMap.t (Inventory.t N)
}.

Definition initialState : AnalysisState := mkState [] zero JsMap.empty.

(** [stockInventory.get(trade.stockCode) || { quantity: 0, totalCost: 0 }]. *)
Definition inventoryOf (m : JsMap.t (Inventory.t N)) (trade : Trade.t N)
  : Inventory.t N :=
  match JsMap.get (Trade.stockCode trade) m with
  | Some i => i
  | None => Inventory.mk zero zero
  end.

(** The buy / sell branch of the loop: the inventory after the trade,
    [tradeProfit], and [currentCumulativeCost] after the trade. *)
Definition tradeEffect (inventory : Inventory.t N) (cumulativeCost : N)
    (trade : Trade.t N) : Inventory.t N * N * N :=
  let tradeAmount := Trade.price trade *. Trade.quantity trade in
  match Trade.type trade with
  | buy =>
      let costBasis := tradeAmount +. orZero (Trade.commission trade) in
      (Inventory.mk (Inventory.quantity inventory +. Trade.quantity trade)
                    (Inventory.totalCost inventory +. costBasis),
       zero,
       cumulativeCost +. costBasis)
  | sell =>
      if zero <. Inventory.quantity inventory then
        let avgCost := Inventory.totalCost inventory /. Inventory.quantity inventory in
        let soldQuantity :=
          Arith.min A (Trade.quantity trade) (Inventory.quantity inventory) in
        let costOfSold := avgCost *. soldQuantity in
        (Inventory.mk (Inventory.quantity inventory -. soldQuantity)
                      (Inventory.totalCost inventory -. costOfSold),
         tradeAmount -. orZero (Trade.commission trade) -. costOfSold,
         cumulativeCost -. costOfSold)
      else (inventory, zero, cumulativeCost)
  end.

(** The point pushed for a trade. *)
Definition pointOf (trade : Trade.t N) (tradeProfit cumulativeCost : N)
  : AnalysisPoint.t N :=
  let tradeDate := beforeT (Trade.date trade) in
  let tradeAmount := Trade.price trade *. Trade.quantity trade in
  AnalysisPoint.mk tradeDate tradeAmount tradeProfit cumulativeCost.

(** One iteration of [for (const trade of sortedTrades)]. *)
Definition analysisStep (st : AnalysisState) (trade : Trade.t N) : AnalysisState :=
  let inventory := inventoryOf (stockInventory st) trade in
  let '(inventory', tradeProfit, cumulative') :=
    tradeEffect inventory (currentCumulativeCost st) trade in
  mkState
    (points st ++ [pointOf trade tradeProfit cumulative'])
    cumulative'
    (JsMap.set (Trade.stockCode trade) inventory' (stockInventory st)).

Definition analysisRun (trades : list (Trade.t N)) : AnalysisState :=
  fold_left analysisStep (sortedTrades trades) initialState.

Definition analyzeTradeHistory (trades : list (Trade.t N)) : list (AnalysisPoint.t N) :=
  points (analysisRun trades).

(** *** What the books say

    The quantity and the cost of a holding or an inventory, and the
    code, quantity and cost of a position. *)

Definition holdingFigures (h : Holding.t N) : N * N :=
  (Holding.totalQuantity h, Holding.totalCost h).

Definition inventoryFigures (i : Inventory.t N) : N * N :=
  (Inventory.quantity i, Inventory.totalCost i).

Definition positionFigures (p : Position.t N) : string * (N * N) :=
  (Position.stockCode p, (Position.totalQuantity p, Position.totalCost p)).

(** The running totals of a sequence of buys, as the loop adds them
    up: [quantity += trade.quantity] and
    [cost += trade.price * trade.quantity + (trade.commission || 0)],
    trade after trade. *)
Definition boughtQuantity (trades : list (Trade.t N)) (from : N) : N :=
  fold_left (fun q t => q +. Trade.quantity t) trades from.

Definition boughtCost (trades : list (Trade.t N)) (from : N) : N :=
  fold_left
    (fun c t => c +. (Trade.price t *. Trade.quantity t +. orZero (Trade.commission t)))
    trades from.

(** Written from the spec: "(sum of price*quantity over the trades +
    sum of commissions, missing commission counted as 0) divided by
    the sum of quantities", each sum taken over the trades one after
    the other, from 0. *)
Definition sumOf (l : list N) : N := fold_left (fun s x => s +. x) l zero.

Definition averageByFormula (trades : list (Trade.t N)) : N :=
  (sumOf (map (fun t => Trade.price t *. Trade.quantity t) trades)
   +. sumOf (map (fun t => orZero (Trade.commission t)) trades))
  /. sumOf (map (fun t => Trade.quantity t) trades).

(** *** processedData ([src/components/TradeAnalysisChart.tsx]) *)

(** One iteration of [data.forEach] in [processedData]. *)
Definition collapseStep (m : JsMap.t (AnalysisPoint.t N)) (p : AnalysisPoint.t N)
  : JsMap.t (AnalysisPoint.t N) :=
  match JsMap.get (AnalysisPoint.date p) m with
  | Some existing =>
      JsMap.set (AnalysisPoint.date p)
        (AnalysisPoint.mk (AnalysisPoint.date existing)
           (AnalysisPoint.cost existing +. AnalysisPoint.cost p)
           (AnalysisPoint.profit existing +. AnalysisPoint.profit p)
           (AnalysisPoint.cumulativeCost p))
        m
  | None => JsMap.set (AnalysisPoint.date p) p m
  end.

Definition byPointDate (a b : AnalysisPoint.t N) : Z :=
  (getTime (AnalysisPoint.date a) - getTime (AnalysisPoint.date b))%Z.

Definition processedData (data : list (AnalysisPoint.t N)) : list (AnalysisPoint.t N) :=
  if (List.length data =? 0)%nat then []
  else JsArray.sort byPointDate (map snd (fold_left collapseStep data JsMap.empty)).

End InArithmetic.

End Engine.

(** ** The two loops keep the same books *)

Section EngineBooks.

Variable A : Arith.t.
Variable getTime : string -> Z.

Local Abbreviation N := (Arith.num A).
Local Abbreviation zero := (Arith.zero A).
Local Notation "x +. y" := (Arith.add A x y) (at level 50, left associativity).
Local Notation "x -. y" := (Arith.sub A x y) (at level 50, left associativity).
Local Notation "x *. y" := (Arith.mul A x y) (at level 40, left associativity).
Local Notation "x /. y" := (Arith.div A x y) (at level 40, left associativity).
Local Notation "x <. y" := (Arith.ltb A x y) (at level 70, no associativity).
Local Notation "x <=. y" := (Arith.leb A x y) (at level 70, no associativity).

(** What a trade does to a quantity and a cost: the arithmetic that
    the two loops share. *)
Definition bookTrade (f : N * N) (t : Engine.Trade.t N) : N * N :=
  match Engine.Trade.type t with
  | buy =>
      (fst f +. Engine.Trade.quantity t,
       snd f +. (Engine.Trade.price t *. Engine.Trade.quantity t
                 +. Engine.orZero A (Engine.Trade.commission t)))
  | sell =>
      if zero <. fst f then
        (fst f -. Arith.min A (Engine.Trade.quantity t) (fst f),
         snd f -. snd f /. fst f *. Arith.min A (Engine.Trade.quantity t) (fst f))
      else f
  end.

Definition bookStep (m : JsMap.t (N * N)) (t : Engine.Trade.t N) : JsMap.t (N * N) :=
  JsMap.set (Engine.Trade.stockCode t)
    (bookTrade
       (match JsMap.get (Engine.Trade.stockCode t) m with
        | Some f => f
        | None => (zero, zero)
        end) t)
    m.

Lemma applyTrade_books (h : Engine.Holding.t N) (t : Engine.Trade.t N) :
  Engine.holdingFigures A (Engine.renameHolding A (Engine.applyTrade A h t) t)
  = bookTrade (Engine.holdingFigures A h) t.
Proof.
  unfold Engine.applyTrade, bookTrade, Engine.holdingFigures. simpl.
  destruct (Engine.Trade.type t); simpl; [reflexivity|].
  destruct (zero <. Engine.Holding.totalQuantity h); reflexivity.
Qed.

Lemma positionStep_books (m : JsMap.t (Engine.Holding.t N)) (t : Engine.Trade.t N) :
  JsMapFacts.mapValues (Engine.holdingFigures A) (Engine.positionStep A m t)
  = bookStep (JsMapFacts.mapValues (Engine.holdingFigures A) m) t.
Proof.
  unfold Engine.positionStep, bookStep.
  rewrite JsMapFacts.set_mapValues, applyTrade_books, JsMapFacts.get_mapValues.
  unfold Engine.existingHolding.
  destruct (JsMap.get (Engine.Trade.stockCode t) m); reflexivity.
Qed.

Lemma positionMap_books (l : list (Engine.Trade.t N)) (m : JsMap.t (Engine.Holding.t N)) :
  JsMapFacts.mapValues (Engine.holdingFigures A) (fold_left (Engine.positionStep A) l m)
  = fold_left bookStep l (JsMapFacts.mapValues (Engine.holdingFigures A) m).
Proof.
  revert m. induction l as [|t l IH]; intros m; simpl; [reflexivity|].
  now rewrite IH, positionStep_books.
Qed.

(** One step of [analyzeTradeHistory]: the inventories follow the
    same arithmetic, a point is pushed that shows the running total,
    and the running total moves by what the inventory's cost moves
    by. *)
Lemma analysisStep_books (st : Engine.AnalysisState A) (t : Engine.Trade.t N) :
  let st' := Engine.analysisStep A st t in
  JsMapFacts.mapValues (Engine.inventoryFigures A) (Engine.stockInventory A st')
  = bookStep (JsMapFacts.mapValues (Engine.inventoryFigures A) (Engine.stockInventory A st)) t
  /\ (exists pt,
        Engine.points A st' = Engine.points A st ++ [pt]
        /\ Engine.AnalysisPoint.cumulativeCost pt = Engine.currentCumulativeCost A st')
  /\ (Engine.currentCumulativeCost A st
      = snd (Engine.inventoryFigures A (Engine.inventoryOf A (Engine.stockInventory A st) t)) ->
      forall i,
        JsMap.get (Engine.Trade.stockCode t) (Engine.stockInventory A st') = Some i ->
        Engine.currentCumulativeCost A st' = Engine.Inventory.totalCost i).
Proof.
  unfold Engine.analysisStep, Engine.tradeEffect, bookStep, bookTrade.
  rewrite JsMapFacts.get_mapValues. unfold Engine.inventoryOf.
  set (inv := match JsMap.get (Engine.Trade.stockCode t) (Engine.stockInventory A st) with
              | Some i => i
              | None => Engine.Inventory.mk zero zero
              end).
  assert (Hinv : match option_map (Engine.inventoryFigures A)
                         (JsMap.get (Engine.Trade.stockCode t) (Engine.stockInventory A st)) with
                 | Some f => f
                 | None => (zero, zero)
                 end = Engine.inventoryFigures A inv).
  { unfold inv. destruct (JsMap.get _ _); reflexivity. }
  rewrite Hinv. clearbody inv. clear Hinv.
  destruct (Engine.Trade.type t); simpl.
  - rewrite JsMapFacts.set_mapValues. split; [reflexivity|]. split.
    + eexists. split; reflexivity.
    + intros Hcum i. rewrite JsMapFacts.get_set_same. intros [= <-]. simpl.
      now rewrite Hcum.
  - destruct (zero <. Engine.Inventory.quantity inv) eqn:Hq; simpl.
    + rewrite JsMapFacts.set_mapValues. split; [reflexivity|]. split.
      * eexists. split; reflexivity.
      * intros Hcum i. rewrite JsMapFacts.get_set_same. intros [= <-]. simpl.
        now rewrite Hcum.
    + rewrite JsMapFacts.set_mapValues. split; [reflexivity|]. split.
      * eexists. split; reflexivity.
      * intros Hcum i. rewrite JsMapFacts.get_set_same. intros [= <-]. exact Hcum.
Qed.

Lemma analysisRun_books (l : list (Engine.Trade.t N)) (st : Engine.AnalysisState A) :
  JsMapFacts.mapValues (Engine.inventoryFigures A)
    (Engine.stockInventory A (fold_left (Engine.analysisStep A) l st))
  = fold_left bookStep l
      (JsMapFacts.mapValues (Engine.inventoryFigures A) (Engine.stockInventory A st)).
Proof.
  revert st. induction l as [|t l IH]; intros st; simpl; [reflexivity|].
  rewrite IH. now destruct (analysisStep_books st t) as [-> _].
Qed.

(** The two loops end with the same quantity and cost for every
    instrument, in whatever arithmetic: they run the same operations
    on the same numbers. *)
Lemma same_books_in_arithmetic (trades : list (Engine.Trade.t N)) :
  JsMapFacts.mapValues (Engine.holdingFigures A) (Engine.positionMap A getTime trades)
  = JsMapFacts.mapValues (Engine.inventoryFigures A)
      (Engine.stockInventory A (Engine.analysisRun A getTime trades)).
Proof.
  unfold Engine.positionMap, Engine.analysisRun.
  now rewrite positionMap_books, analysisRun_books.
Qed.

(** A position comes from an entry of the map, whose code, quantity
    and cost it shows. *)
Lemma toPosition_books (currentPrices : JsMap.t N) (entry : string * Engine.Holding.t N)
    (p : Engine.Position.t N) :
  Engine.toPosition A currentPrices entry = Some p ->
  Engine.positionFigures A p = (fst entry, Engine.holdingFigures A (snd entry))
  /\ (Engine.Holding.totalQuantity (snd entry) <=. zero) = false
  /\ Engine.Position.averageCost p
     = if zero <. Engine.Holding.totalQuantity (snd entry)
       then Engine.Holding.totalCost (snd entry) /. Engine.Holding.totalQuantity (snd entry)
       else zero.
Proof.
  destruct entry as [code data]. unfold Engine.toPosition. simpl.
  destruct (Engine.Holding.totalQuantity data <=. zero); [discriminate|].
  destruct (JsMap.get code currentPrices); intros [= <-]; auto.
Qed.

(** The books of a sequence of trades of one instrument have one
    entry, under its code. *)
Lemma single_books (code : string) (l : list (Engine.Trade.t N)) :
  Forall (fun t => Engine.Trade.stockCode t = code) l ->
  forall m, (m = [] \/ exists f, m = [(code, f)]) ->
  fold_left bookStep l m = []
  \/ exists f, fold_left bookStep l m = [(code, f)].
Proof.
  induction 1 as [|t l Hc _ IH]; intros m Hm; simpl.
  - destruct Hm as [->|[f ->]]; [now left | right; now exists f].
  - apply IH. right. unfold bookStep. rewrite Hc.
    destruct Hm as [->|[f ->]]; simpl.
    + eexists. reflexivity.
    + rewrite String.eqb_refl. eexists. reflexivity.
Qed.

(** With one instrument the running total of [analyzeTradeHistory] is
    the cost of the instrument's inventory: both start at 0 and move
    by the same amounts. *)
Lemma single_cumulative (code : string) (l : list (Engine.Trade.t N)) :
  Forall (fun t => Engine.Trade.stockCode t = code) l ->
  forall st,
    Engine.currentCumulativeCost A st
    = match JsMap.get code (Engine.stockInventory A st) with
      | Some i => Engine.Inventory.totalCost i
      | None => zero
      end ->
    let st' := fold_left (Engine.analysisStep A) l st in
    Engine.currentCumulativeCost A st'
    = match JsMap.get code (Engine.stockInventory A st') with
      | Some i => Engine.Inventory.totalCost i
      | None => zero
      end.
Proof.
  induction 1 as [|t l Hc _ IH]; intros st Hst; simpl; [exact Hst|].
  apply IH.
  destruct (analysisStep_books st t) as [_ [_ Hcum]].
  assert (Hget : exists i,
             JsMap.get code (Engine.stockInventory A (Engine.analysisStep A st t)) = Some i).
  { unfold Engine.analysisStep.
    destruct (Engine.tradeEffect A _ _ t) as [[i' profit] cum']. simpl.
    rewrite Hc, JsMapFacts.get_set_same. now exists i'. }
  destruct Hget as [i Hi]. rewrite Hi. apply Hcum.
  - rewrite Hst. unfold Engine.inventoryOf. rewrite Hc.
    destruct (JsMap.get code (Engine.stockInventory A st)); reflexivity.
  - now rewrite Hc.
Qed.

(** After a trade the last point shows the running total. *)
Lemma last_point_in_arithmetic (l : list (Engine.Trade.t N)) (st : Engine.AnalysisState A) :
  l <> [] ->
  let st' := fold_left (Engine.analysisStep A) l st in
  exists pts pt,
    Engine.points A st' = pts ++ [pt]
    /\ Engine.AnalysisPoint.cumulativeCost pt = Engine.currentCumulativeCost A st'.
Proof.
  revert st. induction l as [|t l IH]; intros st Hne; [congruence|]. simpl.
  destruct l as [|t' l].
  - simpl. destruct (analysisStep_books st t) as [_ [[pt [Hpts Hpt]] _]].
    exists (Engine.points A st), pt. auto.
  - apply IH. discriminate.
Qed.

End EngineBooks.

(** ** One instrument: the cost of the position and the running total *)

Section SingleInstrument.

Variable A : Arith.t.
Variable getTime : string -> Z.

Local Abbreviation N := (Arith.num A).
Local Abbreviation zero := (Arith.zero A).
Local Notation "x +. y" := (Arith.add A x y) (at level 50, left associativity).

(** C10 (amended): for every trade sequence the two loops keep the
    same quantity and cost per instrument.  For a sequence of a single
    instrument and every price map, a position that
    [calculatePositions] returns is the only one, its [totalCost] is
    the [cumulativeCost] of the last point of [analyzeTradeHistory] on
    the same sequence, and the sum of [totalCost] over the positions,
    which [calculateTotalProfitLoss] computes as [0 + totalCost], is 0
    plus that [cumulativeCost]; for the empty sequence there is no
    position and no point, and the sum is 0.  This holds in the
    arithmetic of the code, whatever it rounds: the two loops run the
    same operations. *)
Theorem C10_single_instrument_cost_is_cumulative
    (trades : list (Engine.Trade.t N)) (currentPrices : JsMap.t N) :
  let positions := Engine.calculatePositions A getTime trades currentPrices in
  let sumOfCosts :=
    Engine.Totals.totalCost (Engine.calculateTotalProfitLoss A positions) in
  let cumulativeCost :=
    last (map (@Engine.AnalysisPoint.cumulativeCost N)
            (Engine.analyzeTradeHistory A getTime trades)) zero in
  JsMapFacts.mapValues (Engine.holdingFigures A) (Engine.positionMap A getTime trades)
  = JsMapFacts.mapValues (Engine.inventoryFigures A)
      (Engine.stockInventory A (Engine.analysisRun A getTime trades))
  /\ (trades = [] ->
      positions = [] /\ Engine.analyzeTradeHistory A getTime trades = []
      /\ sumOfCosts = zero)
  /\ (forall code,
        Forall (fun t => Engine.Trade.stockCode t = code) trades ->
        forall p, In p positions ->
          positions = [p]
          /\ Engine.Position.totalCost p = cumulativeCost
          /\ sumOfCosts = zero +. cumulativeCost).
Proof.
  intros positions sumOfCosts cumulativeCost.
  split; [apply same_books_in_arithmetic|].
  split; [intros ->; repeat split|].
  intros code Hcode p Hin. subst positions sumOfCosts.
  assert (Hsorted : Forall (fun t => Engine.Trade.stockCode t = code)
                      (Engine.sortedTrades A getTime trades)).
  { apply Forall_forall. intros t Ht. rewrite Forall_forall in Hcode. apply Hcode.
    exact (Permutation_in _ (JsArrayFacts.sort_perm _ trades) Ht). }
  assert (Hne : Engine.sortedTrades A getTime trades <> []).
  { intros E. unfold Engine.calculatePositions, Engine.positionMap in Hin.
    rewrite E in Hin. exact Hin. }
  pose proof (same_books_in_arithmetic A getTime trades) as Hbooks.
  unfold Engine.calculatePositions in *.
  unfold Engine.positionMap in Hbooks, Hin |- *.
  destruct (single_books A code _ Hsorted [] (or_introl eq_refl)) as [E|[f E]];
    rewrite <- (positionMap_books A _ JsMap.empty) in E.
  { destruct (fold_left (Engine.positionStep A) _ JsMap.empty); [destruct Hin | discriminate E]. }
  destruct (fold_left (Engine.positionStep A) (Engine.sortedTrades A getTime trades) JsMap.empty)
    as [|[c h] [|e r]] eqn:Hmap; try discriminate E.
  injection E as -> Hf. cbn [Engine.collectPositions] in Hin |- *.
  destruct (Engine.toPosition A currentPrices (code, h)) as [q|] eqn:Hq; [|destruct Hin].
  destruct Hin as [->|[]].
  destruct (toPosition_books A _ _ _ Hq) as [Hfig _].
  assert (Hcost : Engine.Position.totalCost p = cumulativeCost).
  { unfold cumulativeCost, Engine.analyzeTradeHistory, Engine.analysisRun.
    destruct (last_point_in_arithmetic A _ (Engine.initialState A) Hne) as [pts [pt [-> Hpt]]].
    rewrite map_app. cbn [map]. rewrite last_last, Hpt.
    rewrite (single_cumulative A code _ Hsorted (Engine.initialState A) eq_refl).
    fold (Engine.analysisRun A getTime trades).
    assert (Hget : JsMap.get code
                     (JsMapFacts.mapValues (Engine.inventoryFigures A)
                        (Engine.stockInventory A (Engine.analysisRun A getTime trades)))
                   = Some (Engine.holdingFigures A h)).
    { rewrite <- Hbooks. cbn. now rewrite String.eqb_refl. }
    rewrite JsMapFacts.get_mapValues in Hget.
    destruct (JsMap.get code (Engine.stockInventory A (Engine.analysisRun A getTime trades)))
      as [i|]; [|discriminate Hget].
    injection Hget as _ Hc. rewrite Hc.
    unfold Engine.positionFigures in Hfig. now injection Hfig. }
  split; [reflexivity|]. split; [exact Hcost|].
  rewrite <- Hcost. unfold Engine.calculateTotalProfitLoss. cbn [fold_left List.length Nat.eqb].
  unfold Engine.totalsStep. destruct (Engine.Position.marketValue p); reflexivity.
Qed.

End SingleInstrument.

(** ** Buys only: the average cost *)

Section BuyOnly.

Variable A : Arith.t.
Variable getTime : string -> Z.

Local Abbreviation N := (Arith.num A).
Local Abbreviation zero := (Arith.zero A).
Local Notation "x +. y" := (Arith.add A x y) (at level 50, left associativity).
Local Notation "x /. y" := (Arith.div A x y) (at level 40, left associativity).
Local Notation "x <. y" := (Arith.ltb A x y) (at level 70, no associativity).
Local Notation "x <=. y" := (Arith.leb A x y) (at level 70, no associativity).

Lemma buys_books (code : string) (l : list (Engine.Trade.t N)) :
  Forall (fun t => Engine.Trade.type t = buy /\ Engine.Trade.stockCode t = code) l ->
  forall f,
    fold_left (bookStep A) l [(code, f)]
    = [(code, (Engine.boughtQuantity A l (fst f), Engine.boughtCost A l (snd f)))].
Proof.
  induction 1 as [|t l [Hty Hc] _ IH]; intros f; simpl.
  - now destruct f.
  - unfold bookStep at 2. rewrite Hc. simpl. rewrite String.eqb_refl.
    unfold bookTrade. rewrite Hty. apply IH.
Qed.

Lemma buys_books_from_nothing (code : string) (l : list (Engine.Trade.t N)) :
  l <> [] ->
  Forall (fun t => Engine.Trade.type t = buy /\ Engine.Trade.stockCode t = code) l ->
  fold_left (bookStep A) l []
  = [(code, (Engine.boughtQuantity A l zero, Engine.boughtCost A l zero))].
Proof.
  intros Hne Hall. destruct Hall as [|t l [Hty Hc] Hl]; [congruence|]. simpl.
  unfold bookStep at 2. rewrite Hc. simpl. unfold bookTrade. rewrite Hty.
  apply (buys_books code l Hl).
Qed.

(** C6 (amended): for a non-empty sequence of buys of one instrument,
    [calculatePositions] returns one position when the quantity bought
    is above 0; its [totalQuantity] and [totalCost] are the running
    totals of the loop, taken over the trades in the order of their
    times, and its [averageCost] is the one divided by the other.  This
    holds in the arithmetic of the code, whatever it rounds. *)
Theorem C6_average_is_cost_over_quantity
    (trades : list (Engine.Trade.t N)) (code : string) (currentPrices : JsMap.t N) :
  trades <> [] ->
  Forall (fun t => Engine.Trade.type t = buy /\ Engine.Trade.stockCode t = code) trades ->
  let sorted := Engine.sortedTrades A getTime trades in
  let quantity := Engine.boughtQuantity A sorted zero in
  let cost := Engine.boughtCost A sorted zero in
  (zero <. quantity) = true ->
  (quantity <=. zero) = false ->
  exists p,
    Engine.calculatePositions A getTime trades currentPrices = [p]
    /\ Engine.Position.stockCode p = code
    /\ Engine.Position.totalQuantity p = quantity
    /\ Engine.Position.totalCost p = cost
    /\ Engine.Position.averageCost p = cost /. quantity.
Proof.
  intros Hne Hall sorted quantity cost Hpos Hopen.
  pose proof (JsArrayFacts.sort_perm (Engine.byDate A getTime) trades) as Hperm.
  fold (Engine.sortedTrades A getTime trades) in Hperm. fold sorted in Hperm.
  assert (Hsorted : Forall (fun t => Engine.Trade.type t = buy
                                     /\ Engine.Trade.stockCode t = code) sorted).
  { apply Forall_forall. intros t Ht. rewrite Forall_forall in Hall. apply Hall.
    exact (Permutation_in _ Hperm Ht). }
  assert (Hne' : sorted <> []).
  { intros E. rewrite E in Hperm. apply Permutation_nil in Hperm. congruence. }
  pose proof (buys_books_from_nothing code sorted Hne' Hsorted) as Hbooks.
  rewrite <- (positionMap_books A _ JsMap.empty) in Hbooks.
  unfold Engine.calculatePositions, Engine.positionMap. fold sorted.
  destruct (fold_left (Engine.positionStep A) sorted JsMap.empty)
    as [|[c h] [|e r]]; try discriminate Hbooks.
  injection Hbooks as -> Hq Hc. fold quantity in Hq. fold cost in Hc.
  cbn [Engine.collectPositions]. unfold Engine.toPosition.
  rewrite Hq, Hc, Hopen, Hpos.
  destruct (JsMap.get code currentPrices); eexists; (split; [reflexivity|]);
    simpl; auto.
Qed.

End BuyOnly.

(** ** Swapping two trades of one timestamp *)


Section SwapOfTies.

Variable A : Arith.t.
Variable getTime : string -> Z.

Local Abbreviation N := (Arith.num A).
Local Abbreviation zero := (Arith.zero A).
Local Notation "x <=. y" := (Arith.leb A x y) (at level 70, no associativity).














End SwapOfTies.

(** ** The code's own numbers: runs in binary64 *)

#[local] Set Warnings "-inexact-float".

Definition doubleTrade (id code : string) (ty : TradeType) (p q : float) (d : string)
    (c : option float) : Engine.Trade.t float :=
  Engine.Trade.mk id code code ty p q d c None.

(** C3, as stated, fails in the arithmetic of the code: [1005 / 100]
    is the double next to 10.05, a little above it, its product by 50
    rounds to the double above 502.5, and the cost that remains comes
    out one unit in the last place below 502.5. *)
Lemma C3_figures_are_not_502_5_and_10_05 :
  let trades := [ doubleTrade "t1" "X" buy 10 100 "2024-01-02" (Some 5%float);
                  doubleTrade "t2" "X" sell 12 50 "2024-01-03" (Some 2%float) ] in
  map (fun p => (Engine.Position.totalQuantity p, Engine.Position.totalCost p,
                 Engine.Position.averageCost p))
    (Engine.calculatePositions binary64 dayNumber trades [])
  = [(50, 502.49999999999994, 10.049999999999999)]%float
  /\ PrimFloat.eqb 502.49999999999994 502.5 = false
  /\ PrimFloat.eqb 10.049999999999999 10.05 = false.
Proof. vm_compute. repeat split. Qed.

Section BuyAndSell.

Variable getTime : string -> Z.

(** C3 (amended): a buy of 100 at 10 with commission 5, then a sell of
    50 at 12 with commission 2, both of code "X": exactly one position,
    with [totalQuantity = 50], [totalCost = 502.49999999999994] and
    [averageCost = 10.049999999999999], the doubles that
    [1005 - 1005 / 100 * 50] and [totalCost / 50] round to.  The sell's
    commission does not enter the cost that remains. *)
Theorem C3_buy_100_sell_50_in_binary64
    (id1 id2 name1 name2 d1 d2 : string) (tags1 tags2 : option (list string))
    (currentPrices : JsMap.t float) :
  (getTime d1 <= getTime d2)%Z ->
  exists p,
    Engine.calculatePositions binary64 getTime
      [ Engine.Trade.mk id1 "X" name1 buy 10%float 100%float d1 (Some 5%float) tags1;
        Engine.Trade.mk id2 "X" name2 sell 12%float 50%float d2 (Some 2%float) tags2 ]
      currentPrices = [p]
    /\ Engine.Position.stockCode p = "X"
    /\ Engine.Position.totalQuantity p = 50%float
    /\ Engine.Position.totalCost p = 502.49999999999994%float
    /\ Engine.Position.averageCost p = 10.049999999999999%float.
Proof.
  intros Hd. unfold Engine.calculatePositions, Engine.positionMap, Engine.sortedTrades.
  cbn [JsArray.sort JsArray.insert]. unfold Engine.byDate at 1. cbn [Engine.Trade.date].
  destruct (Z.leb_spec (getTime d1 - getTime d2) 0); [|lia].
  cbv -[JsMap.get].
  destruct (JsMap.get _ currentPrices);
    eexists; (split; [reflexivity|]); repeat split.
Qed.

End BuyAndSell.

Lemma C3_buy_100_sell_50_in_binary64_witness :
  exists p,
    Engine.calculatePositions binary64 dayNumber
      [ Engine.Trade.mk "t1" "X" "Xin" buy 10%float 100%float "2024-01-02"
          (Some 5%float) None;
        Engine.Trade.mk "t2" "X" "Xin" sell 12%float 50%float "2024-01-03"
          (Some 2%float) None ]
      [] = [p]
    /\ Engine.Position.stockCode p = "X"
    /\ Engine.Position.totalQuantity p = 50%float
    /\ Engine.Position.totalCost p = 502.49999999999994%float
    /\ Engine.Position.averageCost p = 10.049999999999999%float.
Proof.
  apply (C3_buy_100_sell_50_in_binary64 dayNumber). vm_compute. discriminate.
Defined.

(** C6, as stated, fails in the arithmetic of the code: for buys of
    100 at 5.51 (commission 2.57) and 300 at 5.34 (commission 9.42) the
    [averageCost] is 5.412475000000001, while the formula gives
    5.412475, the double next to it. *)
Lemma C6_average_is_not_the_formula :
  let trades := [ doubleTrade "t1" "X" buy 5.51 100 "2024-01-02" (Some 2.57%float);
                  doubleTrade "t2" "X" buy 5.34 300 "2024-01-03" (Some 9.42%float) ] in
  map (@Engine.Position.averageCost float)
    (Engine.calculatePositions binary64 dayNumber trades [])
  = [5.412475000000001%float]
  /\ Engine.averageByFormula binary64 trades = 5.412475%float
  /\ PrimFloat.eqb 5.412475000000001 5.412475 = false.
Proof. vm_compute. repeat split. Qed.

Lemma C6_average_is_cost_over_quantity_witness :
  let trades := [ doubleTrade "t1" "X" buy 5.51 100 "2024-01-02" (Some 2.57%float);
                  doubleTrade "t2" "X" buy 5.34 300 "2024-01-03" (Some 9.42%float) ] in
  exists p,
    Engine.calculatePositions binary64 dayNumber trades [] = [p]
    /\ Engine.Position.totalQuantity p = 400%float
    /\ Engine.Position.totalCost p = 2164.9900000000002%float
    /\ Engine.Position.averageCost p = 5.412475000000001%float.
Proof.
  intros trades.
  destruct (C6_average_is_cost_over_quantity binary64 dayNumber trades "X" [])
    as [p [Hp [_ [Hq [Hc Ha]]]]].
  - discriminate.
  - repeat constructor.
  - reflexivity.
  - reflexivity.
  - exists p. split; [exact Hp|]. rewrite Ha, Hq, Hc. repeat split.
Defined.



(** C10, as stated, fails in the arithmetic of the code.  A buy of 7
    at 0.3 sold in two parts leaves no position, so the costs add up
    to 0, while the last [cumulativeCost] is 2.220446049250313e-16,
    what the roundings leave of 2.1.  And with two instruments the
    costs of the positions are added up in another order than the
    running total: 24714.000000000004 against 24714. *)
Lemma C10_costs_differ_from_cumulative :
  let sum trades :=
    Engine.Totals.totalCost
      (Engine.calculateTotalProfitLoss binary64
         (Engine.calculatePositions binary64 dayNumber trades [])) in
  let cumulative trades :=
    last (map (@Engine.AnalysisPoint.cumulativeCost float)
            (Engine.analyzeTradeHistory binary64 dayNumber trades)) 0%float in
  let closed := [ doubleTrade "t1" "X" buy 0.3 7 "2024-01-02" None;
                  doubleTrade "t2" "X" sell 1 1 "2024-01-03" None;
                  doubleTrade "t3" "X" sell 1 6 "2024-01-04" None ] in
  let two := [ doubleTrade "t1" "A" buy 16.1 1000 "2024-01-02" None;
               doubleTrade "t2" "B" buy 34.44 200 "2024-01-03" None;
               doubleTrade "t3" "A" buy 8.63 200 "2024-01-04" None ] in
  Engine.calculatePositions binary64 dayNumber closed [] = []
  /\ sum closed = 0%float
  /\ cumulative closed = 2.220446049250313e-16%float
  /\ PrimFloat.eqb (sum closed) (cumulative closed) = false
  /\ sum two = 24714.000000000004%float
  /\ cumulative two = 24714%float
  /\ PrimFloat.eqb (sum two) (cumulative two) = false.
Proof. vm_compute. repeat split. Qed.

Lemma C10_single_instrument_cost_is_cumulative_witness :
  let trades := [ doubleTrade "t1" "X" buy 10 100 "2024-01-02" (Some 5%float);
                  doubleTrade "t2" "X" sell 12 50 "2024-01-03" (Some 2%float) ] in
  let cumulativeCost :=
    last (map (@Engine.AnalysisPoint.cumulativeCost float)
            (Engine.analyzeTradeHistory binary64 dayNumber trades)) 0%float in
  exists p,
    Engine.calculatePositions binary64 dayNumber trades [] = [p]
    /\ Engine.Position.totalCost p = cumulativeCost
    /\ cumulativeCost = 502.49999999999994%float.
Proof.
  intros trades cumulativeCost.
  destruct (nth_error (Engine.calculatePositions binary64 dayNumber trades []) 0)
    as [p|] eqn:Hp; [|vm_compute in Hp; discriminate Hp].
  exists p.
  destruct (C10_single_instrument_cost_is_cumulative binary64 dayNumber trades [])
    as [_ [_ Hsingle]].
  destruct (Hsingle "X" ltac:(repeat constructor) p (nth_error_In _ 0 Hp))
    as [Hone [Hcost _]].
  split; [exact Hone|]. split; [exact Hcost|]. vm_compute. reflexivity.
Defined.

(** ** The first part is the engine in exact arithmetic

    The records of the first part, as records of the engine over the
    exact rationals. *)

Definition exactTrade (t : Trade.t) : Engine.Trade.t Qc :=
  Engine.Trade.mk (Trade.id t) (Trade.stockCode t) (Trade.stockName t) (Trade.type t)
    (Trade.price t) (Trade.quantity t) (Trade.date t) (Trade.commission t) (Trade.tags t).

Definition exactHolding (h : Holding.t) : Engine.Holding.t Qc :=
  Engine.Holding.mk (Holding.stockCode h) (Holding.stockName h)
    (Holding.totalQuantity h) (Holding.totalCost h).

Definition exactPosition (p : Position.t) : Engine.Position.t Qc :=
  Engine.Position.mk (Position.stockCode p) (Position.stockName p)
    (Position.totalQuantity p) (Position.totalCost p) (Position.averageCost p)
    (Position.currentPrice p) (Position.marketValue p) (Position.profitLoss p)
    (Position.profitLossPercent p).

Definition exactInventory (i : Inventory.t) : Engine.Inventory.t Qc :=
  Engine.Inventory.mk (Inventory.quantity i) (Inventory.totalCost i).

Definition exactPoint (p : AnalysisPoint.t) : Engine.AnalysisPoint.t Qc :=
  Engine.AnalysisPoint.mk (AnalysisPoint.date p) (AnalysisPoint.cost p)
    (AnalysisPoint.profit p) (AnalysisPoint.cumulativeCost p).

Lemma orZero_exact (c : option Qc) : Engine.orZero rationals c = Num.orZero c.
Proof.
  destruct c as [x|]; simpl; [|reflexivity].
  destruct (Qc_eq_bool x 0) eqn:E; [|reflexivity].
  symmetry. now apply Qc_eq_bool_correct.
Qed.

Section ExactEngine.

Variable getTime : string -> Z.

Lemma sortedTrades_exact (trades : list Trade.t) :
  Engine.sortedTrades rationals getTime (map exactTrade trades)
  = map exactTrade (sortedTrades getTime trades).
Proof.
  symmetry. exact (sort_map exactTrade (Engine.byDate rationals getTime) trades).
Qed.

Lemma applyTrade_exact (h : Holding.t) (t : Trade.t) :
  Engine.applyTrade rationals (exactHolding h) (exactTrade t)
  = exactHolding (applyTrade h t).
Proof.
  unfold Engine.applyTrade, applyTrade. simpl. rewrite orZero_exact.
  destruct (Trade.type t); [reflexivity|].
  destruct (Num.ltb 0 (Holding.totalQuantity h)); reflexivity.
Qed.

Lemma positionStep_exact (m : JsMap.t Holding.t) (t : Trade.t) :
  Engine.positionStep rationals (JsMapFacts.mapValues exactHolding m) (exactTrade t)
  = JsMapFacts.mapValues exactHolding (positionStep m t).
Proof.
  unfold Engine.positionStep, positionStep.
  rewrite JsMapFacts.set_mapValues. cbn [Engine.Trade.stockCode exactTrade]. f_equal.
  assert (He : Engine.existingHolding rationals (JsMapFacts.mapValues exactHolding m) (exactTrade t)
               = exactHolding (existingHolding m t)).
  { unfold Engine.existingHolding, existingHolding.
    cbn [Engine.Trade.stockCode exactTrade]. rewrite JsMapFacts.get_mapValues.
    destruct (JsMap.get (Trade.stockCode t) m); reflexivity. }
  rewrite He, applyTrade_exact. reflexivity.
Qed.

Lemma toPosition_exact (currentPrices : JsMap.t Qc) (entry : string * Holding.t) :
  Engine.toPosition rationals currentPrices (fst entry, exactHolding (snd entry))
  = option_map exactPosition (toPosition currentPrices entry).
Proof.
  destruct entry as [code h]. unfold Engine.toPosition, toPosition. simpl.
  destruct (Num.leb (Holding.totalQuantity h) 0); [reflexivity|].
  destruct (JsMap.get code currentPrices); reflexivity.
Qed.

(** [calculatePositions] of the first part is the engine's, run in
    exact arithmetic. *)
Lemma calculatePositions_exact (trades : list Trade.t) (currentPrices : JsMap.t Qc) :
  Engine.calculatePositions rationals getTime (map exactTrade trades) currentPrices
  = map exactPosition (calculatePositions getTime trades currentPrices).
Proof.
  unfold Engine.calculatePositions, calculatePositions, Engine.positionMap, positionMap.
  rewrite sortedTrades_exact.
  assert (Hfold : forall l m,
             fold_left (Engine.positionStep rationals) (map exactTrade l)
               (JsMapFacts.mapValues exactHolding m)
             = JsMapFacts.mapValues exactHolding (fold_left positionStep l m)).
  { induction l as [|t l IH]; intros m; simpl; [reflexivity|].
    now rewrite positionStep_exact, IH. }
  transitivity
    (Engine.collectPositions rationals currentPrices
       (JsMapFacts.mapValues exactHolding
          (fold_left positionStep (sortedTrades getTime trades) JsMap.empty))).
  { f_equal. exact (Hfold _ JsMap.empty). }
  generalize (fold_left positionStep (sortedTrades getTime trades) JsMap.empty).
  intros m. induction m as [|entry m IH]; [reflexivity|].
  change (JsMapFacts.mapValues exactHolding (entry :: m))
    with ((fst entry, exactHolding (snd entry)) :: JsMapFacts.mapValues exactHolding m).
  cbn [Engine.collectPositions collectPositions].
  rewrite toPosition_exact.
  destruct (toPosition currentPrices entry); cbn [option_map map]; now rewrite IH.
Qed.

Lemma analysisStep_exact (st : AnalysisState) (t : Trade.t) :
  let st' := analysisStep st t in
  Engine.analysisStep rationals
    (Engine.mkState rationals (map exactPoint (points st)) (currentCumulativeCost st)
       (JsMapFacts.mapValues exactInventory (stockInventory st)))
    (exactTrade t)
  = Engine.mkState rationals (map exactPoint (points st')) (currentCumulativeCost st')
      (JsMapFacts.mapValues exactInventory (stockInventory st')).
Proof.
  unfold Engine.analysisStep, analysisStep, Engine.tradeEffect, tradeEffect,
    Engine.inventoryOf, inventoryOf.
  cbn [Engine.stockInventory Engine.currentCumulativeCost Engine.points
       Engine.Trade.stockCode Engine.Trade.type Engine.Trade.price
       Engine.Trade.quantity Engine.Trade.commission Engine.Trade.date exactTrade].
  rewrite JsMapFacts.get_mapValues, orZero_exact.
  destruct (JsMap.get (Trade.stockCode t) (stockInventory st)) as [i|];
    destruct (Trade.type t); simpl;
    try (destruct (Num.ltb 0 (Inventory.quantity i)); simpl);
    rewrite ?map_app, ?JsMapFacts.set_mapValues; reflexivity.
Qed.

(** [analyzeTradeHistory] of the first part is the engine's, run in
    exact arithmetic. *)
Lemma analyzeTradeHistory_exact (trades : list Trade.t) :
  Engine.analyzeTradeHistory rationals getTime (map exactTrade trades)
  = map exactPoint (analyzeTradeHistory getTime trades).
Proof.
  unfold Engine.analyzeTradeHistory, analyzeTradeHistory, Engine.analysisRun, analysisRun.
  rewrite sortedTrades_exact.
  assert (Hfold : forall l st,
             fold_left (Engine.analysisStep rationals) (map exactTrade l)
               (Engine.mkState rationals (map exactPoint (points st)) (currentCumulativeCost st)
                  (JsMapFacts.mapValues exactInventory (stockInventory st)))
             = let st' := fold_left analysisStep l st in
               Engine.mkState rationals (map exactPoint (points st')) (currentCumulativeCost st')
                 (JsMapFacts.mapValues exactInventory (stockInventory st'))).
  { induction l as [|t l IH]; intros st; simpl; [reflexivity|].
    now rewrite analysisStep_exact, IH. }
  transitivity
    (Engine.points rationals
       (let st' := fold_left analysisStep (sortedTrades getTime trades) initialState in
        Engine.mkState rationals (map exactPoint (points st')) (currentCumulativeCost st')
          (JsMapFacts.mapValues exactInventory (stockInventory st')))).
  { f_equal. exact (Hfold _ initialState). }
  reflexivity.
Qed.

End ExactEngine.

(** ** The chart *)

Section ExactChart.

Variable getTime : string -> Z.

Lemma collapseStep_exact (m : JsMap.t AnalysisPoint.t) (p : AnalysisPoint.t) :
  Engine.collapseStep rationals (JsMapFacts.mapValues exactPoint m) (exactPoint p)
  = JsMapFacts.mapValues exactPoint (collapseStep m p).
Proof.
  unfold Engine.collapseStep, collapseStep.
  cbn [Engine.AnalysisPoint.date exactPoint].
  rewrite JsMapFacts.get_mapValues.
  destruct (JsMap.get (AnalysisPoint.date p) m); cbn [option_map];
    now rewrite JsMapFacts.set_mapValues.
Qed.

(** [processedData] of the chart is the engine's, run in exact
    arithmetic. *)
Lemma processedData_exact (data : list AnalysisPoint.t) :
  Engine.processedData rationals getTime (map exactPoint data)
  = map exactPoint (processedData getTime data).
Proof.
  unfold Engine.processedData, processedData. rewrite length_map.
  destruct (List.length data =? 0)%nat; [reflexivity|].
  assert (Hfold : forall l m,
             fold_left (Engine.collapseStep rationals) (map exactPoint l)
               (JsMapFacts.mapValues exactPoint m)
             = JsMapFacts.mapValues exactPoint (fold_left collapseStep l m)).
  { induction l as [|p l IH]; intros m; simpl; [reflexivity|].
    now rewrite collapseStep_exact, IH. }
  transitivity
    (JsArray.sort (Engine.byPointDate rationals getTime)
       (map snd (JsMapFacts.mapValues exactPoint (collapsed data)))).
  { f_equal. f_equal. exact (Hfold _ JsMap.empty). }
  unfold JsMapFacts.mapValues. rewrite map_map. cbn [snd].
  rewrite <- (map_map snd exactPoint).
  symmetry. exact (sort_map exactPoint (Engine.byPointDate rationals getTime) _).
Qed.

End ExactChart.

(** Grouping by date adds the costs of a date first.  In binary64
    the total of the chart's points is not the total of the points
    they come from: 16.1 * 1000 and 8.63 * 200 on one day, 34.44 * 200
    on the day between. *)
Remark grouping_by_date_rounds :
  let data := [ Engine.AnalysisPoint.mk "2024-01-02" (16.1 * 1000) 0 0;
                Engine.AnalysisPoint.mk "2024-01-03" (34.44 * 200) 0 0;
                Engine.AnalysisPoint.mk "2024-01-02" (8.63 * 200) 0 0 ]%float in
  Engine.sumOf binary64
    (map (@Engine.AnalysisPoint.cost float) (Engine.processedData binary64 dayNumber data))
  = 24714.000000000004%float
  /\ Engine.sumOf binary64 (map (@Engine.AnalysisPoint.cost float) data) = 24714%float.
Proof. vm_compute. split; reflexivity. Qed.
